(** * Hackathon Orchestrator: the outreach server and its candidate store

    A shallow embedding of [core/server.py], [core/main.py],
    [tools/communication_tools.py] and the speaker search of
    [services/speaker_finder_service.py], followed by the properties of the
    candidate registry, the event bus, the outreach flow and the demo
    sequencer that the specification states.

    Handlers and tasks are functions on the state of the process (the
    queue of the bus, the run-active flag, the candidate store) in a monad
    that also records exceptions.  A task that a handler creates is run to
    its end once the handler has returned, with no other request in
    between; the cancellation of a task is not part of the embedding.
    What the process gets from outside (the Gmail and Calendar APIs, the
    clock, [hash], [json.loads]) is a parameter, the [world]. *)

From Stdlib Require Import ZArith List String Ascii Bool Lia DecimalString.
Import ListNotations.
Open Scope string_scope.

(** ** Python values *)

(** The exceptions that the modelled code can see. *)
Inductive exn : Type :=
| TypeError
| AttributeError
| KeyError (key : string)
| IndexError
| ValueError
| OverflowError
| RuntimeError
| HttpError
| FileNotFoundError
| HTTPException (status_code : nat) (detail : string)
| OtherError (what : string).

(** The result of calling a function that may raise. *)
Inductive outcome (A : Type) : Type :=
| Ret (a : A)
| Raise (e : exn).
Arguments Ret {A} a.
Arguments Raise {A} e.

(** A JSON document, as [json.loads] produces it and [json.dumps] prints it. *)
#[local] Unset Elimination Schemes.
Inductive json : Type :=
| JNull
| JBool (b : bool)
| JNum (n : Z)
| JStr (s : string)
| JArr (items : list json)
| JObj (fields : list (string * json)).
#[local] Set Elimination Schemes.

(** [x or y] on optional strings: [None] and the empty string are falsy. *)
Definition truthy (x : option string) : bool :=
  match x with
  | Some s => negb (s =? "")
  | None => false
  end.

Definition py_or (x y : option string) : option string :=
  if truthy x then x else y.

(** [x or d] where [d] is a string literal. *)
Definition py_or_str (x : option string) (d : string) : string :=
  match x with
  | Some s => if s =? "" then d else s
  | None => d
  end.

(** An optional string as a JSON value, and as [str()] prints it. *)
Definition json_of_opt (x : option string) : json :=
  match x with
  | Some s => JStr s
  | None => JNull
  end.

Definition str_of_opt (x : option string) : string :=
  match x with
  | Some s => s
  | None => "None"
  end.

(** ** The candidate store ([CandidateStore], server.py) *)

(** One element of the [candidates] list of a request body: a dict whose
    keys may be missing (or null). *)
Record partial : Type := mkPartial {
  p_name : option string;
  p_email : option string;
  p_expertise : option string;
  p_status : option string
}.

(** A stored record.  [refToken] is a key that [set_ref] adds. *)
Record rec : Type := mkRec {
  name : option string;
  email : string;
  expertise : string;
  status : option string;
  refToken : option string
}.

(** [self._store]: a dict from email to record.  A Python dict keeps the
    order in which its keys were first inserted, and the store is read
    through [list(self._store.values())], so an association list in
    insertion order. *)
Definition store : Type := list (string * rec).

(** [self._store.get(email)] *)
Fixpoint store_get (st : store) (e : string) : option rec :=
  match st with
  | [] => None
  | (k, r) :: st' => if k =? e then Some r else store_get st' e
  end.

(** [self._store[email] = rec]: an existing key keeps its position. *)
Fixpoint store_set (st : store) (e : string) (r : rec) : store :=
  match st with
  | [] => [(e, r)]
  | (k, r0) :: st' =>
      if k =? e then (k, r) :: st' else (k, r0) :: store_set st' e r
  end.

(** [list(self._store.values())] *)
Definition store_values (st : store) : list rec := map snd st.

Definition store_keys (st : store) : list string := map fst st.

(** The body of the loop of [CandidateStore.load] for one element [c]. *)
Definition load_one (st : store) (c : partial) : store :=
  if truthy (p_email c) then
    let e := str_of_opt (p_email c) in
    let old := store_get st e in
    let r :=
      {| name := py_or (p_name c)
                   (match old with Some r0 => name r0 | None => None end);
         email := e;
         expertise := py_or_str (p_expertise c)
                   (match old with Some r0 => expertise r0 | None => "" end);
         status := py_or (p_status c)
                   (match old with Some r0 => status r0 | None => Some "Sourced" end);
         refToken := match old with Some r0 => refToken r0 | None => None end |} in
    store_set st e r
  else st.

(** The record that [load_one] writes for [c], given the record [old] that
    was there. *)
Definition merged_rec (old : option rec) (c : partial) : rec :=
  {| name := py_or (p_name c) (match old with Some r0 => name r0 | None => None end);
     email := str_of_opt (p_email c);
     expertise := py_or_str (p_expertise c)
                    (match old with Some r0 => expertise r0 | None => "" end);
     status := py_or (p_status c)
                 (match old with Some r0 => status r0 | None => Some "Sourced" end);
     refToken := match old with Some r0 => refToken r0 | None => None end |}.

(** [CandidateStore.load]: the new store and the returned list. *)
Definition load (st : store) (candidates : list partial) : store * list rec :=
  let st' := fold_left load_one candidates st in
  (st', store_values st').

(** [CandidateStore.all] *)
Definition all (st : store) : list rec := store_values st.

(** [CandidateStore.update_status]: [None] when the email is unknown. *)
Definition update_status (st : store) (e : string) (s : option string)
  : store * option rec :=
  match store_get st e with
  | None => (st, None)
  | Some r =>
      let r' := {| name := name r; email := email r; expertise := expertise r;
                   status := s; refToken := refToken r |} in
      (store_set st e r', Some r')
  end.

(** [CandidateStore.set_ref] *)
Definition set_ref (st : store) (e : string) (ref : string) : store :=
  match store_get st e with
  | None => st
  | Some r =>
      store_set st e {| name := name r; email := email r; expertise := expertise r;
                        status := status r; refToken := Some ref |}
  end.

(** A sequence of [load] calls on one store. *)
Definition load_calls (st : store) (calls : list (list partial)) : store :=
  fold_left (fun s cs => fst (load s cs)) calls st.

(** ** [str.format(name=...)] *)

(** [body_template.format(name=name)] reads the template from left to right
    and raises at the first offending place.  The embedding covers literal
    text, the escapes [{{] and [}}], and replacement fields that are a bare
    key; a field with a conversion ([!]), a format specification ([:]), an
    attribute or an index ([.], [[]), a non-ASCII character, or more than 18
    digits is outside it, and the result there is [None]. *)

Definition is_digit (c : ascii) : bool :=
  (48 <=? nat_of_ascii c)%nat && (nat_of_ascii c <=? 57)%nat.

Fixpoint all_digits (s : string) : bool :=
  match s with
  | EmptyString => true
  | String c s' => is_digit c && all_digits s'
  end.

(** Characters that start a part of the format mini-language that is not
    embedded. *)
Definition outside_fragment (c : ascii) : bool :=
  (c =? "!")%char || (c =? ":")%char || (c =? ".")%char || (c =? "[")%char
  || (128 <=? nat_of_ascii c)%nat.

(** The value of the replacement field [key] when the only argument is the
    keyword [name]. *)
Definition field_value (key nm : string) : option (outcome string) :=
  if key =? "name" then Some (Ret nm)
  else if all_digits key then
    (if (String.length key <=? 18)%nat then Some (Raise IndexError) else None)
  else Some (Raise (KeyError key)).

(** Where the scanner is: in literal text, just after a single closing brace,
    or inside a replacement field whose key so far is [key]. *)
Inductive fmt_mode : Type :=
| InText
| AfterClose
| InField (key : string).

Definition prepend (c : string) (r : option (outcome string))
  : option (outcome string) :=
  match r with
  | Some (Ret s) => Some (Ret (c ++ s))
  | other => other
  end.

Fixpoint format_from (m : fmt_mode) (t : string) (nm : string)
  : option (outcome string) :=
  match t with
  | EmptyString =>
      match m with
      | InText => Some (Ret "")
      | AfterClose => Some (Raise ValueError)
      | InField _ => Some (Raise ValueError)
      end
  | String c t' =>
      match m with
      | InText =>
          if (c =? "{")%char then format_from (InField "") t' nm
          else if (c =? "}")%char then format_from AfterClose t' nm
          else prepend (String c "") (format_from InText t' nm)
      | AfterClose =>
          if (c =? "}")%char then prepend "}" (format_from InText t' nm)
          else Some (Raise ValueError)
      | InField key =>
          if (c =? "{")%char then
            (if key =? "" then prepend "{" (format_from InText t' nm)
             else Some (Raise ValueError))
          else if (c =? "}")%char then
            match field_value key nm with
            | Some (Ret v) => prepend v (format_from InText t' nm)
            | other => other
            end
          else if outside_fragment c then None
          else format_from (InField (key ++ String c "")) t' nm
      end
  end.

(** [template.format(name=nm)] *)
Definition str_format (template nm : string) : option (outcome string) :=
  format_from InText template nm.

(** ** The reference token *)

(** [f"{n:x}"] for a non-negative [n]: lower-case hexadecimal, no prefix. *)
Definition hex_digit (d : Z) : ascii :=
  match String.get (Z.to_nat d) "0123456789abcdef" with
  | Some c => c
  | None => "0"%char
  end.

Fixpoint hex_from (fuel : nat) (n : Z) (acc : string) : string :=
  match fuel with
  | O => acc
  | S fuel' =>
      let acc' := String (hex_digit (n mod 16)) acc in
      if (n / 16 =? 0)%Z then acc' else hex_from fuel' (n / 16) acc'
  end.

Definition hex (n : Z) : string :=
  hex_from (S (Z.to_nat (Z.log2 n))) n "".

(** [f"{hash((email, subject)) & 0xfffffff:x}"], where [h] is the value of
    [hash((email, subject))]. *)
Definition ref_of_hash (h : Z) : string := hex (Z.land h 268435455).

(** *** Reading a token back *)

(** The value of a hexadecimal digit, and [int(s, 16)] for a string of
    lower-case digits. *)
Definition hex_value (c : ascii) : option Z :=
  let n := nat_of_ascii c in
  if (48 <=? n)%nat && (n <=? 57)%nat then Some (Z.of_nat (n - 48))
  else if (97 <=? n)%nat && (n <=? 102)%nat then Some (Z.of_nat (n - 87))
  else None.

Fixpoint of_hex_from (v : Z) (s : string) : option Z :=
  match s with
  | EmptyString => Some v
  | String c s' =>
      match hex_value c with
      | Some d => of_hex_from (v * 16 + d) s'
      | None => None
      end
  end.

Definition of_hex (s : string) : option Z :=
  match s with
  | EmptyString => None
  | _ => of_hex_from 0 s
  end.

(** ** The process state and the monad of the handlers *)

(** The module-level objects of server.py: [bus] (its queue and its
    [active_run] flag) and [candidate_store], together with the number of
    interactions with the outside world made so far, which is what the
    answers of the outside world may depend on. *)
Record state : Type := mkState {
  queue : list (string * json);
  active_run : bool;
  candidate_store : store;
  ticks : nat
}.

(** How a computation ends: it returns, it raises, the polling loop has used
    up the fuel it was given, or it has reached a template outside the
    embedded fragment of [str.format]. *)
Inductive run (A : Type) : Type :=
| Returns (a : A) (s : state)
| Raises (e : exn) (s : state)
| OutOfFuel
| Unmodelled.
Arguments Returns {A} a s.
Arguments Raises {A} e s.
Arguments OutOfFuel {A}.
Arguments Unmodelled {A}.

Definition M (A : Type) : Type := state -> run A.

Definition ret {A} (a : A) : M A := fun s => Returns a s.

Definition bind {A B} (m : M A) (k : A -> M B) : M B :=
  fun s =>
    match m s with
    | Returns a s' => k a s'
    | Raises e s' => Raises e s'
    | OutOfFuel => OutOfFuel
    | Unmodelled => Unmodelled
    end.

Notation "x <- m ;; k" := (bind m (fun x => k))
  (at level 61, m at next level, right associativity).
Notation "m ;;; k" := (bind m (fun _ => k))
  (at level 61, right associativity).

Definition raise {A} (e : exn) : M A := fun s => Raises e s.

(** One more interaction with the outside world has taken place. *)
Definition tick (s : state) : state :=
  {| queue := queue s; active_run := active_run s;
     candidate_store := candidate_store s; ticks := S (ticks s) |}.

(** One more event has been published. *)
Definition push (s : state) (ev : string * json) : state :=
  {| queue := queue s ++ [ev]; active_run := active_run s;
     candidate_store := candidate_store s; ticks := ticks s |}.

(** An external call: its answer depends on the moment it is made. *)
Definition call {A} (f : nat -> outcome A) : M A :=
  fun s =>
    match f (ticks s) with
    | Ret a => Returns a (tick s)
    | Raise e => Raises e (tick s)
    end.

(** The result of a pure library call that may raise or be outside the
    embedding. *)
Definition lift {A} (r : option (outcome A)) : M A :=
  fun s =>
    match r with
    | Some (Ret a) => Returns a s
    | Some (Raise e) => Raises e s
    | None => Unmodelled
    end.

(** [try: m finally: fin] *)
Definition try_finally {A} (m : M A) (fin : M unit) : M A :=
  fun s =>
    match m s with
    | Returns a s' =>
        match fin s' with
        | Returns _ s'' => Returns a s''
        | Raises e s'' => Raises e s''
        | OutOfFuel => OutOfFuel
        | Unmodelled => Unmodelled
        end
    | Raises e s' =>
        match fin s' with
        | Returns _ s'' => Raises e s''
        | Raises e' s'' => Raises e' s''
        | OutOfFuel => OutOfFuel
        | Unmodelled => Unmodelled
        end
    | OutOfFuel => OutOfFuel
    | Unmodelled => Unmodelled
    end.

(** [try: m except Exception: h] *)
Definition try_except {A} (m : M A) (h : M A) : M A :=
  fun s =>
    match m s with
    | Raises _ s' => h s'
    | other => other
    end.

(** [await bus.emit(event, data)]: the queue is unbounded, so the put never
    waits. *)
Definition emit (event : string) (data : json) : M unit :=
  fun s =>
    Returns tt {| queue := queue s ++ [(event, data)]; active_run := active_run s;
                  candidate_store := candidate_store s; ticks := ticks s |}.

Definition set_active_run (b : bool) : M unit :=
  fun s =>
    Returns tt {| queue := queue s; active_run := b;
                  candidate_store := candidate_store s; ticks := ticks s |}.

Definition get_active_run : M bool := fun s => Returns (active_run s) s.

(** A method of [candidate_store]. *)
Definition with_store {A} (f : store -> store * A) : M A :=
  fun s =>
    let (st', a) := f (candidate_store s) in
    Returns a {| queue := queue s; active_run := active_run s;
                 candidate_store := st'; ticks := ticks s |}.

(** [await asyncio.sleep(...)] and [time.sleep(...)]: time passes. *)
Definition sleep : M unit := call (fun _ => Ret tt).

(** ** The outside world *)

(** [CommunicationTools] as server.py calls it: [send_email] with the
    keywords [to], [subject], [body] and [ref_token];
    [search_replies_by_ref_token] with a token; [schedule_meeting] with
    [attendees], [summary], [description], [duration_minutes] and
    [timezone_name]. *)
Record comm_tools : Type := mkTools {
  send_email : nat -> string -> string -> string -> option string -> outcome string;
  search_replies_by_ref_token : nat -> string -> outcome (list json);
  schedule_meeting :
    nat -> list string -> string -> string -> Z -> option string -> outcome string
}.

(** What the process gets from its environment: the hash of a pair of
    strings (fixed for the life of the process), [json.loads] ([None] when
    it raises), the event loop's clock in seconds, whether
    [run_orchestrator] is in its offline mode, the CrewAI run, and the
    communication tools. *)
Record world : Type := mkWorld {
  py_hash : string -> string -> Z;
  json_loads : string -> option json;
  loop_time : nat -> Z;
  dummy_run : bool;
  crew_kickoff : nat -> string -> outcome string;
  tools : comm_tools
}.

(** ** [CommunicationTools] (tools/communication_tools.py) *)

(** [CommunicationTools.send_email(to, subject, body)]: the Gmail API either
    answers with the id of the sent message or raises; an [HttpError] is
    re-raised as a [RuntimeError].  The method has no other parameter, so a
    call that also passes the keyword [ref_token] raises [TypeError] before
    the body runs. *)
Definition CommunicationTools_send_email
    (gmail_send : nat -> string -> string -> string -> outcome (option string))
    (t : nat) (to subject body : string) (ref_token : option string)
  : outcome string :=
  match ref_token with
  | Some _ => Raise TypeError
  | None =>
      match gmail_send t to subject body with
      | Ret msg_id =>
          Ret ("Email successfully sent to " ++ to ++ ". Message ID: "
               ++ str_of_opt msg_id)
      | Raise HttpError => Raise RuntimeError
      | Raise e => Raise e
      end
  end.

(** The class as the file defines it: it has [send_email] and
    [schedule_meeting] (the Calendar API call, taken as given) and no
    attribute [search_replies_by_ref_token]. *)
Definition CommunicationTools
    (gmail_send : nat -> string -> string -> string -> outcome (option string))
    (calendar :
       nat -> list string -> string -> string -> Z -> option string -> outcome string)
  : comm_tools :=
  {| send_email := CommunicationTools_send_email gmail_send;
     search_replies_by_ref_token := fun _ _ => Raise AttributeError;
     schedule_meeting := calendar |}.

(** ** Records as JSON *)

(** The four keys that the [candidates] event and the demo list carry. *)
Definition json_of_rec (r : rec) : json :=
  JObj [("name", json_of_opt (name r)); ("email", JStr (email r));
        ("expertise", JStr (expertise r)); ("status", json_of_opt (status r))].

(** A stored dict as it is: [refToken] is there once [set_ref] has run. *)
Definition json_of_stored (r : rec) : json :=
  JObj ([("name", json_of_opt (name r)); ("email", JStr (email r));
         ("expertise", JStr (expertise r)); ("status", json_of_opt (status r))]
        ++ match refToken r with
           | Some t => [("refToken", JStr t)]
           | None => []
           end)%list.

(** [d[k] = v] on the fields of a JSON object. *)
Fixpoint dict_set (d : list (string * json)) (k : string) (v : json)
  : list (string * json) :=
  match d with
  | [] => [(k, v)]
  | (k0, v0) :: d' =>
      if k0 =? k then (k0, v) :: d' else (k0, v0) :: dict_set d' k v
  end.

(** [{**d, **more}] *)
Definition dict_unpack (d more : list (string * json)) : list (string * json) :=
  fold_left (fun acc kv => dict_set acc (fst kv) (snd kv)) more d.

Definition status_event (e : string) (s : option string) : json :=
  JObj [("email", JStr e); ("status", json_of_opt s)].

Definition log_event (message : string) : json :=
  JObj [("message", JStr message)].

(** The number of events of a kind in a queue. *)
Definition count_kind (kind : string) (q : list (string * json)) : nat :=
  List.length (filter (fun ev => fst ev =? kind) q).

(** A handler returns its response and the task it has created, if any;
    the task runs once the handler has returned. *)
Definition handler : Type := M (json * option (M unit)).

Definition to_completion (h : handler) : M json :=
  r <- h ;;
  match snd r with
  | Some task => task ;;; ret (fst r)
  | None => ret (fst r)
  end.

(** ** [run_orchestrator] (core/main.py) *)

Section Orchestrator.

Variable w : world.

(** [try: cb(x) except Exception: pass], when [cb] is given. *)
Definition callback {X} (cb : option (X -> M unit)) (x : X) : M unit :=
  match cb with
  | Some f => try_except (f x) (ret tt)
  | None => ret tt
  end.

Definition when (b : bool) (m : M unit) : M unit :=
  if b then m else ret tt.

Definition mock_results : list rec :=
  [ mkRec (Some "Dr. Evelyn Reed") "e.reed@example.com" "Quantum Computing"
      (Some "Sourced") None;
    mkRec (Some "Marco Jin") "m.jin@example.com" "AI in FinTech"
      (Some "Sourced") None;
    mkRec (Some "Anya Sharma") "a.sharma@example.com" "Decentralized Science"
      (Some "Sourced") None ].

(** The outreach updates: [for idx, candidate in enumerate(mock_results)]. *)
Fixpoint outreach_updates (log : string -> M unit)
    (on_candidate_status : option (nat * string -> M unit))
    (simulate_timing : bool) (idx : nat) (cs : list rec) : M unit :=
  match cs with
  | [] => ret tt
  | candidate :: cs' =>
      log ("[SchedulingAgent] Sending outreach email to "
           ++ str_of_opt (name candidate) ++ ".") ;;;
      callback on_candidate_status (idx, "Contacted") ;;;
      when simulate_timing sleep ;;;
      outreach_updates log on_candidate_status simulate_timing (S idx) cs'
  end.

Definition run_orchestrator (topic : string)
    (on_log : option (string -> M unit))
    (on_candidates_found : option (list rec -> M unit))
    (on_candidate_status : option (nat * string -> M unit))
    (simulate_timing : bool) : M unit :=
  let log := callback on_log in
  log ("--- Launching Orchestrator for topic: " ++ topic ++ " ---") ;;;
  if dummy_run w then
    log "Running in DUMMY mode (no external LLM calls)." ;;;
    when simulate_timing sleep ;;;
    log "[SourcingAgent] Starting search..." ;;;
    when simulate_timing sleep ;;;
    log "[SourcingAgent] Found 3 potential candidates." ;;;
    callback on_candidates_found mock_results ;;;
    when simulate_timing sleep ;;;
    log "[SourcingAgent] Task complete. Passing results to SchedulingAgent." ;;;
    when simulate_timing sleep ;;;
    log "[SchedulingAgent] Initializing outreach sequence..." ;;;
    when simulate_timing sleep ;;;
    outreach_updates log on_candidate_status simulate_timing 0 mock_results ;;;
    log "[SchedulingAgent] Received positive reply from Dr. Evelyn Reed. Scheduling meeting." ;;;
    callback on_candidate_status (0%nat, "Accepted") ;;;
    when simulate_timing sleep ;;;
    log "[SchedulingAgent] Task complete." ;;;
    when simulate_timing sleep ;;;
    log "--- Crew Run Complete (Simulated) ---"
  else
    result <- call (fun t => crew_kickoff w t topic) ;;
    log (String (ascii_of_nat 10) "--- Crew Run Complete ---") ;;;
    log result.

End Orchestrator.

(** ** The endpoints (core/server.py) *)

(** The body of [POST /outreach/send]. *)
Record send_payload : Type := mkSendPayload {
  sp_subject : option string;
  sp_bodyTemplate : option string;
  sp_candidates : list partial
}.

(** The body of [POST /outreach/run-flow], the integers already read. *)
Record flow_payload : Type := mkFlowPayload {
  fp_subject : option string;
  fp_bodyTemplate : option string;
  fp_candidates : list partial;
  fp_windowMinutes : Z;
  fp_pollEverySeconds : Z;
  fp_summary : option string;
  fp_description : option string;
  fp_duration : Z;
  fp_timezone : option string
}.

(** A float as far as [int()] can tell: a finite float, given by its integer
    part (the float rounded towards zero), an infinity, or a NaN. *)
Inductive pyfloat : Type :=
| Finite (integer_part : Z)
| Infinity
| NaN.

(** What a request body holds under a key that the handler reads with
    [int(payload.get(key, default))]: nothing, [null], a boolean, an
    integer, a float ([1e999] is read as an infinity), a string, or a list
    or an object. *)
Inductive number : Type :=
| NMissing
| NNull
| NBool (b : bool)
| NInt (n : Z)
| NFloat (f : pyfloat)
| NStr (s : string)
| NContainer.

Fixpoint digits_value (v : Z) (s : string) : Z :=
  match s with
  | EmptyString => v
  | String c s' => digits_value (v * 10 + Z.of_nat (nat_of_ascii c - 48)) s'
  end.

(** An ASCII string without any digit. *)
Fixpoint no_digit_ascii (s : string) : bool :=
  match s with
  | EmptyString => true
  | String c s' =>
      (nat_of_ascii c <? 128)%nat && negb (is_digit c) && no_digit_ascii s'
  end.

(** [int(s)] for a string.  Embedded: an optional sign followed by one to
    4300 ASCII digits, which is that number, and an ASCII string without any
    digit, which raises [ValueError].  Other strings (white space or
    underscores around the digits, digits of other scripts, more digits than
    the limit of the interpreter) are outside the fragment, and the result
    there is [None]. *)
Definition int_of_str (s : string) : option (outcome Z) :=
  let signed (sign : Z) (body : string) : option (outcome Z) :=
    if negb (body =? "") && all_digits body && (String.length body <=? 4300)%nat
    then Some (Ret (sign * digits_value 0 body)%Z)
    else None in
  if no_digit_ascii s then Some (Raise ValueError)
  else
    match s with
    | String "-" body => signed (-1)%Z body
    | String "+" body => signed 1%Z body
    | _ => signed 1%Z s
    end.

(** [int(payload.get(key, default))] *)
Definition py_int (x : number) (default : Z) : option (outcome Z) :=
  match x with
  | NMissing => Some (Ret default)
  | NNull => Some (Raise TypeError)
  | NBool b => Some (Ret (if b then 1 else 0)%Z)
  | NInt n => Some (Ret n)
  | NFloat (Finite n) => Some (Ret n)
  | NFloat Infinity => Some (Raise OverflowError)
  | NFloat NaN => Some (Raise ValueError)
  | NStr s => int_of_str s
  | NContainer => Some (Raise TypeError)
  end.

(** The body of [POST /outreach/run-flow] as the handler receives it. *)
Record flow_request : Type := mkFlowRequest {
  fr_subject : option string;
  fr_bodyTemplate : option string;
  fr_candidates : list partial;
  fr_windowMinutes : number;
  fr_pollEverySeconds : number;
  fr_summary : option string;
  fr_description : option string;
  fr_duration : number;
  fr_timezone : option string
}.

(** The request whose three numbers are the integers of [payload].  It is a
    coercion: where a request is expected, a payload stands for this
    request. *)
Definition request_of (payload : flow_payload) : flow_request :=
  {| fr_subject := fp_subject payload;
     fr_bodyTemplate := fp_bodyTemplate payload;
     fr_candidates := fp_candidates payload;
     fr_windowMinutes := NInt (fp_windowMinutes payload);
     fr_pollEverySeconds := NInt (fp_pollEverySeconds payload);
     fr_summary := fp_summary payload;
     fr_description := fp_description payload;
     fr_duration := NInt (fp_duration payload);
     fr_timezone := fp_timezone payload |}.

Coercion request_of : flow_payload >-> flow_request.

(** Whether the conversion of the integer [n] to a float overflows: it
    raises [OverflowError] when [n] does not round to a finite double, and
    [x + n] for a float [x] makes this conversion. *)
Definition float_overflows (n : Z) : bool :=
  (2 ^ 1024 - 2 ^ 970 <=? Z.abs n)%Z.

(** An element of [enriched] in [flow_task]. *)
Record entry : Type := mkEntry {
  e_name : string;
  e_email : string;
  e_refToken : string;
  e_send : json;
  e_done : bool
}.

Section Server.

Variable w : world.

(** [f"{hash((email, subject)) & 0xfffffff:x}"] *)
Definition ref_token (email subject : string) : string :=
  ref_of_hash (py_hash w email subject).

(** *** [POST /run] *)

Definition on_log (message : string) : M unit :=
  emit "log" (log_event message).

Definition on_candidates_found (cands : list rec) : M unit :=
  emit "candidates" (JArr (map json_of_rec cands)).

Definition on_candidate_status (a : nat * string) : M unit :=
  emit "candidate_status"
    (JObj [("index", JNum (Z.of_nat (fst a))); ("status", JStr (snd a))]).

Definition run_in_thread (topic : string) : M unit :=
  try_finally
    (run_orchestrator w topic (Some on_log) (Some on_candidates_found)
       (Some on_candidate_status) true)
    (emit "done" (JObj [("ok", JBool true)]) ;;;
     set_active_run false).

Definition start_run (topic : string) : handler :=
  a <- get_active_run ;;
  if a then raise (HTTPException 409 "A run is already in progress")
  else
    set_active_run true ;;;
    ret (JObj [("status", JStr "started")], Some (run_in_thread topic)).

(** *** The demo helpers *)

(** The loop of [_simulate_outreach_sequence] that contacts each candidate. *)
Fixpoint simulate_contacts (enriched : list rec) : M unit :=
  match enriched with
  | [] => ret tt
  | e :: rest =>
      sleep ;;;
      emit "log" (log_event ("[SchedulingAgent] Sending outreach email to "
                             ++ str_of_opt (name e) ++ ".")) ;;;
      with_store (fun st => (fst (update_status st (email e) (Some "Contacted")), tt)) ;;;
      emit "candidate_status" (status_event (email e) (Some "Contacted")) ;;;
      simulate_contacts rest
  end.

Definition _simulate_outreach_sequence (enriched : list rec) : M unit :=
  emit "log" (log_event "[SchedulingAgent] Initializing outreach sequence...") ;;;
  simulate_contacts enriched ;;;
  match enriched with
  | first :: _ =>
      sleep ;;;
      emit "log" (log_event ("[SchedulingAgent] Received positive reply from "
                             ++ str_of_opt (name first) ++ ". Scheduling meeting.")) ;;;
      with_store (fun st => (fst (update_status st (email first) (Some "Accepted")), tt)) ;;;
      emit "candidate_status" (status_event (email first) (Some "Accepted"))
  | [] => ret tt
  end ;;;
  sleep ;;;
  emit "log" (log_event "[SchedulingAgent] Task complete.") ;;;
  sleep ;;;
  emit "done" (JObj [("ok", JBool true)]).

Definition demo_start_outreach : handler :=
  enriched <- with_store (fun st => (st, all st)) ;;
  match enriched with
  | [] =>
      emit "log" (log_event "[Outreach] No candidates loaded.") ;;;
      emit "done" (JObj [("ok", JBool false)]) ;;;
      ret (JObj [("ok", JBool false); ("reason", JStr "no candidates")], None)
  | _ =>
      ret (JObj [("ok", JBool true)], Some (_simulate_outreach_sequence enriched))
  end.

(** *** [POST /outreach/send] *)

(** The body of the loop of [send_outreach] for one candidate [c]. *)
Definition send_outreach_one (subject body_template : string)
    (results : list json) (c : partial) : M (list json) :=
  let name := py_or_str (p_name c) "there" in
  if truthy (p_email c) then
    let email := str_of_opt (p_email c) in
    let ref := ref_token email subject in
    body <- lift (str_format body_template name) ;;
    res <- call (fun t => send_email (tools w) t email subject body (Some ref)) ;;
    let results' :=
      (results ++ [match json_loads w res with
                   | Some j => j
                   | None => JObj [("ok", JBool false); ("to", JStr email)]
                   end])%list in
    with_store (fun st =>
      (fst (load st [mkPartial (Some name) (Some email) None (Some "Contacted")]), tt)) ;;;
    with_store (fun st => (set_ref st email ref, tt)) ;;;
    emit "candidate_status" (status_event email (Some "Contacted")) ;;;
    ret results'
  else ret results.

Fixpoint send_outreach_loop (subject body_template : string)
    (results : list json) (cs : list partial) : M (list json) :=
  match cs with
  | [] => ret results
  | c :: cs' =>
      results' <- send_outreach_one subject body_template results c ;;
      send_outreach_loop subject body_template results' cs'
  end.

Definition send_outreach (payload : send_payload) : M json :=
  let subject := py_or_str (sp_subject payload) "Hackathon Invitation" in
  let body_template :=
    py_or_str (sp_bodyTemplate payload) "Hi {name}, we'd love to invite you." in
  match sp_candidates payload with
  | [] => raise (HTTPException 400 "candidates required")
  | candidates =>
      results <- send_outreach_loop subject body_template [] candidates ;;
      ret (JObj [("ok", JBool true); ("sent", JArr results)])
  end.

(** *** [POST /outreach/run-flow] *)

(** Step 1 of [flow_task] for one candidate [c]. *)
Definition flow_send_one (subject body_template : string)
    (enriched : list entry) (c : partial) : M (list entry) :=
  let name := py_or_str (p_name c) "there" in
  if truthy (p_email c) then
    let email := str_of_opt (p_email c) in
    let ref := ref_token email subject in
    body <- lift (str_format body_template name) ;;
    res_json <- call (fun t => send_email (tools w) t email subject body (Some ref)) ;;
    let res :=
      match json_loads w res_json with
      | Some j => j
      | None => JObj [("ok", JBool false); ("to", JStr email); ("refToken", JStr ref)]
      end in
    let enriched' := (enriched ++ [mkEntry name email ref res false])%list in
    with_store (fun st =>
      (fst (load st [mkPartial (Some name) (Some email) None (Some "Contacted")]), tt)) ;;;
    with_store (fun st => (set_ref st email ref, tt)) ;;;
    emit "candidate_status" (status_event email (Some "Contacted")) ;;;
    emit "log" (log_event ("[Outreach] Sent to " ++ name ++ " <" ++ email ++ ">")) ;;;
    ret enriched'
  else ret enriched.

Fixpoint flow_send_loop (subject body_template : string)
    (enriched : list entry) (cs : list partial) : M (list entry) :=
  match cs with
  | [] => ret enriched
  | c :: cs' =>
      enriched' <- flow_send_one subject body_template enriched c ;;
      flow_send_loop subject body_template enriched' cs'
  end.

Definition contacted_view (e : entry) : json :=
  JObj [("name", JStr (e_name e)); ("email", JStr (e_email e));
        ("expertise", JStr ""); ("status", JStr "Contacted")].

(** The body of the inner loop of step 2 for one element [e] of
    [enriched]; [scheduled] is the list built so far. *)
Definition poll_one (summary description : string) (duration : Z)
    (tz : option string) (e : entry) (scheduled : list json)
  : M (entry * list json) :=
  if e_done e then ret (e, scheduled)
  else
    msgs <- call (fun t => search_replies_by_ref_token (tools w) t (e_refToken e)) ;;
    match msgs with
    | [] => ret (e, scheduled)
    | _ :: _ =>
        emit "log" (log_event ("[Outreach] Reply detected from " ++ e_email e)) ;;;
        meet_json <- call (fun t =>
          schedule_meeting (tools w) t [e_email e] summary description duration tz) ;;
        let meet :=
          match json_loads w meet_json with
          | Some j => j
          | None => JObj [("eventId", JNull)]
          end in
        match meet with
        | JObj fields =>
            let e' := mkEntry (e_name e) (e_email e) (e_refToken e) (e_send e) true in
            let scheduled' :=
              (scheduled
               ++ [JObj (dict_unpack [("email", JStr (e_email e))] fields)])%list in
            with_store (fun st =>
              (fst (update_status st (e_email e) (Some "Accepted")), tt)) ;;;
            emit "candidate_status" (status_event (e_email e) (Some "Accepted")) ;;;
            emit "log" (log_event ("[Scheduling] Meeting created for " ++ e_email e)) ;;;
            ret (e', scheduled')
        | _ => raise TypeError
        end
    end.

(** One pass over [enriched]. *)
Fixpoint poll_pass (summary description : string) (duration : Z)
    (tz : option string) (es : list entry) (scheduled : list json)
  : M (list entry * list json) :=
  match es with
  | [] => ret ([], scheduled)
  | e :: es' =>
      r <- poll_one summary description duration tz e scheduled ;;
      r' <- poll_pass summary description duration tz es' (snd r) ;;
      ret (fst r :: fst r', snd r')
  end.

(** [await asyncio.sleep(delay)] for an integer [delay]: a delay that is
    not positive only yields; a positive one is added to the clock of the
    loop, a float, which raises [OverflowError] when the delay does not fit
    a float. *)
Definition asyncio_sleep (delay : Z) : M unit :=
  if (0 <? delay)%Z && float_overflows delay then raise OverflowError
  else sleep.

(** [while asyncio.get_event_loop().time() < deadline: ...]; [fuel] bounds
    the number of times the condition is evaluated. *)
Fixpoint poll_loop (fuel : nat) (deadline poll_interval : Z)
    (summary description : string) (duration : Z) (tz : option string)
    (es : list entry) (scheduled : list json) : M (list json) :=
  match fuel with
  | O => fun _ => OutOfFuel
  | S fuel' =>
      now <- call (fun t => Ret (loop_time w t)) ;;
      if (now <? deadline)%Z then
        r <- poll_pass summary description duration tz es scheduled ;;
        asyncio_sleep poll_interval ;;;
        poll_loop fuel' deadline poll_interval summary description duration tz
          (fst r) (snd r)
      else ret scheduled
  end.

Definition flow_task (fuel : nat) (payload : flow_payload) : M unit :=
  let subject := py_or_str (fp_subject payload) "Hackathon Invitation" in
  let body_template :=
    py_or_str (fp_bodyTemplate payload) "Hi {name}, we'd love to invite you." in
  let summary := py_or_str (fp_summary payload) "Introductory Meeting" in
  let description := py_or_str (fp_description payload) "Intro call" in
  try_finally
    (emit "log" (log_event "[Outreach] Starting outreach flow") ;;;
     enriched <- flow_send_loop subject body_template [] (fp_candidates payload) ;;
     emit "candidates" (JArr (map contacted_view enriched)) ;;;
     now <- call (fun t => Ret (loop_time w t)) ;;
     if float_overflows (fp_windowMinutes payload * 60) then raise OverflowError
     else
       let deadline := (now + fp_windowMinutes payload * 60)%Z in
       scheduled <- poll_loop fuel deadline (fp_pollEverySeconds payload)
                      summary description (fp_duration payload)
                      (fp_timezone payload) enriched [] ;;
       emit "done" (JObj [("ok", JBool true); ("scheduled", JArr scheduled)]))
    (set_active_run false).

(** The handler sets the flag and then reads the three integers of the
    request with [int()], before it creates the task. *)
Definition run_full_outreach_flow (fuel : nat) (request : flow_request) : handler :=
  a <- get_active_run ;;
  if a then raise (HTTPException 409 "A run is already in progress")
  else
    set_active_run true ;;;
    window_minutes <- lift (py_int (fr_windowMinutes request) 30) ;;
    poll_interval <- lift (py_int (fr_pollEverySeconds request) 20) ;;
    duration <- lift (py_int (fr_duration request) 30) ;;
    ret (JObj [("ok", JBool true); ("status", JStr "started")],
         Some (flow_task fuel
                 {| fp_subject := fr_subject request;
                    fp_bodyTemplate := fr_bodyTemplate request;
                    fp_candidates := fr_candidates request;
                    fp_windowMinutes := window_minutes;
                    fp_pollEverySeconds := poll_interval;
                    fp_summary := fr_summary request;
                    fp_description := fr_description request;
                    fp_duration := duration;
                    fp_timezone := fr_timezone request |})).

(** *** The registry endpoints *)

(** [POST /candidates/load] *)
Definition load_candidates (candidates : list partial) : M json :=
  all_recs <- with_store (fun st => load st candidates) ;;
  emit "candidates" (JArr (map json_of_rec all_recs)) ;;;
  ret (JObj [("ok", JBool true);
             ("count", JNum (Z.of_nat (List.length all_recs)))]).

(** [PATCH /candidates/{email}/status] *)
Definition update_candidate_status (email : string) (status : option string)
  : M json :=
  r <- with_store (fun st => update_status st email status) ;;
  match r with
  | None => raise (HTTPException 404 "candidate not found")
  | Some r' =>
      emit "candidate_status" (status_event email status) ;;;
      ret (JObj [("ok", JBool true); ("candidate", json_of_stored r')])
  end.

End Server.

(** ** The registry that the specification describes *)

(** Whether the partial record [c] is a record for the email [e]: it has an
    email, the email is not empty, and it is [e]. *)
Definition has_email (e : string) (c : partial) : bool :=
  match p_email c with
  | Some x => negb (x =? "") && (x =? e)
  | None => false
  end.

(** The last non-empty value that the records [cs] give to the field [f]. *)
Definition last_nonempty (f : partial -> option string) (cs : list partial)
  : option string :=
  last (filter truthy (map f cs)) None.

(** The field-wise last-write-wins merge of [records], read at the email
    [e]: there is a candidate when some record is for [e]; each of its fields
    is the last non-empty value written to it, [status] being [Sourced] and
    [expertise] empty when none was. *)
Definition spec_merge (records : list partial) (e : string) : option rec :=
  match filter (has_email e) records with
  | [] => None
  | rs =>
      Some {| name := last_nonempty p_name rs;
              email := e;
              expertise := match last_nonempty p_expertise rs with
                           | Some x => x
                           | None => ""
                           end;
              status := match last_nonempty p_status rs with
                        | Some x => Some x
                        | None => Some "Sourced"
                        end;
              refToken := None |}
  end.

(** The emails that a [load] of [cs] adds to a store whose keys are [seen],
    in the order in which it adds them. *)
Fixpoint fresh_emails (seen : list string) (cs : list partial) : list string :=
  match cs with
  | [] => []
  | c :: cs' =>
      if truthy (p_email c) then
        let e := str_of_opt (p_email c) in
        if existsb (String.eqb e) seen then fresh_emails seen cs'
        else e :: fresh_emails (seen ++ [e]) cs'
      else fresh_emails seen cs'
  end.


(** ** Observing a queue *)

(** The emails (or positions) of the [candidate_status] events of a queue
    that announce the status [st], in publish order. *)
Definition status_subject (st : string) (ev : string * json) : option json :=
  match ev with
  | (kind, JObj [(_, subject); ("status", JStr st')]) =>
      if (kind =? "candidate_status") && (st' =? st) then Some subject else None
  | _ => None
  end.

Fixpoint status_subjects (st : string) (q : list (string * json)) : list json :=
  match q with
  | [] => []
  | ev :: q' =>
      match status_subject st ev with
      | Some subject => subject :: status_subjects st q'
      | None => status_subjects st q'
      end
  end.

(** The payloads of the events of a kind. *)
Definition payloads (kind : string) (q : list (string * json)) : list json :=
  map snd (filter (fun ev => fst ev =? kind) q).

(** ** A process for the examples *)

(** A Gmail API that accepts every message, a Calendar API that creates every
    event, a clock that advances by one second at each interaction, and the
    offline mode of [run_orchestrator].  [example_hash] stands for the
    interpreter's [hash] and [example_json_loads] for [json.loads]; the
    examples give the latter only the two documents it tells apart: the
    sentence that [send_email] returns, which is not JSON, and the empty
    object. *)
Definition example_gmail (t : nat) (to subject body : string)
  : outcome (option string) := Ret (Some "m1").

Definition example_calendar (t : nat) (attendees : list string)
    (summary description : string) (duration : Z) (tz : option string)
  : outcome string := Ret "{}".

Fixpoint poly_hash (s : string) (h : Z) : Z :=
  match s with
  | EmptyString => h
  | String c s' => poly_hash s' (h * 31 + Z.of_nat (nat_of_ascii c))
  end.

Definition example_hash (email subject : string) : Z :=
  poly_hash subject (poly_hash email 7).

Definition example_json_loads (s : string) : option json :=
  if s =? "{}" then Some (JObj []) else None.

(** The process with [CommunicationTools] as the repository has it. *)
Definition example_world : world :=
  {| py_hash := example_hash;
     json_loads := example_json_loads;
     loop_time := fun t => Z.of_nat t;
     dummy_run := true;
     crew_kickoff := fun _ _ => Raise (OtherError "crewai");
     tools := CommunicationTools example_gmail example_calendar |}.


(** The same process with tools that take the [ref_token] keyword: a
    [send_email] that ignores it, a reply lookup that finds one reply for
    every token. *)
Definition lenient_tools : comm_tools :=
  {| send_email := fun t to subject body _ =>
       CommunicationTools_send_email example_gmail t to subject body None;
     search_replies_by_ref_token := fun _ _ => Ret [JStr "yes"];
     schedule_meeting := example_calendar |}.

Definition lenient_world : world :=
  {| py_hash := example_hash;
     json_loads := example_json_loads;
     loop_time := fun t => Z.of_nat t;
     dummy_run := true;
     crew_kickoff := fun _ _ => Raise (OtherError "crewai");
     tools := lenient_tools |}.

Definition initial_state : state :=
  {| queue := []; active_run := false; candidate_store := []; ticks := 0 |}.

Definition ada : partial := mkPartial (Some "Ada") (Some "ada@x.com") None None.
Definition bob : partial := mkPartial (Some "Bob") (Some "bob@x.com") None None.

Definition example_flow (template : option string) (cs : list partial)
  : flow_payload :=
  {| fp_subject := Some "Hi"; fp_bodyTemplate := template; fp_candidates := cs;
     fp_windowMinutes := 0; fp_pollEverySeconds := 20; fp_summary := None;
     fp_description := None; fp_duration := 30; fp_timezone := None |}.

(** The request of [example_flow] for [Bob], with [windowMinutes] as given. *)
Definition example_request (window_minutes : number) : flow_request :=
  {| fr_subject := Some "Hi"; fr_bodyTemplate := None; fr_candidates := [bob];
     fr_windowMinutes := window_minutes; fr_pollEverySeconds := NInt 20;
     fr_summary := None; fr_description := None; fr_duration := NInt 30;
     fr_timezone := None |}.

(** A template without braces. *)
Fixpoint no_braces (t : string) : bool :=
  match t with
  | EmptyString => true
  | String c t' => negb (c =? "{")%char && negb (c =? "}")%char && no_braces t'
  end.

(** The store after [candidate_store.load([{"name": nm, "email": email,
    "status": "Contacted"}])] and [candidate_store.set_ref(email, ref)]. *)
Definition mark_contacted (st : store) (nm email ref : string) : store :=
  set_ref
    (fst (load st [mkPartial (Some nm) (Some email) None (Some "Contacted")]))
    email ref.





Definition ada_entry : entry := mkEntry "Ada" "ada@x.com" "a1" JNull false.

(** A registry that holds [Ada], while a run is active. *)
Definition ada_rec : rec := mkRec (Some "Ada") "ada@x.com" "" (Some "Sourced") None.

Definition busy_state : state :=
  {| queue := []; active_run := true; candidate_store := [("ada@x.com", ada_rec)]; ticks := 0 |}.

Definition ada_state : state :=
  {| queue := []; active_run := false; candidate_store := [("ada@x.com", ada_rec)]; ticks := 0 |}.

(** The events that the contact loop of [_simulate_outreach_sequence]
    publishes. *)
Definition contact_events (enriched : list rec) : list (string * json) :=
  flat_map
    (fun e =>
       [("log", log_event ("[SchedulingAgent] Sending outreach email to "
                           ++ str_of_opt (name e) ++ "."));
        ("candidate_status", status_event (email e) (Some "Contacted"))])
    enriched.

(** The events that [_simulate_outreach_sequence] publishes for [enriched]. *)
Definition simulated_events (enriched : list rec) : list (string * json) :=
  ([("log", log_event "[SchedulingAgent] Initializing outreach sequence...")]
   ++ contact_events enriched
   ++ match enriched with
      | first :: _ =>
          [("log", log_event ("[SchedulingAgent] Received positive reply from "
                              ++ str_of_opt (name first) ++ ". Scheduling meeting."));
           ("candidate_status", status_event (email first) (Some "Accepted"))]
      | [] => []
      end
   ++ [("log", log_event "[SchedulingAgent] Task complete.");
       ("done", JObj [("ok", JBool true)])])%list.

(** ** Predicates on computations *)

(** A computation keeps a relation between the state it starts in and the
    state it ends in, whether it returns or raises. *)
Definition keeps (R : state -> state -> Prop) {A} (m : M A) : Prop :=
  forall s,
    match m s with
    | Returns _ s' => R s s'
    | Raises _ s' => R s s'
    | OutOfFuel => True
    | Unmodelled => True
    end.

(** A computation settles: it returns or raises. *)
Definition settles {A} (m : M A) : Prop :=
  forall s, m s <> OutOfFuel /\ m s <> Unmodelled.

(** The relations that sequencing preserves. *)
Class Progress (R : state -> state -> Prop) : Prop := {
  R_refl : forall s, R s s;
  R_trans : forall a b c, R a b -> R b c -> R a c
}.

(** The two relations that the properties use: the number of [done] events
    stays the same; the clock does not go back. *)
Definition same_done (s s' : state) : Prop :=
  count_kind "done" (queue s') = count_kind "done" (queue s).

Definition later (s s' : state) : Prop := (ticks s <= ticks s')%nat.

(** A computation whose last step publishes [done]: one more [done] event
    when it returns, none when it raises. *)
Definition ends_with_done {A} (m : M A) : Prop :=
  forall s,
    match m s with
    | Returns _ s' =>
        count_kind "done" (queue s') = S (count_kind "done" (queue s))
        /\ exists q d, queue s' = (q ++ [("done", d)])%list
    | Raises _ s' => same_done s s'
    | OutOfFuel => True
    | Unmodelled => True
    end.

(** A computation that does not run out of fuel. *)
Definition fueled {A} (m : M A) : Prop := forall s, m s <> OutOfFuel.


(** * More of the code *)

(** ** The registry as a dictionary *)

(** What a Python dict gives for free and an association list has to keep:
    the keys are distinct.  The store also keeps each record under its own
    email, which is never empty. *)
Definition store_wf (st : store) : Prop :=
  NoDup (store_keys st)
  /\ Forall (fun kr => email (snd kr) = fst kr /\ fst kr <> "") st.

(** The record that a [load] of [cs] leaves at the email [e], where [old]
    is the record that was there: nothing changes when no element of [cs] is
    for [e]; otherwise each field takes the last non-empty value that [cs]
    gives it, or keeps the old one. *)
Definition loaded_at (e : string) (old : option rec) (cs : list partial)
  : option rec :=
  match filter (has_email e) cs with
  | [] => old
  | rs =>
      Some {| name := py_or (last_nonempty p_name rs)
                        (match old with Some r0 => name r0 | None => None end);
              email := e;
              expertise := py_or_str (last_nonempty p_expertise rs)
                        (match old with Some r0 => expertise r0 | None => "" end);
              status := py_or (last_nonempty p_status rs)
                        (match old with
                         | Some r0 => status r0
                         | None => Some "Sourced"
                         end);
              refToken := match old with Some r0 => refToken r0 | None => None end |}
  end.

(** A registry with one contacted candidate, for the examples. *)
Definition ada_contacted : store :=
  [("ada@x.com", mkRec (Some "Ada") "ada@x.com" "" (Some "Contacted") (Some "1f"))].

(** ** Accounting for a run *)

(** The candidates of a request that have an email: the ones that the
    sending loops do not skip. *)
Definition emailed (cs : list partial) : list partial :=
  filter (fun c => truthy (p_email c)) cs.

(** The registry holds [e] as contacted, with the token [t]. *)
Definition contacted_with (st : store) (e t : string) : Prop :=
  exists r, store_get st e = Some r
            /\ status r = Some "Contacted" /\ refToken r = Some t.

(** The number of resolved entries of [enriched]. *)
Definition count_done (es : list entry) : nat :=
  List.length (filter e_done es).

(** A candidate without an email, for the examples. *)
Definition zed : partial := mkPartial (Some "Zed") None None None.

(** ** More predicates on computations *)

(** A computation that returns, whatever the state. *)
Definition always_returns {A} (m : M A) : Prop :=
  forall s, exists a s', m s = Returns a s'.

(** The keys of the registry and the run-active flag are as they were. *)
Definition same_registry (s s' : state) : Prop :=
  store_keys (candidate_store s') = store_keys (candidate_store s)
  /\ active_run s' = active_run s.

(** The registry is as it was. *)
Definition same_store (s s' : state) : Prop :=
  candidate_store s' = candidate_store s.

(** Callbacks that fail every time they are called. *)
Definition failing_callback {X} : option (X -> M unit) :=
  Some (fun _ => raise RuntimeError).

(** ** The other endpoints of server.py *)

(** What these endpoints get from outside, beyond the [world]: [str(e)] for
    an exception, [json.dumps], [hash] of a string and of the pair of a
    string and [None], [int(time.time())], the
    index that [random.choice] picks among the simulated replies, the OpenAI
    key ([Raise] when [import openai] fails), the two chat completions, and
    the two steps of the speaker finder (the search, and the creation of
    the spreadsheet by the Sheets API). *)
Record services : Type := mkServices {
  exn_str : exn -> string;
  json_dumps : json -> string;
  py_hash_str : string -> Z;
  py_hash_none : string -> Z;
  wall_time : nat -> Z;
  random_choice : nat -> nat;
  openai_key : nat -> outcome bool;
  gpt_enhance : nat -> string -> string -> string -> outcome string;
  gpt_analyse : nat -> string -> outcome unit;
  search_speakers : nat -> string -> Z -> outcome (list json);
  sheets_create : nat -> list json -> string -> outcome string
}.

(** [d.get(key, default)] on a key that is absent or holds a string. *)
Definition get_default (x : option string) (d : string) : string :=
  match x with
  | Some s => s
  | None => d
  end.

(** [try: m except Exception as e: raise HTTPException(500, prefix + str(e))] *)
Definition or_http_500 {A} (sv : services) (prefix : string) (m : M A) : M A :=
  fun s =>
    match m s with
    | Raises e s' => Raises (HTTPException 500 (prefix ++ exn_str sv e)) s'
    | other => other
    end.

(** *** The requests for one candidate *)

(** What the body of such a request holds under a key whose value is a
    string: nothing, [null], or the string. *)
Inductive field : Type :=
| Missing
| IsNull
| Given (s : string).

(** [d.get(key)] *)
Definition field_get (x : field) : option string :=
  match x with
  | Given s => Some s
  | Missing | IsNull => None
  end.

(** [d.get(key, default)]: the default stands in for a missing key only, a
    [null] is returned as [None]. *)
Definition field_get_or (x : field) (default : string) : option string :=
  match x with
  | Missing => Some default
  | IsNull => None
  | Given s => Some s
  end.

(** What an f-string and [str.format] write for a string or [None]. *)
Definition py_str (x : option string) : string :=
  match x with
  | Some s => s
  | None => "None"
  end.

(** The [candidate] of the request. *)
Record individual : Type := mkIndividual {
  i_name : field;
  i_email : field;
  i_expertise : field
}.

(** *** [POST /outreach/schedule-meeting] *)

(** The body of the request: the candidate, and [selectedTime]. *)
Record meeting_payload : Type := mkMeetingPayload {
  mp_candidate : individual;
  mp_selectedTime : option string;
  mp_summary : option string;
  mp_description : option string
}.

Section Individual.

Variable w : world.
Variable sv : services.

(** [f"meet_{hash((email, selected_time)) & 0xffffff:x}"] *)
Definition meeting_id (email selected_time : string) : string :=
  "meet_" ++ hex (Z.land (py_hash w email selected_time) 16777215).

Definition schedule_individual_meeting (payload : meeting_payload) : M json :=
  let candidate := mp_candidate payload in
  if negb (truthy (field_get (i_email candidate)))
     || negb (truthy (mp_selectedTime payload)) then
    raise (HTTPException 400 "candidate email and selectedTime required")
  else
    let email := str_of_opt (field_get (i_email candidate)) in
    let selected_time := str_of_opt (mp_selectedTime payload) in
    or_http_500 sv "Failed to schedule meeting: "
      (let id := meeting_id email selected_time in
       let meeting_link := "https://meet.google.com/" ++ id in
       with_store (fun st => (fst (update_status st email (Some "Scheduled")), tt)) ;;;
       emit "log" (log_event ("Meeting scheduled with "
                              ++ py_str (field_get_or (i_name candidate) email)
                              ++ " for " ++ selected_time)) ;;;
       emit "candidate_status" (status_event email (Some "Scheduled")) ;;;
       ret (JObj [("ok", JBool true);
                  ("meetingLink", JStr meeting_link);
                  ("eventId", JStr ("event_" ++ id));
                  ("scheduledTime", JStr selected_time);
                  ("message", JStr ("Meeting scheduled for " ++ selected_time))])).

(** *** [POST /outreach/send-individual] *)

(** [body_template.format(name=candidate.get('name', 'there'))]: a [null]
    name is written [None], and a [null] template has no [format]. *)
Definition rendered_body (candidate : individual) (body_template : option string)
  : M string :=
  match body_template with
  | Some template =>
      lift (str_format template (py_str (field_get_or (i_name candidate) "there")))
  | None => raise AttributeError
  end.

(** The body of the email: the completion when there is a key and the call
    succeeds, the rendered template otherwise. *)
Definition enhanced_body (candidate : individual) (body_template : option string)
  : M string :=
  key <- call (openai_key sv) ;;
  if (key : bool) then
    try_except
      (call (fun t =>
         gpt_enhance sv t (py_str (field_get_or (i_name candidate) "there"))
           (py_str (field_get_or (i_expertise candidate) "technology"))
           (py_str body_template)))
      (rendered_body candidate body_template)
  else rendered_body candidate body_template.

(** [f"{hash((candidate['email'], subject)) & 0xfffffff:x}"], where the
    subject is a string or [None]. *)
Definition individual_ref_token (email : string) (subject : option string)
  : string :=
  match subject with
  | Some s => ref_token w email s
  | None => ref_of_hash (py_hash_none sv email)
  end.

Definition send_individual_email (candidate : individual)
    (subject body_template : field) : M json :=
  let subject := field_get_or subject "Hackathon Invitation" in
  let body_template :=
    field_get_or body_template "Hi {name}, we'd love to invite you." in
  if negb (truthy (field_get (i_email candidate))) then
    raise (HTTPException 400 "candidate email required")
  else
    let email := str_of_opt (field_get (i_email candidate)) in
    or_http_500 sv "Failed to send email: "
      (body <- enhanced_body candidate body_template ;;
       let ref := individual_ref_token email subject in
       timestamp <- call (fun t => Ret (loop_time w t)) ;;
       with_store (fun st =>
         (fst (load st [mkPartial (field_get (i_name candidate)) (Some email)
                          (field_get_or (i_expertise candidate) "")
                          (Some "Contacted")]), tt)) ;;;
       with_store (fun st => (set_ref st email ref, tt)) ;;;
       emit "log" (log_event ("Enhanced email sent to "
                              ++ py_str (field_get_or (i_name candidate) email))) ;;;
       emit "candidate_status" (status_event email (Some "Contacted")) ;;;
       ret (JObj [("ok", JBool true); ("to", JStr email); ("refToken", JStr ref);
                  ("subject", json_of_opt subject); ("body", JStr body);
                  ("timestamp", JNum timestamp)])).

(** *** [POST /outreach/check-response] *)

(** An element of [simulated_responses]: its text, whether it is positive,
    and its time slots. *)
Definition simulated_responses : list (string * bool * list string) :=
  [ ("Hi! Yes, I'm very interested in participating. I'm available on Tuesday 2-4 PM, Wednesday 10 AM-12 PM, or Friday 3-5 PM next week.",
     true, ["Tuesday 2-4 PM"; "Wednesday 10 AM-12 PM"; "Friday 3-5 PM"]);
    ("Thanks for reaching out! I'd love to be involved. I can do Monday 1-3 PM, Thursday 9-11 AM, or next Friday afternoon.",
     true, ["Monday 1-3 PM"; "Thursday 9-11 AM"; "Friday 2-4 PM"]);
    ("Thank you for the invitation, but I'm not available during that time period. Good luck with your event!",
     false, []);
    ("Sounds interesting! I'm available most weekday afternoons. How about Wednesday 2 PM or Thursday 3 PM?",
     true, ["Wednesday 2 PM"; "Thursday 3 PM"]) ].

Definition response_json (r : string * bool * list string) : json :=
  let '(text, is_positive, times) := r in
  JObj [("ok", JBool true); ("hasResponse", JBool true);
        ("responseText", JStr text); ("isPositive", JBool is_positive);
        ("availableTimes", JArr (map JStr times));
        ("sentiment", JStr (if is_positive then "positive" else "negative"))].

Definition check_individual_response (ref_token candidate_email : option string)
  : M json :=
  if negb (truthy ref_token) || negb (truthy candidate_email) then
    raise (HTTPException 400 "refToken and candidateEmail required")
  else
    or_http_500 sv "Failed to check response: "
      (current_time <- call (fun t => Ret (wall_time sv t)) ;;
       let response_seed := (py_hash_str sv (str_of_opt ref_token) mod 100)%Z in
       let time_factor := (current_time mod 60)%Z in
       let has_response := ((response_seed + time_factor) mod 100 <? 30)%Z in
       if negb has_response then
         ret (JObj [("ok", JBool true); ("hasResponse", JBool false);
                    ("message", JStr "No response yet")])
       else
         pick <- call (fun t => Ret (random_choice sv t)) ;;
         let response_data :=
           nth (pick mod 4) simulated_responses ("", false, []) in
         try_except
           (call (fun t => gpt_analyse sv t (fst (fst response_data))))
           (ret tt) ;;;
         ret (response_json response_data)).

End Individual.

(** *** [POST /outreach/check-replies] and [POST /outreach/schedule-on-reply] *)

(** An element of the [candidates] list of [schedule-on-reply]. *)
Record reply_candidate : Type := mkReplyCandidate {
  rc_email : option string;
  rc_refToken : option string
}.

Section Replies.

Variable w : world.

(** The loop of [check_replies]: [found[ref] = msgs] for each token. *)
Fixpoint check_replies_loop (found : list (string * json)) (refs : list string)
  : M (list (string * json)) :=
  match refs with
  | [] => ret found
  | ref :: refs' =>
      msgs <- call (fun t => search_replies_by_ref_token (tools w) t ref) ;;
      check_replies_loop (dict_set found ref (JArr msgs)) refs'
  end.

Definition check_replies (refs : list string) : M json :=
  found <- check_replies_loop [] refs ;;
  ret (JObj [("ok", JBool true); ("replies", JObj found)]).

(** The body of the loop of [schedule_on_reply] for one candidate. *)
Definition schedule_on_reply_one (summary description : string) (duration : Z)
    (timezone_name : option string) (scheduled : list json) (c : reply_candidate)
  : M (list json) :=
  if negb (truthy (rc_email c)) || negb (truthy (rc_refToken c)) then ret scheduled
  else
    let email := str_of_opt (rc_email c) in
    msgs <- call (fun t =>
      search_replies_by_ref_token (tools w) t (str_of_opt (rc_refToken c))) ;;
    match msgs with
    | [] => ret scheduled
    | _ :: _ =>
        res <- call (fun t =>
          schedule_meeting (tools w) t [email] summary description duration
            timezone_name) ;;
        let scheduled' :=
          (scheduled
           ++ [match json_loads w res with
               | Some j => j
               | None => JObj [("eventId", JNull); ("calendarLink", JNull);
                               ("meetLink", JNull)]
               end])%list in
        with_store (fun st => (fst (update_status st email (Some "Accepted")), tt)) ;;;
        emit "candidate_status" (status_event email (Some "Accepted")) ;;;
        emit "log" (log_event ("[Scheduling] Meeting created for " ++ email)) ;;;
        ret scheduled'
    end.

Fixpoint schedule_on_reply_loop (summary description : string) (duration : Z)
    (timezone_name : option string) (scheduled : list json)
    (cs : list reply_candidate) : M (list json) :=
  match cs with
  | [] => ret scheduled
  | c :: cs' =>
      scheduled' <- schedule_on_reply_one summary description duration
                      timezone_name scheduled c ;;
      schedule_on_reply_loop summary description duration timezone_name
        scheduled' cs'
  end.

Definition schedule_on_reply (candidates : list reply_candidate)
    (summary description : option string) (duration : Z)
    (timezone_name : option string) : M json :=
  scheduled <- schedule_on_reply_loop (py_or_str summary "Introductory Meeting")
                 (py_or_str description "Intro call") duration timezone_name
                 [] candidates ;;
  ret (JObj [("ok", JBool true); ("scheduled", JArr scheduled)]).

End Replies.

(** A candidate of [schedule-on-reply] that has both an email and a token. *)
Definition complete (c : reply_candidate) : bool :=
  truthy (rc_email c) && truthy (rc_refToken c).

(** What the events published by a scheduling loop look like. *)
Definition one_status_per_meeting (n : nat) (added : list (string * json)) : Prop :=
  count_kind "candidate_status" added = n
  /\ count_kind "log" added = n
  /\ count_kind "done" added = 0%nat.

(** *** [POST /speakers/find] *)

Section Speakers.

Variable sv : services.

(** [SpeakerFinderService.create_speakers_spreadsheet]: the id of the new
    spreadsheet, or [None] when the Sheets API answers with an [HttpError]. *)
Definition create_speakers_spreadsheet (speakers : list json) (title : string)
  : M (option string) :=
  fun s =>
    match sheets_create sv (ticks s) speakers title with
    | Ret spreadsheet_id => Returns (Some spreadsheet_id) (tick s)
    | Raise HttpError => Returns None (tick s)
    | Raise e => Raises e (tick s)
    end.

(** [SpeakerFinderService.find_and_create_sheet] *)
Definition find_and_create_sheet (requirements : string) (max_results : Z)
  : M (option string) :=
  speakers <- call (fun t => search_speakers sv t requirements max_results) ;;
  match speakers with
  | [] => ret None
  | _ :: _ =>
      spreadsheet_id <- create_speakers_spreadsheet speakers
                          ("Speakers - " ++ requirements) ;;
      if truthy spreadsheet_id then
        ret (Some ("https://docs.google.com/spreadsheets/d/"
                   ++ str_of_opt spreadsheet_id ++ "/edit"))
      else ret None
  end.

Definition find_speakers (topic : option string) (max_results : option Z) : M json :=
  or_http_500 sv "Error finding speakers: "
    (let topic := get_default topic "" in
     let max_results := match max_results with Some n => n | None => 20%Z end in
     if topic =? "" then raise (HTTPException 400 "Topic is required")
     else
       spreadsheet_url <- find_and_create_sheet topic max_results ;;
       if truthy spreadsheet_url then
         ret (JObj [("ok", JBool true);
                    ("spreadsheet_url", JStr (str_of_opt spreadsheet_url));
                    ("topic", JStr topic);
                    ("max_results", JNum max_results);
                    ("message", JStr ("Successfully created spreadsheet with speakers for '"
                                      ++ topic ++ "'"))])
       else raise (HTTPException 500 "Failed to create spreadsheet")).

End Speakers.

(** *** [GET /stream] *)

Section Stream.

Variable sv : services.

(** The chunk that [EventBus.sse] yields for an event. *)
Definition sse_chunk (ev : string * json) : string :=
  "event: " ++ fst ev ++ String (ascii_of_nat 10) ("data: " ++ json_dumps sv (snd ev))
  ++ String (ascii_of_nat 10) (String (ascii_of_nat 10) "").

(** One round of the loop of [EventBus.sse]: [None] when the queue is empty
    and [queue.get()] waits. *)
Definition sse_next (s : state) : option (string * state) :=
  match queue s with
  | [] => None
  | ev :: q =>
      Some (sse_chunk ev,
            {| queue := q; active_run := active_run s;
               candidate_store := candidate_store s; ticks := ticks s |})
  end.

(** [n] rounds. *)
Fixpoint sse_take (n : nat) (s : state) : option (list string * state) :=
  match n with
  | O => Some ([], s)
  | S n' =>
      match sse_next s with
      | None => None
      | Some (chunk, s') =>
          match sse_take n' s' with
          | None => None
          | Some (chunks, s'') => Some (chunk :: chunks, s'')
          end
      end
  end.

End Stream.

(** *** [GET /demo/run-topic] *)

(** A row of contacts.csv as [csv.DictReader] gives it: a column may be
    missing. *)
Record csv_row : Type := mkCsvRow {
  cr_name : option string;
  cr_email : option string;
  cr_expertise : option string
}.

(** [needle in hay] *)
Fixpoint is_prefix (p s : string) : bool :=
  match p, s with
  | EmptyString, _ => true
  | String a p', String b s' => (a =? b)%char && is_prefix p' s'
  | String _ _, EmptyString => false
  end.

Fixpoint is_substring (needle hay : string) : bool :=
  is_prefix needle hay
  || match hay with
     | EmptyString => false
     | String _ hay' => is_substring needle hay'
     end.

(** A contact of the demo as the record that the simulated sequence reads. *)
Definition rec_of_contact (c : partial) : rec :=
  mkRec (p_name c) (str_of_opt (p_email c)) (get_default (p_expertise c) "")
    (p_status c) None.

Section DemoTopic.

(** [str.strip] and [str.lower], and the rows of contacts.csv ([None] when
    the file does not exist). *)
Variable str_strip : string -> string.
Variable str_lower : string -> string.
Variable contacts_csv : option (list csv_row).

Definition _read_contacts_csv : list partial :=
  match contacts_csv with
  | None => []
  | Some rows =>
      flat_map
        (fun row =>
           let name := str_strip (py_or_str (cr_name row) "") in
           let email := str_strip (py_or_str (cr_email row) "") in
           let expertise := str_strip (py_or_str (cr_expertise row) "") in
           if email =? "" then []
           else [mkPartial (Some name) (Some email) (Some expertise)
                   (Some "Sourced")])
        rows
  end.

(** The contacts that [demo_run_topic] simulates for [topic]: those whose
    expertise mentions it, or all of them when none does. *)
Definition topic_contacts (topic : string) (all_contacts : list partial)
  : list partial :=
  let t := str_lower topic in
  match filter (fun c => is_substring t (str_lower (get_default (p_expertise c) "")))
               all_contacts with
  | [] => all_contacts
  | filtered => filtered
  end.

Definition demo_run_topic (topic : string) : handler :=
  match _read_contacts_csv with
  | [] =>
      emit "log" (log_event "[SourcingAgent] No contacts.csv found.") ;;;
      emit "done" (JObj [("ok", JBool false)]) ;;;
      ret (JObj [("ok", JBool false); ("reason", JStr "no contacts.csv")], None)
  | all_contacts =>
      let filtered := topic_contacts topic all_contacts in
      with_store (fun st => (fst (load st filtered), tt)) ;;;
      emit "log" (log_event "[SourcingAgent] Found candidates from CSV.") ;;;
      recs <- with_store (fun st => (st, all st)) ;;
      emit "candidates" (JArr (map json_of_rec recs)) ;;;
      ret (JObj [("ok", JBool true);
                 ("count", JNum (Z.of_nat (List.length filtered)))],
           Some (_simulate_outreach_sequence (map rec_of_contact filtered)))
  end.

End DemoTopic.

(** *** The registry after the simulated sequence *)

(** A record with another status. *)
Definition with_status (r : rec) (s : option string) : rec :=
  {| name := name r; email := email r; expertise := expertise r;
     status := s; refToken := refToken r |}.

(** The registry after the loop of [_simulate_outreach_sequence]. *)
Definition contacted_all (enriched : list rec) (st : store) : store :=
  fold_left (fun st e => fst (update_status st (email e) (Some "Contacted")))
    enriched st.

(** Whether [e] is the email of a candidate of the list, and of its first. *)
Definition listed (enriched : list rec) (e : string) : bool :=
  existsb (fun x => email x =? e) enriched.

Definition is_first (enriched : list rec) (e : string) : bool :=
  match enriched with
  | first :: _ => email first =? e
  | [] => false
  end.

(** ** [SpeakerFinderService.search_speakers] (services/speaker_finder_service.py) *)

(** A speaker as the service builds it: the seven keys of its dict. *)
Record speaker : Type := mkSpeaker {
  sp_name : string;
  sp_title : string;
  sp_location : string;
  sp_email : string;
  sp_source : string;
  sp_query : string;
  sp_expertise : string
}.

Definition json_of_speaker (sp : speaker) : json :=
  JObj [("name", JStr (sp_name sp)); ("title", JStr (sp_title sp));
        ("location", JStr (sp_location sp)); ("email", JStr (sp_email sp));
        ("source", JStr (sp_source sp)); ("query", JStr (sp_query sp));
        ("expertise", JStr (sp_expertise sp))].

Definition demo (name title location email query expertise : string) : speaker :=
  mkSpeaker name title location email "Demo Data" query expertise.

(** [self.demo_speakers], in the order of its keys. *)
Definition demo_speakers : list (string * list speaker) :=
  [ ("AI in FinTech",
     [ demo "Dr. Sarah Chen"
         "Chief AI Officer at FinTech Innovations"
         "San Francisco, CA" "sarah.chen@fintechinnovations.com"
         "AI in FinTech"
         "Machine Learning, Financial Risk Assessment";
       demo "Marcus Rodriguez"
         "VP of AI Strategy at Digital Banking Corp"
         "New York, NY" "marcus.rodriguez@digitalbanking.com"
         "AI in FinTech"
         "AI Ethics, Algorithmic Trading";
       demo "Dr. Emily Watson"
         "Research Director at AI Finance Institute"
         "Boston, MA" "emily.watson@aifinance.edu"
         "AI in FinTech"
         "Neural Networks, Credit Scoring";
       demo "Alex Thompson"
         "Founder & CEO of AI-Powered Lending"
         "Austin, TX" "alex.thompson@ailending.com"
         "AI in FinTech"
         "Startup Leadership, AI Implementation";
       demo "Dr. James Kim"
         "Professor of Computer Science & Finance"
         "Stanford, CA" "james.kim@stanford.edu"
         "AI in FinTech"
         "Academic Research, Industry Collaboration";
       demo "Omar Shehab"
         "AI Research Scientist at NYU"
         "New York, NY" "oms7891@nyu.edu"
         "AI in FinTech"
         "Machine Learning, Natural Language Processing";
       demo "Mahmoud Kassem"
         "Data Science Engineer at NYU"
         "New York, NY" "mki4895@nyu.edu"
         "AI in FinTech"
         "Data Engineering, AI Systems" ]);
    ("Cybersecurity",
     [ demo "Lisa Park"
         "Chief Security Officer at CyberDefense Inc"
         "Washington, DC" "lisa.park@cyberdefense.com"
         "Cybersecurity"
         "Threat Intelligence, Incident Response";
       demo "David Chen"
         "Senior Security Architect"
         "Seattle, WA" "david.chen@securitycorp.com"
         "Cybersecurity"
         "Cloud Security, Zero Trust Architecture";
       demo "Dr. Rachel Green"
         "Cybersecurity Research Lead"
         "MIT, Cambridge" "rachel.green@mit.edu"
         "Cybersecurity"
         "Academic Research, Emerging Threats";
       demo "Omar Shehab"
         "Cybersecurity Researcher at NYU"
         "New York, NY" "oms7891@nyu.edu"
         "Cybersecurity"
         "Network Security, Cryptography";
       demo "Mahmoud Kassem"
         "Security Systems Engineer at NYU"
         "New York, NY" "mki4895@nyu.edu"
         "Cybersecurity"
         "System Security, Penetration Testing" ]);
    ("Blockchain",
     [ demo "Michael Chang"
         "Blockchain Technology Director"
         "Miami, FL" "michael.chang@blockchaintech.com"
         "Blockchain"
         "DeFi, Smart Contracts";
       demo "Sofia Rodriguez"
         "Cryptocurrency Research Analyst"
         "Chicago, IL" "sofia.rodriguez@cryptoresearch.com"
         "Blockchain"
         "Market Analysis, Regulatory Compliance";
       demo "Omar Shehab"
         "Blockchain Researcher at NYU"
         "New York, NY" "oms7891@nyu.edu"
         "Blockchain"
         "Distributed Systems, Cryptography";
       demo "Mahmoud Kassem"
         "Blockchain Developer at NYU"
         "New York, NY" "mki4895@nyu.edu"
         "Blockchain"
         "Smart Contracts, Web3 Development" ]);
    ("Data Science",
     [ demo "Dr. Robert Wilson"
         "Head of Data Science at TechCorp"
         "Seattle, WA" "robert.wilson@techcorp.com"
         "Data Science"
         "Big Data, Predictive Analytics";
       demo "Jennifer Lee"
         "Senior Data Scientist"
         "San Francisco, CA" "jennifer.lee@datascience.com"
         "Data Science"
         "Machine Learning, Data Visualization";
       demo "Omar Shehab"
         "Data Science Researcher at NYU"
         "New York, NY" "oms7891@nyu.edu"
         "Data Science"
         "Statistical Analysis, Machine Learning";
       demo "Mahmoud Kassem"
         "Data Engineer at NYU"
         "New York, NY" "mki4895@nyu.edu"
         "Data Science"
         "Data Pipeline, ETL Processes" ]) ].

(** The two speakers of the fallback of [_get_demo_speakers]. *)
Definition generic_speakers (query : string) : list speaker :=
  [ mkSpeaker "Dr. Expert Speaker" "Industry Expert" "Various" "expert@example.com"
      "Demo Data" query query;
    mkSpeaker "Professional Presenter" "Conference Speaker" "Various"
      "presenter@example.com" "Demo Data" query query ].

(** [l[:n]]: a negative [n] counts from the end. *)
Definition slice_to {A} (n : Z) (l : list A) : list A :=
  if (0 <=? n)%Z then firstn (Z.to_nat n) l
  else firstn (List.length l - Z.to_nat (- n)) l.

(** [str(n)] for a natural number. *)
Definition str_of_nat (n : nat) : string :=
  NilEmpty.string_of_uint (Nat.to_uint n).

(** [s.split()] on a string whose white space is ASCII. *)
Definition is_space (c : ascii) : bool :=
  let n := nat_of_ascii c in
  (n =? 32)%nat || ((9 <=? n)%nat && (n <=? 13)%nat)
  || ((28 <=? n)%nat && (n <=? 31)%nat).

Fixpoint split_from (cur : string) (s : string) : list string :=
  match s with
  | EmptyString => if cur =? "" then [] else [cur]
  | String c s' =>
      if is_space c
      then ((if cur =? "" then [] else [cur]) ++ split_from "" s')%list
      else split_from (cur ++ String c "") s'
  end.

Definition str_split (s : string) : list string := split_from "" s.

Section SpeakerFinder.

(** [str.lower]. *)
Variable str_lower : string -> string.

(** The score of a category in [_get_demo_speakers]. *)
Definition category_score (query category : string) : nat :=
  ((if is_substring (str_lower query) (str_lower category) then 3 else 0)
   + (if existsb (fun word => is_substring word (str_lower query))
           (str_split (str_lower category))
      then 1 else 0))%nat.

(** The loop over the categories: [(best_score, best_match)]. *)
Definition best_category (query : string) : nat * option string :=
  fold_left
    (fun best category =>
       let score := category_score query category in
       if (fst best <? score)%nat then (score, Some category) else best)
    (map fst demo_speakers) (0%nat, None).

Definition demo_lookup (category : string) : option (list speaker) :=
  option_map snd
    (find (fun kv => fst kv =? category) demo_speakers).

Definition _get_demo_speakers (query : string) (max_results : Z) : list speaker :=
  match snd (best_category query) with
  | Some best_match =>
      match (if best_match =? "" then None else demo_lookup best_match) with
      | Some pool => slice_to max_results pool
      | None => slice_to max_results (generic_speakers query)
      end
  | None => slice_to max_results (generic_speakers query)
  end.

(** The loop of [_attempt_web_scraping] over the [h3] elements of the
    answer.  An element is [Some t] when its stripped text is not empty and
    longer than ten characters, [t] being its first hundred characters, and
    [None] otherwise. *)
Fixpoint web_loop (query : string) (max_results : Z) (i : nat)
    (elements : list (option string)) (speakers : list speaker) : list speaker :=
  match elements with
  | [] => speakers
  | element :: rest =>
      if (max_results <=? Z.of_nat (List.length speakers))%Z then speakers
      else
        web_loop query max_results (S i) rest
          match element with
          | Some title =>
              (speakers
               ++ [mkSpeaker ("Expert Speaker " ++ str_of_nat (i + 1)) title
                     "Various" ("speaker" ++ str_of_nat (i + 1) ++ "@example.com")
                     "Web Search" query query])%list
          | None => speakers
          end
  end.

(** [_attempt_web_scraping]: [page] is [None] when the request raises or is
    not answered with status 200, and the [h3] elements of the answer
    otherwise. *)
Definition _attempt_web_scraping (query : string) (max_results : Z)
    (page : option (list (option string))) : list speaker :=
  match page with
  | None => []
  | Some elements => web_loop query max_results 0 (firstn 10 elements) []
  end.

Definition SpeakerFinderService_search_speakers (query : string) (max_results : Z)
    (page : option (list (option string))) : list speaker :=
  let speakers := _attempt_web_scraping query max_results page in
  let speakers :=
    if (Z.of_nat (List.length speakers) <? max_results)%Z
    then (speakers
          ++ _get_demo_speakers query
               (max_results - Z.of_nat (List.length speakers)))%list
    else speakers in
  slice_to max_results speakers.

End SpeakerFinder.

(** ** More processes for the examples *)

(** Services for the examples: no OpenAI key, a Sheets API that answers,
    a web search that fails, so that the speaker search falls back to the
    demo data; [str], [json.dumps], [hash], the clock, [random.choice] and
    [str.lower] are stand-ins. *)
Definition example_services : services :=
  {| exn_str := fun _ => "error";
     json_dumps := fun _ => "{}";
     py_hash_str := fun s => poly_hash s 7;
     py_hash_none := fun s => poly_hash s 13;
     wall_time := fun t => Z.of_nat t;
     random_choice := fun t => t;
     openai_key := fun _ => Ret false;
     gpt_enhance := fun _ _ _ _ => Raise (OtherError "openai");
     gpt_analyse := fun _ _ => Ret tt;
     search_speakers := fun _ query max_results =>
       Ret (map json_of_speaker
              (SpeakerFinderService_search_speakers (fun s => s) query
                 max_results None));
     sheets_create := fun _ _ _ => Ret "sheet1" |}.
(** * Properties *)

(** ** Sanity checks of [hex] and [str.format] *)

Example hex_255 : hex 255 = "ff".
Proof. reflexivity. Qed.

Example hex_0 : hex 0 = "0".
Proof. reflexivity. Qed.

Example hex_4096 : hex 4096 = "1000".
Proof. reflexivity. Qed.

Example ref_of_hash_negative : ref_of_hash (-1) = "fffffff".
Proof. reflexivity. Qed.

Example str_format_case_1 : str_format "Hi {name}, we'd love to invite you." "Ada" = Some (Ret "Hi Ada, we'd love to invite you.").
Proof. reflexivity. Qed.

Example str_format_case_2 : str_format "Hi {foo}" "Ada" = Some (Raise (KeyError "foo")).
Proof. reflexivity. Qed.

Example str_format_case_3 : str_format "{foo} }" "Ada" = Some (Raise (KeyError "foo")).
Proof. reflexivity. Qed.

Example str_format_case_4 : str_format "} {foo}" "Ada" = Some (Raise ValueError).
Proof. reflexivity. Qed.

Example str_format_case_5 : str_format "{{{name}}}" "Ada" = Some (Ret "{Ada}").
Proof. reflexivity. Qed.

Example str_format_case_6 : str_format "{name}}}" "Ada" = Some (Ret "Ada}").
Proof. reflexivity. Qed.

Example str_format_case_7 : str_format "{name}}" "Ada" = Some (Raise ValueError).
Proof. reflexivity. Qed.

Example str_format_case_8 : str_format "{}" "Ada" = Some (Raise IndexError).
Proof. reflexivity. Qed.

Example str_format_case_9 : str_format "{ {" "Ada" = Some (Raise ValueError).
Proof. reflexivity. Qed.

Example str_format_case_10 : str_format "{{ {" "Ada" = Some (Raise ValueError).
Proof. reflexivity. Qed.

Example str_format_case_11 : str_format "{name!r}" "Ada" = None.
Proof. reflexivity. Qed.

Example str_format_case_12 : str_format "{name" "Ada" = Some (Raise ValueError).
Proof. reflexivity. Qed.

Example str_format_case_13 : str_format "{01}" "Ada" = Some (Raise IndexError).
Proof. reflexivity. Qed.

Example str_format_case_14 : str_format "{}}" "Ada" = Some (Raise IndexError).
Proof. reflexivity. Qed.

(** ** The store as a dict *)

Lemma store_get_set (st : store) (e e' : string) (r : rec) :
  store_get (store_set st e r) e' = if e =? e' then Some r else store_get st e'.
Proof.
  induction st as [|[k r0] st IH]; simpl.
  - reflexivity.
  - destruct (k =? e) eqn:Hke; simpl.
    + apply String.eqb_eq in Hke. subst k.
      destruct (e =? e'); reflexivity.
    + rewrite IH. destruct (k =? e') eqn:Hke'; [|reflexivity].
      apply String.eqb_eq in Hke'. subst k.
      rewrite String.eqb_sym, Hke. reflexivity.
Qed.

Lemma store_get_set_same (st : store) (e : string) (r : rec) :
  store_get (store_set st e r) e = Some r.
Proof. rewrite store_get_set, String.eqb_refl. reflexivity. Qed.

Lemma store_get_set_other (st : store) (e e' : string) (r : rec) :
  e' <> e -> store_get (store_set st e r) e' = store_get st e'.
Proof.
  intros Hne. rewrite store_get_set.
  destruct (e =? e') eqn:H; [|reflexivity].
  apply String.eqb_eq in H. congruence.
Qed.

Lemma store_get_none_existsb (st : store) (e : string) :
  existsb (String.eqb e) (store_keys st) = false <-> store_get st e = None.
Proof.
  induction st as [|[k r] st IH]; simpl.
  - tauto.
  - rewrite (String.eqb_sym e k). destruct (k =? e); simpl.
    + split; discriminate.
    + exact IH.
Qed.

(** Assigning to a key that is there keeps the keys; assigning to a new key
    appends it. *)
Lemma store_keys_set_known (st : store) (e : string) (r r0 : rec) :
  store_get st e = Some r0 -> store_keys (store_set st e r) = store_keys st.
Proof.
  induction st as [|[k r1] st IH]; simpl; [discriminate|].
  destruct (k =? e); simpl; [reflexivity|].
  intros H. f_equal. apply IH, H.
Qed.

Lemma store_keys_set_new (st : store) (e : string) (r : rec) :
  store_get st e = None -> store_keys (store_set st e r) = (store_keys st ++ [e])%list.
Proof.
  induction st as [|[k r1] st IH]; simpl; [reflexivity|].
  destruct (k =? e); simpl; [discriminate|].
  intros H. f_equal. apply IH, H.
Qed.

(** ** [load] *)

Lemma has_email_truthy (e : string) (c : partial) :
  has_email e c = truthy (p_email c) && (str_of_opt (p_email c) =? e).
Proof.
  unfold has_email, truthy. destruct (p_email c) as [x|]; reflexivity.
Qed.

Lemma load_one_get (st : store) (c : partial) (e : string) :
  store_get (load_one st c) e =
  if has_email e c then Some (merged_rec (store_get st (str_of_opt (p_email c))) c)
  else store_get st e.
Proof.
  rewrite has_email_truthy. unfold load_one.
  destruct (truthy (p_email c)); simpl; [|reflexivity].
  rewrite store_get_set. reflexivity.
Qed.

Lemma load_calls_concat (calls : list (list partial)) (st : store) :
  load_calls st calls = fold_left load_one (List.concat calls) st.
Proof.
  unfold load_calls. revert st.
  induction calls as [|cs calls IH]; intros st; simpl.
  - reflexivity.
  - rewrite fold_left_app. apply IH.
Qed.

Lemma last_nonempty_snoc (f : partial -> option string) (cs : list partial)
    (c : partial) :
  last_nonempty f (cs ++ [c]) = if truthy (f c) then f c else last_nonempty f cs.
Proof.
  unfold last_nonempty. rewrite map_app, filter_app. simpl.
  destruct (truthy (f c)).
  - apply last_last.
  - rewrite app_nil_r. reflexivity.
Qed.

Lemma spec_merge_snoc (records : list partial) (c : partial) (e : string) :
  spec_merge (records ++ [c]) e =
  if has_email e c then Some (merged_rec (spec_merge records e) c)
  else spec_merge records e.
Proof.
  unfold spec_merge. rewrite filter_app. simpl.
  destruct (has_email e c) eqn:Hc.
  - assert (He : str_of_opt (p_email c) = e).
    { rewrite has_email_truthy in Hc. apply andb_true_iff in Hc.
      apply String.eqb_eq, Hc. }
    set (rs := filter (has_email e) records).
    assert (Hne : exists r0 rs', (rs ++ [c])%list = r0 :: rs').
    { destruct rs; simpl; eauto. }
    destruct Hne as (r0 & rs' & Hrs). rewrite Hrs, <- Hrs. clear r0 rs' Hrs.
    f_equal. unfold merged_rec. rewrite He.
    rewrite !last_nonempty_snoc.
    destruct rs as [|r1 rs1].
    + unfold py_or, py_or_str, truthy.
      destruct (p_name c) as [n|], (p_expertise c) as [x|], (p_status c) as [t|];
        simpl;
        repeat match goal with
               | |- context [(?a =? "")] => destruct (a =? "")
               end; reflexivity.
    + simpl name. simpl expertise. simpl status. simpl refToken.
      unfold py_or, py_or_str, truthy.
      destruct (p_name c) as [n|], (p_expertise c) as [x|], (p_status c) as [t|];
        simpl;
        repeat match goal with
               | |- context [(?a =? "")] => destruct (a =? "")
               end; reflexivity.
  - rewrite app_nil_r. reflexivity.
Qed.

(** The store after loading [records] one by one into an empty store is the
    field-wise merge of [records]. *)
Lemma fold_load_one_merge (records : list partial) (e : string) :
  store_get (fold_left load_one records []) e = spec_merge records e.
Proof.
  revert e. induction records as [|c records IH] using rev_ind; intros e.
  - reflexivity.
  - rewrite fold_left_app. simpl. rewrite load_one_get, spec_merge_snoc.
    destruct (has_email e c) eqn:Hc; [|apply IH].
    assert (He : str_of_opt (p_email c) = e).
    { rewrite has_email_truthy in Hc. apply andb_true_iff in Hc.
      apply String.eqb_eq, Hc. }
    rewrite He, IH. reflexivity.
Qed.

(** *** The keys of the store *)

Lemma store_get_in_keys (st : store) (e : string) (r : rec) :
  store_get st e = Some r -> In e (store_keys st).
Proof.
  induction st as [|[k r0] st IH]; simpl; [discriminate|].
  destruct (k =? e) eqn:Hk.
  - apply String.eqb_eq in Hk. auto.
  - auto.
Qed.

Lemma store_get_not_in_keys (st : store) (e : string) :
  store_get st e = None -> ~ In e (store_keys st).
Proof.
  induction st as [|[k r0] st IH]; simpl; [tauto|].
  destruct (k =? e) eqn:Hk; [discriminate|].
  apply String.eqb_neq in Hk. intros H [Hke|Hin]; [congruence|].
  apply IH; assumption.
Qed.

Lemma store_set_NoDup (st : store) (e : string) (r : rec) :
  NoDup (store_keys st) -> NoDup (store_keys (store_set st e r)).
Proof.
  intros Hnd. destruct (store_get st e) as [r0|] eqn:Hg.
  - rewrite (store_keys_set_known st e r r0 Hg). exact Hnd.
  - rewrite (store_keys_set_new st e r Hg).
    apply NoDup_app; [exact Hnd | constructor; [tauto|constructor] |].
    intros x Hx [Hxe|[]]. subst x.
    exact (store_get_not_in_keys st e Hg Hx).
Qed.

Lemma load_one_NoDup (st : store) (c : partial) :
  NoDup (store_keys st) -> NoDup (store_keys (load_one st c)).
Proof.
  intros Hnd. unfold load_one.
  destruct (truthy (p_email c)); [apply store_set_NoDup|]; exact Hnd.
Qed.

Lemma fold_load_one_NoDup (cs : list partial) (st : store) :
  NoDup (store_keys st) -> NoDup (store_keys (fold_left load_one cs st)).
Proof.
  revert st. induction cs as [|c cs IH]; intros st Hnd; simpl.
  - exact Hnd.
  - apply IH, load_one_NoDup, Hnd.
Qed.

(** With distinct keys, the pairs of the store are what [store_get] finds. *)
Lemma in_store_iff_get (st : store) (k : string) (r : rec) :
  NoDup (store_keys st) -> (In (k, r) st <-> store_get st k = Some r).
Proof.
  induction st as [|[k0 r0] st IH]; simpl; intros Hnd.
  - split; [tauto|discriminate].
  - inversion Hnd as [|? ? Hnotin Hnd']; subst.
    destruct (k0 =? k) eqn:Hk.
    + apply String.eqb_eq in Hk. subst k0. split.
      * intros [Heq|Hin]; [congruence|].
        exfalso. apply Hnotin. change k with (fst (k, r)).
        apply in_map, Hin.
      * intros Heq. left. congruence.
    + apply String.eqb_neq in Hk. rewrite <- (IH Hnd'). split.
      * intros [Heq|Hin]; [congruence|exact Hin].
      * auto.
Qed.

Lemma in_values_iff_get (st : store) (r : rec) :
  NoDup (store_keys st) ->
  (In r (store_values st) <-> exists k, store_get st k = Some r).
Proof.
  intros Hnd. unfold store_values. rewrite in_map_iff. split.
  - intros ([k r'] & Heq & Hin). simpl in Heq. subst r'.
    exists k. apply in_store_iff_get; assumption.
  - intros (k & Hg). exists (k, r). split; [reflexivity|].
    apply in_store_iff_get; assumption.
Qed.

(** The keys after a [load]: the keys before, then the emails it adds. *)
Lemma fold_load_one_keys (cs : list partial) (st : store) :
  store_keys (fold_left load_one cs st)
  = (store_keys st ++ fresh_emails (store_keys st) cs)%list.
Proof.
  revert st. induction cs as [|c cs IH]; intros st; simpl.
  - rewrite app_nil_r. reflexivity.
  - rewrite IH. unfold load_one.
    destruct (truthy (p_email c)); [|reflexivity].
    set (e := str_of_opt (p_email c)).
    destruct (existsb (String.eqb e) (store_keys st)) eqn:Hex.
    + destruct (store_get st e) as [r0|] eqn:Hg.
      * rewrite (store_keys_set_known st e _ r0 Hg). reflexivity.
      * apply store_get_none_existsb in Hg. congruence.
    + apply store_get_none_existsb in Hex.
      rewrite (store_keys_set_new st e _ Hex), <- app_assoc. reflexivity.
Qed.

(** ** The registry: [load], [update_status] and their endpoints *)

(** C4.  After any sequence of [load] calls on an empty registry, the
    registry read at any email is the field-wise last-write-wins merge of all
    the submitted records for that email: a non-empty value overwrites, an
    empty or missing one keeps what was there, [status] is [Sourced] when no
    record gave one; a record without an email changes nothing and the empty
    email is never a key; each call returns the whole registry, which holds
    exactly the merged candidates; and loading [{name:"A", status:"Sourced"}]
    then [{name:"", expertise:"ML"}] for one email leaves
    [{name:"A", expertise:"ML", status:"Sourced"}]. *)
Theorem C4_load_is_field_wise_merge :
  (forall (calls : list (list partial)) (e : string),
      store_get (load_calls [] calls) e = spec_merge (List.concat calls) e)
  /\ (forall (st : store) (n x t : option string),
        load_one st (mkPartial n None x t) = st
        /\ load_one st (mkPartial n (Some "") x t) = st)
  /\ (forall (calls : list (list partial)),
        store_get (load_calls [] calls) "" = None)
  /\ (forall (st : store) (cs : list partial),
        snd (load st cs) = all (fst (load st cs)))
  /\ (forall (calls : list (list partial)) (r : rec),
        In r (all (load_calls [] calls))
        <-> exists e, spec_merge (List.concat calls) e = Some r)
  /\ (let first := mkPartial (Some "A") (Some "a@x.com") None (Some "Sourced") in
      let second := mkPartial (Some "") (Some "a@x.com") (Some "ML") None in
      snd (load (fst (load [] [first])) [second])
      = [mkRec (Some "A") "a@x.com" "ML" (Some "Sourced") None]).
Proof.
  assert (Hmerge : forall calls e,
             store_get (load_calls [] calls) e = spec_merge (List.concat calls) e).
  { intros calls e. rewrite load_calls_concat. apply fold_load_one_merge. }
  split; [exact Hmerge|].
  split; [intros st n x t; split; reflexivity|].
  split.
  { intros calls. rewrite Hmerge. unfold spec_merge.
    assert (Hf : forall l, filter (has_email "") l = []).
    { induction l as [|c l IH]; simpl; [reflexivity|].
      unfold has_email at 1. destruct (p_email c) as [x|]; [|exact IH].
      destruct (x =? ""); exact IH. }
    rewrite Hf. reflexivity. }
  split; [reflexivity|].
  split; [|reflexivity].
  intros calls r.
  assert (Hnd : NoDup (store_keys (load_calls [] calls))).
  { rewrite load_calls_concat. apply fold_load_one_NoDup. constructor. }
  unfold all. rewrite (in_values_iff_get _ r Hnd).
  split; intros (e & He); exists e.
  - rewrite <- Hmerge. exact He.
  - rewrite Hmerge. exact He.
Qed.

(** C10.  The count that [POST /candidates/load] returns is the size of the
    registry after the merge: what was there before plus the distinct new
    non-empty emails of the request, whatever the number of submitted
    records. *)
Theorem C10_load_count_is_registry_size :
  (forall (candidates : list partial) (s : state),
      let st' := fst (load (candidate_store s) candidates) in
      load_candidates candidates s
      = Returns
          (JObj [("ok", JBool true); ("count", JNum (Z.of_nat (List.length st')))])
          {| queue := queue s ++ [("candidates", JArr (map json_of_rec (all st')))];
             active_run := active_run s; candidate_store := st'; ticks := ticks s |}
      /\ List.length st'
         = (List.length (candidate_store s)
            + List.length (fresh_emails (store_keys (candidate_store s)) candidates))%nat)
  /\ (let earlier :=
        fst (load [] [mkPartial (Some "A") (Some "a@x.com") None None;
                      mkPartial (Some "B") (Some "b@x.com") None None]) in
      List.length (fst (load earlier [mkPartial (Some "C") None None None])) = 2%nat
      /\ List.length
           (fst (load [] [mkPartial (Some "A") (Some "a@x.com") None None;
                          mkPartial (Some "A2") (Some "a@x.com") None None]))
         = 1%nat).
Proof.
  split; [|split; reflexivity].
  intros candidates s st'. split.
  - unfold load_candidates, bind, with_store, emit, ret, load. simpl.
    unfold store_values. rewrite length_map. reflexivity.
  - subst st'. unfold load. simpl.
    rewrite <- (length_map fst (fold_left load_one candidates (candidate_store s))).
    change (map fst (fold_left load_one candidates (candidate_store s)))
      with (store_keys (fold_left load_one candidates (candidate_store s))).
    rewrite fold_load_one_keys, length_app.
    unfold store_keys. rewrite length_map. reflexivity.
Qed.

(** C6.  For an email that is not in the registry, [update_status] returns
    [None] and the endpoint answers 404, leaving the whole state as it was
    (no record is created); for a known email the record comes back with its
    status replaced, every other record and the set of keys are unchanged,
    and the endpoint publishes one [candidate_status] event. *)
Theorem C6_update_status_not_found_or_in_place :
  forall (s : state) (e : string) (new_status : option string),
    match store_get (candidate_store s) e with
    | None =>
        update_status (candidate_store s) e new_status = (candidate_store s, None)
        /\ update_candidate_status e new_status s
           = Raises (HTTPException 404 "candidate not found") s
    | Some r =>
        let r' := mkRec (name r) (email r) (expertise r) new_status (refToken r) in
        let st' := fst (update_status (candidate_store s) e new_status) in
        snd (update_status (candidate_store s) e new_status) = Some r'
        /\ store_get st' e = Some r'
        /\ (forall e', e' <> e -> store_get st' e' = store_get (candidate_store s) e')
        /\ store_keys st' = store_keys (candidate_store s)
        /\ update_candidate_status e new_status s
           = Returns (JObj [("ok", JBool true); ("candidate", json_of_stored r')])
               {| queue := queue s ++ [("candidate_status", status_event e new_status)];
                  active_run := active_run s; candidate_store := st'; ticks := ticks s |}
    end.
Proof.
  intros s e new_status.
  destruct (store_get (candidate_store s) e) as [r|] eqn:Hg.
  - cbv zeta. unfold update_status. rewrite Hg. simpl. repeat split.
    + apply store_get_set_same.
    + intros e' Hne. apply store_get_set_other, Hne.
    + apply (store_keys_set_known _ _ _ r Hg).
    + unfold update_candidate_status, bind, with_store, update_status.
      rewrite Hg. reflexivity.
  - split.
    + unfold update_status. rewrite Hg. reflexivity.
    + unfold update_candidate_status, bind, with_store, update_status, raise.
      rewrite Hg. destruct s; reflexivity.
Qed.

(** ** Reasoning about handlers *)

Section Keeps.

Context (R : state -> state -> Prop) `{Progress R}.

Lemma keeps_ret {A} (a : A) : keeps R (ret a).
Proof. intros s. apply R_refl. Qed.

Lemma keeps_raise {A} (e : exn) : keeps R (@raise A e).
Proof. intros s. apply R_refl. Qed.

Lemma keeps_lift {A} (r : option (outcome A)) : keeps R (lift r).
Proof. intros s. unfold lift. destruct r as [[a|e]|]; simpl; try apply R_refl; exact I. Qed.

Lemma keeps_bind {A B} (m : M A) (k : A -> M B) :
  keeps R m -> (forall a, keeps R (k a)) -> keeps R (bind m k).
Proof.
  intros Hm Hk s. unfold bind. specialize (Hm s).
  destruct (m s) as [a s1|e s1| |]; auto.
  specialize (Hk a s1).
  destruct (k a s1); auto; apply (R_trans _ s1); assumption.
Qed.

Lemma keeps_try_except {A} (m h : M A) :
  keeps R m -> keeps R h -> keeps R (try_except m h).
Proof.
  intros Hm Hh s. unfold try_except. specialize (Hm s).
  destruct (m s) as [a s1|e s1| |]; auto.
  specialize (Hh s1).
  destruct (h s1); auto; apply (R_trans _ s1); assumption.
Qed.

Lemma keeps_callback {X} (cb : option (X -> M unit)) (x : X) :
  (forall f, cb = Some f -> keeps R (f x)) -> keeps R (callback cb x).
Proof.
  intros Hcb. unfold callback. destruct cb as [f|].
  - apply keeps_try_except; [apply Hcb; reflexivity | apply keeps_ret].
  - apply keeps_ret.
Qed.

Lemma keeps_when (b : bool) (m : M unit) : keeps R m -> keeps R (when b m).
Proof. intros Hm. destruct b; [exact Hm | apply keeps_ret]. Qed.

End Keeps.

Lemma settles_ret {A} (a : A) : settles (ret a).
Proof. intros s. split; discriminate. Qed.

Lemma settles_raise {A} (e : exn) : settles (@raise A e).
Proof. intros s. split; discriminate. Qed.

Lemma settles_emit (kind : string) (data : json) : settles (emit kind data).
Proof. intros s. split; discriminate. Qed.

Lemma settles_with_store {A} (f : store -> store * A) : settles (with_store f).
Proof. intros s. unfold with_store. destruct (f (candidate_store s)). split; discriminate. Qed.

Lemma settles_call {A} (f : nat -> outcome A) : settles (call f).
Proof. intros s. unfold call. destruct (f (ticks s)); split; discriminate. Qed.

Lemma settles_bind {A B} (m : M A) (k : A -> M B) :
  settles m -> (forall a, settles (k a)) -> settles (bind m k).
Proof.
  intros Hm Hk s. unfold bind. destruct (Hm s) as [H1 H2].
  destruct (m s) as [a s1|e s1| |]; try congruence.
  - apply Hk.
  - split; discriminate.
Qed.

Lemma settles_try_except {A} (m h : M A) :
  settles m -> settles h -> settles (try_except m h).
Proof.
  intros Hm Hh s. unfold try_except. destruct (Hm s) as [H1 H2].
  destruct (m s) as [a s1|e s1| |]; try congruence.
  - split; discriminate.
  - apply Hh.
Qed.

Lemma settles_try_finally {A} (m : M A) (fin : M unit) :
  settles m -> settles fin -> settles (try_finally m fin).
Proof.
  intros Hm Hf s. unfold try_finally. destruct (Hm s) as [H1 H2].
  destruct (m s) as [a s1|e s1| |]; try congruence;
    destruct (Hf s1) as [H3 H4]; destruct (fin s1); try congruence;
    split; discriminate.
Qed.

Lemma settles_callback {X} (cb : option (X -> M unit)) (x : X) :
  (forall f, cb = Some f -> settles (f x)) -> settles (callback cb x).
Proof.
  intros H. unfold callback. destruct cb as [f|].
  - apply settles_try_except; [apply H; reflexivity | apply settles_ret].
  - apply settles_ret.
Qed.

Lemma settles_when (b : bool) (m : M unit) : settles m -> settles (when b m).
Proof. intros H. destruct b; [exact H | apply settles_ret]. Qed.

(** *** The number of [done] events and the clock *)

#[local] Instance same_done_progress : Progress same_done.
Proof. split; unfold same_done; congruence. Qed.

#[local] Instance later_progress : Progress later.
Proof. split; unfold later; lia. Qed.

Lemma count_kind_snoc (kind k : string) (d : json) (q : list (string * json)) :
  count_kind kind (q ++ [(k, d)])
  = (count_kind kind q + if (k =? kind)%string then 1 else 0)%nat.
Proof.
  unfold count_kind. rewrite filter_app, length_app. simpl.
  destruct (k =? kind); reflexivity.
Qed.

Lemma same_done_emit (kind : string) (data : json) :
  kind <> "done" -> keeps same_done (emit kind data).
Proof.
  intros Hk s. unfold same_done. simpl. rewrite count_kind_snoc.
  apply String.eqb_neq in Hk. rewrite Hk. lia.
Qed.

Lemma same_done_with_store {A} (f : store -> store * A) :
  keeps same_done (with_store f).
Proof. intros s. unfold with_store. destruct (f (candidate_store s)). reflexivity. Qed.

Lemma same_done_call {A} (f : nat -> outcome A) : keeps same_done (call f).
Proof. intros s. unfold call. destruct (f (ticks s)); reflexivity. Qed.

Lemma later_emit (kind : string) (data : json) : keeps later (emit kind data).
Proof. intros s. unfold later. simpl. lia. Qed.

Lemma later_with_store {A} (f : store -> store * A) : keeps later (with_store f).
Proof. intros s. unfold with_store, later. destruct (f (candidate_store s)). simpl. lia. Qed.

Lemma later_call {A} (f : nat -> outcome A) : keeps later (call f).
Proof. intros s. unfold call, later. destruct (f (ticks s)); simpl; lia. Qed.

Create HintDb flow discriminated.

#[local] Hint Resolve keeps_ret keeps_raise keeps_lift keeps_when : flow.
#[local] Hint Resolve same_done_with_store same_done_call
  later_emit later_with_store later_call : flow.
#[local] Hint Resolve settles_ret settles_raise settles_emit settles_with_store
  settles_call settles_when : flow.

Lemma same_done_sleep : keeps same_done sleep.
Proof. apply same_done_call. Qed.

Lemma later_sleep : keeps later sleep.
Proof. apply later_call. Qed.

Lemma settles_sleep : settles sleep.
Proof. apply settles_call. Qed.

#[local] Hint Resolve same_done_sleep later_sleep settles_sleep : flow.

(** ** [POST /run] *)

Lemma on_log_same_done (message : string) : keeps same_done (on_log message).
Proof. apply same_done_emit. discriminate. Qed.

Lemma on_candidates_found_same_done (cands : list rec) :
  keeps same_done (on_candidates_found cands).
Proof. apply same_done_emit. discriminate. Qed.

Lemma on_candidate_status_same_done (a : nat * string) :
  keeps same_done (on_candidate_status a).
Proof. apply same_done_emit. discriminate. Qed.

Lemma on_log_settles (message : string) : settles (on_log message).
Proof. apply settles_emit. Qed.

Lemma on_candidates_found_settles (cands : list rec) :
  settles (on_candidates_found cands).
Proof. apply settles_emit. Qed.

Lemma on_candidate_status_settles (a : nat * string) :
  settles (on_candidate_status a).
Proof. apply settles_emit. Qed.

#[local] Hint Resolve on_log_same_done on_candidates_found_same_done
  on_candidate_status_same_done on_log_settles on_candidates_found_settles
  on_candidate_status_settles : flow.

(** Splits a sequence of steps into its steps. *)
Ltac steps :=
  repeat first
    [ apply keeps_bind; [typeclasses eauto | | intros ?]
    | apply keeps_try_except; [typeclasses eauto | | ]
    | apply same_done_emit; discriminate
    | solve [auto with flow typeclass_instances] ].

(** Splits a sequence of steps that must settle. *)
Ltac settle :=
  repeat first
    [ apply settles_bind; [| intros ?]
    | apply settles_try_except
    | solve [auto with flow] ].

Lemma outreach_updates_same_done (b : bool) (cs : list rec) (idx : nat) :
  keeps same_done
    (outreach_updates (callback (Some on_log)) (Some on_candidate_status) b idx cs).
Proof.
  revert idx. induction cs as [|c cs IH]; intros idx; cbn [outreach_updates].
  - auto with flow typeclass_instances.
  - unfold callback. steps; apply IH.
Qed.

Lemma outreach_updates_settles (b : bool) (cs : list rec) (idx : nat) :
  settles
    (outreach_updates (callback (Some on_log)) (Some on_candidate_status) b idx cs).
Proof.
  revert idx. induction cs as [|c cs IH]; intros idx; cbn [outreach_updates].
  - auto with flow.
  - unfold callback. settle; apply IH.
Qed.

(** [run_orchestrator], as [start_run] calls it, publishes no [done] event
    and always comes back. *)
Lemma run_orchestrator_same_done (w : world) (topic : string) :
  keeps same_done
    (run_orchestrator w topic (Some on_log) (Some on_candidates_found)
       (Some on_candidate_status) true).
Proof.
  unfold run_orchestrator. destruct (dummy_run w).
  - pose proof (outreach_updates_same_done true mock_results 0) as Hu.
    unfold callback in *. steps.
  - unfold callback. steps.
Qed.

Lemma run_orchestrator_settles (w : world) (topic : string) :
  settles
    (run_orchestrator w topic (Some on_log) (Some on_candidates_found)
       (Some on_candidate_status) true).
Proof.
  unfold run_orchestrator. destruct (dummy_run w).
  - pose proof (outreach_updates_settles true mock_results 0) as Hu.
    unfold callback in *. settle.
  - unfold callback. settle.
Qed.

(** Whatever [run_orchestrator] does, the task of [POST /run] ends with one
    more [done] event, published last, and with the flag cleared. *)
Lemma run_in_thread_done (w : world) (topic : string) (s : state) :
  exists s',
    (run_in_thread w topic s = Returns tt s'
     \/ exists e, run_in_thread w topic s = Raises e s')
    /\ active_run s' = false
    /\ count_kind "done" (queue s') = S (count_kind "done" (queue s))
    /\ exists q, queue s' = (q ++ [("done", JObj [("ok", JBool true)])])%list.
Proof.
  unfold run_in_thread, try_finally.
  pose proof (run_orchestrator_same_done w topic s) as Hd.
  destruct (run_orchestrator_settles w topic s) as [H1 H2].
  destruct (run_orchestrator w topic (Some on_log) (Some on_candidates_found)
              (Some on_candidate_status) true s) as [[] s1|e s1| |];
    try congruence; simpl.
  - eexists. split; [left; reflexivity|]. simpl. split; [reflexivity|].
    split; [|eexists; reflexivity].
    rewrite count_kind_snoc. simpl. unfold same_done in Hd. lia.
  - eexists. split; [right; eexists; reflexivity|]. simpl. split; [reflexivity|].
    split; [|eexists; reflexivity].
    rewrite count_kind_snoc. simpl. unfold same_done in Hd. lia.
Qed.

(** ** [POST /outreach/run-flow] *)

Section Flow.

Variable w : world.

Lemma flow_send_one_same_done subject template enriched c :
  keeps same_done (flow_send_one w subject template enriched c).
Proof. unfold flow_send_one. destruct (truthy (p_email c)); steps. Qed.

Lemma flow_send_loop_same_done subject template cs enriched :
  keeps same_done (flow_send_loop w subject template enriched cs).
Proof.
  revert enriched. induction cs as [|c cs IH]; intros enriched; simpl.
  - steps.
  - apply keeps_bind; [typeclasses eauto | apply flow_send_one_same_done | ].
    intros a. apply IH.
Qed.

Lemma poll_one_same_done summary description duration tz e scheduled :
  keeps same_done (poll_one w summary description duration tz e scheduled).
Proof.
  unfold poll_one. destruct (e_done e); steps.
  destruct a as [|m ms]; steps.
  destruct (match json_loads w a0 with
            | Some j => j
            | None => JObj [("eventId", JNull)]
            end); steps.
Qed.

Lemma poll_one_later summary description duration tz e scheduled :
  keeps later (poll_one w summary description duration tz e scheduled).
Proof.
  unfold poll_one. destruct (e_done e); steps.
  destruct a as [|m ms]; steps.
  destruct (match json_loads w a0 with
            | Some j => j
            | None => JObj [("eventId", JNull)]
            end); steps.
Qed.

Lemma poll_one_settles summary description duration tz e scheduled :
  settles (poll_one w summary description duration tz e scheduled).
Proof.
  unfold poll_one. destruct (e_done e); settle.
  destruct a as [|m ms]; settle.
  destruct (match json_loads w a0 with
            | Some j => j
            | None => JObj [("eventId", JNull)]
            end); settle.
Qed.

Lemma poll_pass_same_done summary description duration tz es scheduled :
  keeps same_done (poll_pass w summary description duration tz es scheduled).
Proof.
  revert scheduled. induction es as [|e es IH]; intros scheduled; simpl.
  - steps.
  - apply keeps_bind; [typeclasses eauto | apply poll_one_same_done | ].
    intros r. apply keeps_bind; [typeclasses eauto | apply IH | ].
    intros r'. steps.
Qed.

Lemma poll_pass_later summary description duration tz es scheduled :
  keeps later (poll_pass w summary description duration tz es scheduled).
Proof.
  revert scheduled. induction es as [|e es IH]; intros scheduled; simpl.
  - steps.
  - apply keeps_bind; [typeclasses eauto | apply poll_one_later | ].
    intros r. apply keeps_bind; [typeclasses eauto | apply IH | ].
    intros r'. steps.
Qed.

Lemma poll_pass_settles summary description duration tz es scheduled :
  settles (poll_pass w summary description duration tz es scheduled).
Proof.
  revert scheduled. induction es as [|e es IH]; intros scheduled; simpl.
  - settle.
  - apply settles_bind; [apply poll_one_settles|].
    intros r. apply settles_bind; [apply IH|]. intros r'. settle.
Qed.

Lemma asyncio_sleep_same_done (delay : Z) : keeps same_done (asyncio_sleep delay).
Proof.
  unfold asyncio_sleep. destruct ((0 <? delay)%Z && float_overflows delay); steps.
Qed.

Lemma asyncio_sleep_eq (delay : Z) (s : state) :
  asyncio_sleep delay s
  = if (0 <? delay)%Z && float_overflows delay then Raises OverflowError s
    else Returns tt (tick s).
Proof.
  unfold asyncio_sleep. destruct ((0 <? delay)%Z && float_overflows delay); reflexivity.
Qed.

Lemma poll_loop_same_done fuel deadline poll_interval summary description duration tz
    es scheduled :
  keeps same_done
    (poll_loop w fuel deadline poll_interval summary description duration tz es
       scheduled).
Proof.
  revert es scheduled. induction fuel as [|fuel IH]; intros es scheduled; simpl.
  - intros s. exact I.
  - apply keeps_bind; [typeclasses eauto | steps | ].
    intros now. destruct (now <? deadline)%Z; [|steps].
    apply keeps_bind; [typeclasses eauto | apply poll_pass_same_done | ].
    intros r. apply keeps_bind; [typeclasses eauto | apply asyncio_sleep_same_done | ].
    intros _. apply IH.
Qed.

(** One round of the polling loop. *)
Lemma poll_loop_round fuel deadline poll_interval summary description duration tz
    es scheduled s :
  poll_loop w (S fuel) deadline poll_interval summary description duration tz es
    scheduled s
  = if (loop_time w (ticks s) <? deadline)%Z then
      match poll_pass w summary description duration tz es scheduled (tick s) with
      | Returns r s' =>
          if (0 <? poll_interval)%Z && float_overflows poll_interval
          then Raises OverflowError s'
          else poll_loop w fuel deadline poll_interval summary description duration
                 tz (fst r) (snd r) (tick s')
      | Raises e s' => Raises e s'
      | OutOfFuel => OutOfFuel
      | Unmodelled => Unmodelled
      end
    else Returns scheduled (tick s).
Proof.
  cbn [poll_loop]. unfold bind at 1. unfold call at 1.
  destruct (loop_time w (ticks s) <? deadline)%Z; [|reflexivity].
  unfold bind at 1.
  destruct (poll_pass w summary description duration tz es scheduled (tick s))
    as [r s'|e s'| |]; try reflexivity.
  unfold bind at 1. rewrite asyncio_sleep_eq.
  destruct ((0 <? poll_interval)%Z && float_overflows poll_interval); reflexivity.
Qed.

(** When the clock is at or past the deadline from the moment [horizon] on,
    a loop that is given [horizon] rounds of fuel beyond the current moment
    does not run out of it. *)
Lemma poll_loop_settles horizon deadline poll_interval summary description duration
    tz :
  (forall t, (horizon <= t)%nat -> (deadline <= loop_time w t)%Z) ->
  forall fuel es scheduled s,
    (horizon <= ticks s + fuel)%nat ->
    poll_loop w (S fuel) deadline poll_interval summary description duration tz es
      scheduled s <> OutOfFuel
    /\ poll_loop w (S fuel) deadline poll_interval summary description duration tz
         es scheduled s <> Unmodelled.
Proof.
  intros Hclock. induction fuel as [|fuel IH]; intros es scheduled s Hh;
    rewrite poll_loop_round.
  - assert (Hd : (loop_time w (ticks s) <? deadline)%Z = false).
    { apply Z.ltb_ge, Hclock. lia. }
    rewrite Hd. split; discriminate.
  - destruct (loop_time w (ticks s) <? deadline)%Z; [|split; discriminate].
    pose proof (poll_pass_settles summary description duration tz es scheduled
                  (tick s)) as [Hp1 Hp2].
    pose proof (poll_pass_later summary description duration tz es scheduled
                  (tick s)) as Hl.
    destruct (poll_pass w summary description duration tz es scheduled (tick s))
      as [r s2|e s2| |]; try congruence; [|split; discriminate].
    destruct ((0 <? poll_interval)%Z && float_overflows poll_interval);
      [split; discriminate|].
    apply IH. unfold later in Hl. simpl in *. lia.
Qed.

Lemma ends_with_done_emit (d : json) : ends_with_done (emit "done" d).
Proof.
  intros s. simpl. rewrite count_kind_snoc. simpl. split; [lia|eauto].
Qed.

Lemma ends_with_done_bind {A B} (m : M A) (k : A -> M B) :
  keeps same_done m -> (forall a, ends_with_done (k a)) ->
  ends_with_done (bind m k).
Proof.
  intros Hm Hk s. unfold bind. specialize (Hm s).
  destruct (m s) as [a s1|e s1| |]; auto.
  specialize (Hk a s1). unfold same_done in *.
  destruct (k a s1) as [b s2|e s2| |]; auto.
  - destruct Hk as [Hc Hq]. split; [congruence|exact Hq].
  - congruence.
Qed.

(** The body of [flow_task] without its finaliser. *)
Lemma flow_body_ends_with_done fuel payload :
  ends_with_done
    (emit "log" (log_event "[Outreach] Starting outreach flow") ;;;
     enriched <- flow_send_loop w
                   (py_or_str (fp_subject payload) "Hackathon Invitation")
                   (py_or_str (fp_bodyTemplate payload)
                      "Hi {name}, we'd love to invite you.")
                   [] (fp_candidates payload) ;;
     emit "candidates" (JArr (map contacted_view enriched)) ;;;
     now <- call (fun t => Ret (loop_time w t)) ;;
     if float_overflows (fp_windowMinutes payload * 60) then raise OverflowError
     else
       scheduled <- poll_loop w fuel (now + fp_windowMinutes payload * 60)%Z
                      (fp_pollEverySeconds payload)
                      (py_or_str (fp_summary payload) "Introductory Meeting")
                      (py_or_str (fp_description payload) "Intro call")
                      (fp_duration payload) (fp_timezone payload) enriched [] ;;
       emit "done" (JObj [("ok", JBool true); ("scheduled", JArr scheduled)])).
Proof.
  apply ends_with_done_bind; [steps|]. intros _.
  apply ends_with_done_bind; [apply flow_send_loop_same_done|]. intros enriched.
  apply ends_with_done_bind; [steps|]. intros _.
  apply ends_with_done_bind; [steps|]. intros now.
  destruct (float_overflows (fp_windowMinutes payload * 60)).
  - intros s. reflexivity.
  - apply ends_with_done_bind; [apply poll_loop_same_done|]. intros scheduled.
    apply ends_with_done_emit.
Qed.

(** How the task of [POST /outreach/run-flow] ends: the flag is cleared in
    every case, and [done] is published, last, exactly when no step has
    raised. *)
Lemma flow_task_outcome fuel payload s :
  match flow_task w fuel payload s with
  | Returns _ s' =>
      active_run s' = false
      /\ count_kind "done" (queue s') = S (count_kind "done" (queue s))
      /\ exists q d, queue s' = (q ++ [("done", d)])%list
  | Raises _ s' =>
      active_run s' = false
      /\ count_kind "done" (queue s') = count_kind "done" (queue s)
  | OutOfFuel => True
  | Unmodelled => True
  end.
Proof.
  unfold flow_task, try_finally.
  pose proof (flow_body_ends_with_done fuel payload s) as Hb. cbv zeta.
  match goal with
  | |- match (match ?body s with _ => _ end) with _ => _ end =>
      destruct (body s) as [a s1|e s1| |]
  end; simpl; auto.
Qed.

(** *** The task does not run out of fuel *)

Lemma fueled_bind {A B} (m : M A) (k : A -> M B) :
  fueled m -> (forall a, fueled (k a)) -> fueled (bind m k).
Proof.
  intros Hm Hk s. unfold bind. specialize (Hm s).
  destruct (m s) as [a s1|e s1| |]; [apply Hk | discriminate | congruence | discriminate].
Qed.

Lemma fueled_settles {A} (m : M A) : settles m -> fueled m.
Proof. intros Hm s. apply Hm. Qed.

Lemma fueled_lift {A} (r : option (outcome A)) : fueled (lift r).
Proof. intros s. unfold lift. destruct r as [[a|e]|]; discriminate. Qed.

Lemma flow_send_one_fueled subject template enriched c :
  fueled (flow_send_one w subject template enriched c).
Proof.
  unfold flow_send_one. destruct (truthy (p_email c)).
  - apply fueled_bind; [apply fueled_lift|]. intros body.
    apply fueled_settles. settle.
  - apply fueled_settles. settle.
Qed.

Lemma flow_send_loop_fueled subject template cs enriched :
  fueled (flow_send_loop w subject template enriched cs).
Proof.
  revert enriched. induction cs as [|c cs IH]; intros enriched; simpl.
  - apply fueled_settles. settle.
  - apply fueled_bind; [apply flow_send_one_fueled|]. intros a. apply IH.
Qed.

(** If the clock eventually passes every deadline, the task ends, given
    enough fuel. *)
Lemma flow_task_terminates :
  (forall d, exists h, forall t, (h <= t)%nat -> (d <= loop_time w t)%Z) ->
  forall payload s,
  exists fuel0, forall fuel, (fuel0 <= fuel)%nat ->
    flow_task w fuel payload s <> OutOfFuel.
Proof.
  intros Hclock payload s. unfold flow_task, try_finally. cbv zeta.
  unfold bind at 1. unfold emit at 1.
  set (s0 := {| queue := (queue s ++ [("log", log_event "[Outreach] Starting outreach flow")])%list;
                active_run := active_run s; candidate_store := candidate_store s; ticks := ticks s |}).
  unfold bind at 1.
  pose proof (flow_send_loop_fueled
                (py_or_str (fp_subject payload) "Hackathon Invitation")
                (py_or_str (fp_bodyTemplate payload)
                   "Hi {name}, we'd love to invite you.")
                (fp_candidates payload) [] s0) as Hsend.
  destruct (flow_send_loop w _ _ [] (fp_candidates payload) s0)
    as [enriched s1|e s1| |]; try congruence;
    try (exists 0%nat; intros fuel _; simpl; discriminate).
  set (s2 := {| queue := (queue s1 ++ [("candidates", JArr (map contacted_view enriched))])%list;
                active_run := active_run s1; candidate_store := candidate_store s1; ticks := ticks s1 |}).
  set (d := (loop_time w (ticks s2) + fp_windowMinutes payload * 60)%Z).
  destruct (Hclock d) as [h Hh]. exists (S h). intros fuel Hfuel.
  destruct fuel as [|fuel]; [lia|].
  destruct (poll_loop_settles h d (fp_pollEverySeconds payload)
              (py_or_str (fp_summary payload) "Introductory Meeting")
              (py_or_str (fp_description payload) "Intro call")
              (fp_duration payload) (fp_timezone payload) Hh
              fuel enriched [] (tick s2)) as [Hp1 Hp2]; [simpl; lia|].
  unfold bind at 1. unfold emit at 1. fold s2.
  unfold bind at 1. unfold call at 1. fold d.
  destruct (float_overflows (fp_windowMinutes payload * 60));
    [simpl; discriminate|].
  unfold bind at 1.
  destruct (poll_loop w (S fuel) d _ _ _ _ _ enriched [] (tick s2))
    as [x s3|e s3| |]; try congruence; simpl; discriminate.
Qed.

End Flow.

(** C1.  The task of [POST /run] publishes [done] in its finaliser: whatever
    [run_orchestrator] does, it ends with exactly one more [done] event,
    published last, and with the run-active flag cleared.  The task of
    [POST /outreach/run-flow] clears the flag in its finaliser but publishes
    [done] as the last step of the guarded block: when it returns (normal
    completion or deadline expiry, which the clock guarantees) there is
    exactly one more [done] event, and when a send, reply-lookup or schedule
    step raises there is none.  With the communication tools of the
    repository the send for the first candidate raises, and the run for
    [Ada] ends with the flag cleared and no [done] event. *)
Theorem C1_run_flow_publishes_no_done_when_a_step_raises :
  (forall (w : world) (topic : string) (s : state),
      exists s',
        (run_in_thread w topic s = Returns tt s'
         \/ exists e, run_in_thread w topic s = Raises e s')
        /\ active_run s' = false
        /\ count_kind "done" (queue s') = S (count_kind "done" (queue s))
        /\ exists q, queue s' = (q ++ [("done", JObj [("ok", JBool true)])])%list)
  /\ (forall (w : world) (fuel : nat) (payload : flow_payload) (s : state),
        match flow_task w fuel payload s with
        | Returns _ s' =>
            active_run s' = false
            /\ count_kind "done" (queue s') = S (count_kind "done" (queue s))
            /\ exists q d, queue s' = (q ++ [("done", d)])%list
        | Raises _ s' =>
            active_run s' = false
            /\ count_kind "done" (queue s') = count_kind "done" (queue s)
        | OutOfFuel => True
        | Unmodelled => True
        end)
  /\ (forall (w : world),
        (forall d, exists h, forall t, (h <= t)%nat -> (d <= loop_time w t)%Z) ->
        forall (payload : flow_payload) (s : state),
        exists fuel0, forall fuel, (fuel0 <= fuel)%nat ->
          flow_task w fuel payload s <> OutOfFuel)
  /\ to_completion
       (run_full_outreach_flow example_world 1 (example_flow None [ada]))
       initial_state
     = Raises TypeError
         {| queue := [("log", log_event "[Outreach] Starting outreach flow")];
            active_run := false; candidate_store := []; ticks := 1 |}.
Proof.
  split; [exact run_in_thread_done|].
  split; [exact flow_task_outcome|].
  split; [exact flow_task_terminates|].
  reflexivity.
Qed.

(** C1 at the example process, whose clock passes every deadline. *)
Lemma C1_run_flow_terminates_example :
  exists fuel0, forall fuel, (fuel0 <= fuel)%nat ->
    flow_task example_world fuel (example_flow None [ada]) initial_state <> OutOfFuel.
Proof.
  apply (proj1 (proj2 (proj2 C1_run_flow_publishes_no_done_when_a_step_raises))).
  intros d. exists (Z.to_nat d). intros t Ht. simpl. lia.
Defined.

(** ** The sending step *)

Lemma str_format_no_braces (t nm : string) :
  no_braces t = true -> str_format t nm = Some (Ret t).
Proof.
  unfold str_format. induction t as [|c t IH]; simpl; intros Hn.
  - reflexivity.
  - apply andb_true_iff in Hn. destruct Hn as [Hn Ht].
    apply andb_true_iff in Hn. destruct Hn as [Ho Hc].
    apply negb_true_iff in Ho. apply negb_true_iff in Hc.
    rewrite Ho, Hc, (IH Ht). reflexivity.
Qed.

Section Sending.

Variable w : world.

(** What one round of the loop of [send_outreach] does. *)
Lemma send_outreach_one_eq subject template results c s :
  send_outreach_one w subject template results c s =
  if truthy (p_email c) then
    let nm := py_or_str (p_name c) "there" in
    let email := str_of_opt (p_email c) in
    let ref := ref_token w email subject in
    match str_format template nm with
    | None => Unmodelled
    | Some (Raise e) => Raises e s
    | Some (Ret body) =>
        match send_email (tools w) (ticks s) email subject body (Some ref) with
        | Raise e => Raises e (tick s)
        | Ret res =>
            Returns
              (results ++ [match json_loads w res with
                           | Some j => j
                           | None => JObj [("ok", JBool false); ("to", JStr email)]
                           end])%list
              {| queue := (queue s
                           ++ [("candidate_status",
                                status_event email (Some "Contacted"))])%list;
                 active_run := active_run s;
                 candidate_store := mark_contacted (candidate_store s) nm email ref;
                 ticks := S (ticks s) |}
        end
    end
  else Returns results s.
Proof.
  unfold send_outreach_one. destruct (truthy (p_email c)); [|reflexivity].
  cbv zeta. unfold bind at 1. unfold lift.
  destruct (str_format template (py_or_str (p_name c) "there")) as [[body|e]|];
    try reflexivity.
  unfold bind at 1. unfold call.
  destruct (send_email (tools w) (ticks s) (str_of_opt (p_email c)) subject body
              (Some (ref_token w (str_of_opt (p_email c)) subject)));
    reflexivity.
Qed.

(** What step 1 of [flow_task] does for one candidate. *)
Lemma flow_send_one_eq subject template enriched c s :
  flow_send_one w subject template enriched c s =
  if truthy (p_email c) then
    let nm := py_or_str (p_name c) "there" in
    let email := str_of_opt (p_email c) in
    let ref := ref_token w email subject in
    match str_format template nm with
    | None => Unmodelled
    | Some (Raise e) => Raises e s
    | Some (Ret body) =>
        match send_email (tools w) (ticks s) email subject body (Some ref) with
        | Raise e => Raises e (tick s)
        | Ret res =>
            Returns
              (enriched
               ++ [mkEntry nm email ref
                     (match json_loads w res with
                      | Some j => j
                      | None => JObj [("ok", JBool false); ("to", JStr email);
                                      ("refToken", JStr ref)]
                      end) false])%list
              {| queue := (queue s
                           ++ [("candidate_status",
                                status_event email (Some "Contacted"))]
                           ++ [("log", log_event ("[Outreach] Sent to " ++ nm
                                                  ++ " <" ++ email ++ ">"))])%list;
                 active_run := active_run s;
                 candidate_store := mark_contacted (candidate_store s) nm email ref;
                 ticks := S (ticks s) |}
        end
    end
  else Returns enriched s.
Proof.
  unfold flow_send_one. destruct (truthy (p_email c)); [|reflexivity].
  cbv zeta. unfold bind at 1. unfold lift.
  destruct (str_format template (py_or_str (p_name c) "there")) as [[body|e]|];
    try reflexivity.
  unfold bind at 1. unfold call.
  destruct (send_email (tools w) (ticks s) (str_of_opt (p_email c)) subject body
              (Some (ref_token w (str_of_opt (p_email c)) subject)));
    [|reflexivity].
  unfold bind, with_store, emit, ret, mark_contacted, tick.
  cbn [load fst snd queue active_run candidate_store ticks].
  rewrite <- app_assoc. reflexivity.
Qed.

End Sending.

(** C5 (as the code has it).  The template is rendered with [str.format]
    outside any [try]: when the substitution raises, the exception
    propagates, [POST /outreach/send] fails at that candidate before any
    send, and the task of [POST /outreach/run-flow] stops at that candidate
    and clears the flag.  When the substitution succeeds the send is made
    with the rendered text, and a template without braces is rendered as
    itself. *)
Theorem C5_render_failure_propagates :
  (forall (w : world) (sub tmpl : option string) (c : partial)
          (rest : list partial) (e : exn),
      truthy (p_email c) = true ->
      str_format (py_or_str tmpl "Hi {name}, we'd love to invite you.")
                 (py_or_str (p_name c) "there") = Some (Raise e) ->
      (forall s, send_outreach w (mkSendPayload sub tmpl (c :: rest)) s = Raises e s)
      /\ (forall fuel wm pe su de du tz s,
            flow_task w fuel (mkFlowPayload sub tmpl (c :: rest) wm pe su de du tz) s
            = Raises e
                {| queue := (queue s
                             ++ [("log", log_event "[Outreach] Starting outreach flow")])%list;
                   active_run := false; candidate_store := candidate_store s; ticks := ticks s |}))
  /\ (forall (w : world) (subject template body : string) (c : partial)
             (results : list json) (s : state),
        truthy (p_email c) = true ->
        str_format template (py_or_str (p_name c) "there") = Some (Ret body) ->
        send_outreach_one w subject template results c s
        = match send_email (tools w) (ticks s) (str_of_opt (p_email c)) subject body
                  (Some (ref_token w (str_of_opt (p_email c)) subject)) with
          | Raise e => Raises e (tick s)
          | Ret res =>
              Returns
                (results
                 ++ [match json_loads w res with
                     | Some j => j
                     | None => JObj [("ok", JBool false);
                                     ("to", JStr (str_of_opt (p_email c)))]
                     end])%list
                {| queue := (queue s
                             ++ [("candidate_status",
                                  status_event (str_of_opt (p_email c))
                                    (Some "Contacted"))])%list;
                   active_run := active_run s;
                   candidate_store := mark_contacted (candidate_store s) (py_or_str (p_name c) "there")
                               (str_of_opt (p_email c))
                               (ref_token w (str_of_opt (p_email c)) subject);
                   ticks := S (ticks s) |}
          end)
  /\ (forall (template nm : string),
        no_braces template = true -> str_format template nm = Some (Ret template)).
Proof.
  split; [|split].
  - intros w sub tmpl c rest e Hc Hf. split.
    + intros s. unfold send_outreach. cbn [sp_candidates sp_subject sp_bodyTemplate].
      unfold bind at 1. cbn [send_outreach_loop]. unfold bind at 1.
      rewrite send_outreach_one_eq, Hc. cbv zeta. rewrite Hf. reflexivity.
    + intros fuel wm pe su de du tz s. unfold flow_task, try_finally.
      cbn [fp_candidates fp_subject fp_bodyTemplate fp_summary fp_description
           fp_duration fp_timezone fp_windowMinutes].
      cbv zeta. unfold bind at 1. unfold emit at 1. unfold bind at 1.
      cbn [flow_send_loop]. unfold bind at 1.
      rewrite flow_send_one_eq, Hc. cbv zeta. rewrite Hf. reflexivity.
  - intros w subject template body c results s Hc Hf.
    rewrite send_outreach_one_eq, Hc. cbv zeta. rewrite Hf. reflexivity.
  - exact str_format_no_braces.
Qed.

(** C5 at the templates [Hi {foo}], [Hi {name}] and [Hello]. *)
Lemma C5_render_failure_example :
  (send_outreach example_world (mkSendPayload (Some "Hi") (Some "Hi {foo}") [ada])
     initial_state
   = Raises (KeyError "foo") initial_state)
  /\ (send_outreach_one lenient_world "Hi" "Hi {name}" [] ada initial_state
      = Returns [JObj [("ok", JBool false); ("to", JStr "ada@x.com")]]
          {| queue := [("candidate_status",
                        status_event "ada@x.com" (Some "Contacted"))];
             active_run := false;
             candidate_store := mark_contacted [] "Ada" "ada@x.com"
                         (ref_token lenient_world "ada@x.com" "Hi");
             ticks := 1 |})
  /\ str_format "Hello" "Ada" = Some (Ret "Hello").
Proof.
  split; [|split].
  - apply (proj1 (proj1 C5_render_failure_propagates example_world
                    (Some "Hi") (Some "Hi {foo}") ada [] (KeyError "foo")
                    eq_refl eq_refl)).
  - apply (proj1 (proj2 C5_render_failure_propagates) lenient_world
             "Hi" "Hi {name}" "Hi Ada" ada [] initial_state eq_refl eq_refl).
  - apply (proj2 (proj2 C5_render_failure_propagates) "Hello" "Ada" eq_refl).
Defined.

(** Against C5 as the specification words it, at the template [Hi {foo}]:
    the substitution
    raises [KeyError], [POST /outreach/send] raises it without sending
    anything, and the run-flow task raises it too. *)
Lemma C5_unrendered_template_is_not_sent :
  str_format "Hi {foo}" "Ada" = Some (Raise (KeyError "foo"))
  /\ send_outreach example_world (mkSendPayload (Some "Hi") (Some "Hi {foo}") [ada])
       initial_state
     = Raises (KeyError "foo") initial_state
  /\ to_completion
       (run_full_outreach_flow example_world 1 (example_flow (Some "Hi {foo}") [ada]))
       initial_state
     = Raises (KeyError "foo")
         {| queue := [("log", log_event "[Outreach] Starting outreach flow")];
            active_run := false; candidate_store := []; ticks := 0 |}.
Proof. repeat split. Qed.

(** C7.  [POST /outreach/send] with no candidates answers 400 and leaves the
    state as it was.  With [Ada] in the list, the call of [send_email]
    passes the keyword [ref_token], which the method of the repository does
    not take: the request fails with [TypeError] and returns no
    per-recipient result.  With tools that take the keyword, the sentence
    that [send_email] returns is not JSON, and the per-recipient result is
    the fallback [{"ok": false, "to": email}], which has no token. *)
Theorem C7_send_outreach_returns_no_token :
  (forall (w : world) (sub tmpl : option string) (s : state),
      send_outreach w (mkSendPayload sub tmpl []) s
      = Raises (HTTPException 400 "candidates required") s)
  /\ send_outreach example_world (mkSendPayload (Some "Hi") None [ada]) initial_state
     = Raises TypeError (tick initial_state)
  /\ send_outreach lenient_world (mkSendPayload (Some "Hi") None [ada]) initial_state
     = Returns
         (JObj [("ok", JBool true);
                ("sent", JArr [JObj [("ok", JBool false); ("to", JStr "ada@x.com")]])])
         {| queue := [("candidate_status",
                       status_event "ada@x.com" (Some "Contacted"))];
            active_run := false;
            candidate_store := [("ada@x.com",
                        mkRec (Some "Ada") "ada@x.com" "" (Some "Contacted")
                          (Some (ref_token lenient_world "ada@x.com" "Hi")))];
            ticks := 1 |}.
Proof. repeat split. Qed.

(** ** Provider errors *)

Section Polling.

Variable w : world.

(** What the polling loop does for one element of [enriched] that is not
    done. *)
Lemma poll_one_eq summary description duration tz e scheduled s :
  e_done e = false ->
  poll_one w summary description duration tz e scheduled s =
  match search_replies_by_ref_token (tools w) (ticks s) (e_refToken e) with
  | Raise x => Raises x (tick s)
  | Ret [] => Returns (e, scheduled) (tick s)
  | Ret (_ :: _) =>
      let s1 :=
        {| queue := (queue s
                     ++ [("log", log_event ("[Outreach] Reply detected from "
                                            ++ e_email e))])%list;
           active_run := active_run s; candidate_store := candidate_store s;
           ticks := S (ticks s) |} in
      match schedule_meeting (tools w) (S (ticks s)) [e_email e] summary description
              duration tz with
      | Raise x => Raises x (tick s1)
      | Ret meet_json =>
          match (match json_loads w meet_json with
                 | Some j => j
                 | None => JObj [("eventId", JNull)]
                 end) with
          | JObj fields =>
              Returns
                (mkEntry (e_name e) (e_email e) (e_refToken e) (e_send e) true,
                 (scheduled
                  ++ [JObj (dict_unpack [("email", JStr (e_email e))] fields)])%list)
                {| queue := (queue s1
                             ++ [("candidate_status",
                                  status_event (e_email e) (Some "Accepted"))]
                             ++ [("log", log_event ("[Scheduling] Meeting created for "
                                                    ++ e_email e))])%list;
                   active_run := active_run s;
                   candidate_store := fst (update_status (candidate_store s) (e_email e)
                                    (Some "Accepted"));
                   ticks := S (S (ticks s)) |}
          | _ => Raises TypeError (tick s1)
          end
      end
  end.
Proof.
  intros Hd. unfold poll_one. rewrite Hd. unfold bind at 1. unfold call at 1.
  destruct (search_replies_by_ref_token (tools w) (ticks s) (e_refToken e))
    as [[|m ms]|x]; try reflexivity.
  cbv zeta. unfold bind at 1. unfold emit at 1. unfold bind at 1. unfold call at 1.
  cbn [ticks tick queue active_run candidate_store].
  destruct (schedule_meeting (tools w) (S (ticks s)) [e_email e] summary description
              duration tz) as [meet_json|x]; [|reflexivity].
  destruct (match json_loads w meet_json with
            | Some j => j
            | None => JObj [("eventId", JNull)]
            end); try reflexivity.
  unfold bind, with_store, emit, ret, tick.
  cbn [fst snd ticks queue active_run candidate_store].
  destruct (update_status (candidate_store s) (e_email e) (Some "Accepted")) as [st' r'].
  cbn [fst]. rewrite <- app_assoc. reflexivity.
Qed.

End Polling.




(** ** The run-active flag *)

(** C3 (as the code has it).  [POST /run] and [POST /outreach/run-flow]
    test the run-active flag first: when it is set they answer 409 and leave
    the whole state, registry included, as it was.  When it is clear,
    [POST /run] sets it and creates its task, and [POST /outreach/run-flow]
    sets it and creates its task for a request whose [windowMinutes],
    [pollEverySeconds] and [duration] are read as integers.
    [POST /demo/start-outreach] neither reads nor writes the flag: with a
    non-empty registry it creates its task whatever the flag is. *)
Theorem C3_guarded_endpoints_reject_when_active :
  (forall (w : world) (topic : string) (s : state),
      active_run s = true ->
      start_run w topic s
      = Raises (HTTPException 409 "A run is already in progress") s)
  /\ (forall (w : world) (fuel : nat) (request : flow_request) (s : state),
        active_run s = true ->
        run_full_outreach_flow w fuel request s
        = Raises (HTTPException 409 "A run is already in progress") s)
  /\ (forall (w : world) (topic : string) (s : state),
        active_run s = false ->
        start_run w topic s
        = Returns (JObj [("status", JStr "started")], Some (run_in_thread w topic))
            {| queue := queue s; active_run := true;
               candidate_store := candidate_store s; ticks := ticks s |})
  /\ (forall (w : world) (fuel : nat) (request : flow_request) (s : state)
             (window_minutes poll_interval duration : Z),
        active_run s = false ->
        py_int (fr_windowMinutes request) 30 = Some (Ret window_minutes) ->
        py_int (fr_pollEverySeconds request) 20 = Some (Ret poll_interval) ->
        py_int (fr_duration request) 30 = Some (Ret duration) ->
        run_full_outreach_flow w fuel request s
        = Returns (JObj [("ok", JBool true); ("status", JStr "started")],
                   Some (flow_task w fuel
                           {| fp_subject := fr_subject request;
                              fp_bodyTemplate := fr_bodyTemplate request;
                              fp_candidates := fr_candidates request;
                              fp_windowMinutes := window_minutes;
                              fp_pollEverySeconds := poll_interval;
                              fp_summary := fr_summary request;
                              fp_description := fr_description request;
                              fp_duration := duration;
                              fp_timezone := fr_timezone request |}))
            {| queue := queue s; active_run := true;
               candidate_store := candidate_store s; ticks := ticks s |})
  /\ (forall (s : state) (k : string) (r : rec) (st : store),
        candidate_store s = (k, r) :: st ->
        demo_start_outreach s
        = Returns (JObj [("ok", JBool true)],
                   Some (_simulate_outreach_sequence (all (candidate_store s))))
            s).
Proof.
  repeat apply conj.
  - intros w topic s Ha. unfold start_run, bind, get_active_run, raise.
    rewrite Ha. reflexivity.
  - intros w fuel request s Ha.
    unfold run_full_outreach_flow, bind, get_active_run, raise.
    rewrite Ha. reflexivity.
  - intros w topic s Ha. unfold start_run, bind, get_active_run.
    rewrite Ha. reflexivity.
  - intros w fuel request s window_minutes poll_interval duration Ha Hw Hp Hd.
    unfold run_full_outreach_flow, bind, get_active_run.
    rewrite Ha, Hw, Hp, Hd. reflexivity.
  - intros s k r st Hs. unfold demo_start_outreach, bind, with_store.
    rewrite Hs. destruct s; simpl in *. subst. reflexivity.
Qed.

(** C3 at a state with an active run and at the initial state. *)
Lemma C3_guard_examples :
  start_run example_world "AI" busy_state
    = Raises (HTTPException 409 "A run is already in progress") busy_state
  /\ run_full_outreach_flow example_world 1 (example_flow None [bob]) busy_state
     = Raises (HTTPException 409 "A run is already in progress") busy_state
  /\ start_run example_world "AI" initial_state
     = Returns (JObj [("status", JStr "started")],
                Some (run_in_thread example_world "AI"))
         {| queue := []; active_run := true; candidate_store := []; ticks := 0 |}
  /\ run_full_outreach_flow example_world 1 (example_flow None [bob]) initial_state
     = Returns (JObj [("ok", JBool true); ("status", JStr "started")],
                Some (flow_task example_world 1 (example_flow None [bob])))
         {| queue := []; active_run := true; candidate_store := []; ticks := 0 |}
  /\ demo_start_outreach busy_state
     = Returns (JObj [("ok", JBool true)],
                Some (_simulate_outreach_sequence (all (candidate_store busy_state))))
         busy_state.
Proof.
  split; [|split; [|split; [|split]]].
  - apply (proj1 C3_guarded_endpoints_reject_when_active). reflexivity.
  - apply (proj1 (proj2 C3_guarded_endpoints_reject_when_active)). reflexivity.
  - apply (proj1 (proj2 (proj2 C3_guarded_endpoints_reject_when_active))
             example_world "AI" initial_state). reflexivity.
  - apply (proj1 (proj2 (proj2 (proj2 C3_guarded_endpoints_reject_when_active)))
             example_world 1%nat (example_flow None [bob]) initial_state
             0%Z 20%Z 30%Z); reflexivity.
  - apply (proj2 (proj2 (proj2 (proj2 C3_guarded_endpoints_reject_when_active)))
             busy_state "ada@x.com" ada_rec []). reflexivity.
Defined.

(** Against C3 as the specification words it, at the demo trigger: while a
    run is active,
    [POST /demo/start-outreach] is not rejected, and its task moves [Ada]
    from [Sourced] to [Accepted]. *)
Lemma C3_demo_trigger_runs_while_active :
  active_run busy_state = true
  /\ to_completion demo_start_outreach busy_state
     = Returns (JObj [("ok", JBool true)])
         {| queue :=
              [("log", log_event "[SchedulingAgent] Initializing outreach sequence...");
               ("log", log_event "[SchedulingAgent] Sending outreach email to Ada.");
               ("candidate_status", status_event "ada@x.com" (Some "Contacted"));
               ("log", log_event "[SchedulingAgent] Received positive reply from Ada. Scheduling meeting.");
               ("candidate_status", status_event "ada@x.com" (Some "Accepted"));
               ("log", log_event "[SchedulingAgent] Task complete.");
               ("done", JObj [("ok", JBool true)])];
            active_run := true;
            candidate_store := [("ada@x.com",
                        mkRec (Some "Ada") "ada@x.com" "" (Some "Accepted") None)];
            ticks := 4 |}.
Proof. split; reflexivity. Qed.

(** ** The demo runs *)

Lemma status_subjects_app (st : string) (q1 q2 : list (string * json)) :
  status_subjects st (q1 ++ q2) = (status_subjects st q1 ++ status_subjects st q2)%list.
Proof.
  induction q1 as [|ev q1 IH]; simpl; [reflexivity|].
  destruct (status_subject st ev); simpl; rewrite IH; reflexivity.
Qed.

Lemma payloads_app (kind : string) (q1 q2 : list (string * json)) :
  payloads kind (q1 ++ q2) = (payloads kind q1 ++ payloads kind q2)%list.
Proof. unfold payloads. rewrite filter_app, map_app. reflexivity. Qed.

Lemma contacted_contact_events (enriched : list rec) :
  status_subjects "Contacted" (contact_events enriched)
  = map (fun e => JStr (email e)) enriched.
Proof.
  induction enriched as [|e enriched IH]; simpl; [reflexivity|].
  f_equal. exact IH.
Qed.

Lemma accepted_contact_events (enriched : list rec) :
  status_subjects "Accepted" (contact_events enriched) = [].
Proof. induction enriched as [|e enriched IH]; simpl; [reflexivity|exact IH]. Qed.

Lemma payloads_contact_events (kind : string) (enriched : list rec) :
  kind <> "log" -> kind <> "candidate_status" ->
  payloads kind (contact_events enriched) = [].
Proof.
  intros H1 H2. unfold payloads.
  apply not_eq_sym in H1, H2. apply String.eqb_neq in H1, H2.
  induction enriched as [|e enriched IH]; [reflexivity|].
  unfold contact_events in *. cbn [flat_map app filter fst].
  rewrite H1, H2. exact IH.
Qed.

Lemma simulate_contacts_eq (enriched : list rec) (s : state) :
  exists st',
    simulate_contacts enriched s
    = Returns tt {| queue := (queue s ++ contact_events enriched)%list;
                    active_run := active_run s; candidate_store := st';
                    ticks := ticks s + List.length enriched |}.
Proof.
  revert s. induction enriched as [|e enriched IH]; intros s.
  - exists (candidate_store s). simpl. unfold ret. rewrite app_nil_r, Nat.add_0_r.
    destruct s; reflexivity.
  - cbn [simulate_contacts]. unfold bind at 1. unfold sleep at 1, call at 1.
    unfold bind at 1. unfold emit at 1. unfold bind at 1. unfold with_store at 1.
    destruct (update_status (candidate_store (tick s)) (email e) (Some "Contacted"))
      as [st1 r1] eqn:Hu.
    cbn [fst snd queue active_run candidate_store ticks tick].
    unfold bind at 1. unfold emit at 1.
    cbn [fst snd queue active_run candidate_store ticks tick].
    match goal with
    | |- context [simulate_contacts enriched ?s1] => destruct (IH s1) as [st' Hst]
    end.
    exists st'. rewrite Hst. cbn [queue active_run candidate_store ticks contact_events flat_map].
    f_equal. f_equal.
    + rewrite <- !app_assoc. reflexivity.
    + simpl. lia.
Qed.

Lemma simulate_outreach_sequence_eq (enriched : list rec) (s : state) :
  exists st' n,
    _simulate_outreach_sequence enriched s
    = Returns tt {| queue := (queue s ++ simulated_events enriched)%list;
                    active_run := active_run s; candidate_store := st'; ticks := n |}.
Proof.
  unfold _simulate_outreach_sequence, simulated_events.
  unfold bind at 1. unfold emit at 1. unfold bind at 1.
  match goal with
  | |- context [simulate_contacts enriched ?s1] =>
      destruct (simulate_contacts_eq enriched s1) as [st1 Hst]
  end.
  rewrite Hst. cbn [queue active_run candidate_store ticks].
  destruct enriched as [|first rest].
  - do 2 eexists. unfold bind, ret, sleep, call, emit, tick.
    cbn [queue active_run candidate_store ticks].
    rewrite <- !app_assoc. reflexivity.
  - unfold bind at 1. unfold bind at 1. unfold sleep at 1, call at 1.
    unfold bind at 1. unfold emit at 1. unfold bind at 1. unfold with_store at 1.
    cbn [queue active_run candidate_store ticks tick].
    destruct (update_status st1 (email first) (Some "Accepted")) as [st2 r2].
    do 2 eexists. unfold bind, ret, sleep, call, emit, tick.
    cbn [fst snd queue active_run candidate_store ticks].
    rewrite <- !app_assoc. reflexivity.
Qed.

(** Two states with the same components are the same. *)
Lemma state_ext (s1 s2 : state) :
  queue s1 = queue s2 -> active_run s1 = active_run s2 ->
  candidate_store s1 = candidate_store s2 -> ticks s1 = ticks s2 -> s1 = s2.
Proof. destruct s1, s2; simpl; intros; subst; reflexivity. Qed.

Lemma queue_push s ev : queue (push s ev) = (queue s ++ [ev])%list.
Proof. reflexivity. Qed.

Lemma queue_tick s : queue (tick s) = queue s.
Proof. reflexivity. Qed.

Lemma active_run_push s ev : active_run (push s ev) = active_run s.
Proof. reflexivity. Qed.

Lemma active_run_tick s : active_run (tick s) = active_run s.
Proof. reflexivity. Qed.

Lemma candidate_store_push s ev : candidate_store (push s ev) = candidate_store s.
Proof. reflexivity. Qed.

Lemma candidate_store_tick s : candidate_store (tick s) = candidate_store s.
Proof. reflexivity. Qed.

Lemma ticks_push s ev : ticks (push s ev) = ticks s.
Proof. reflexivity. Qed.

Lemma ticks_tick s : ticks (tick s) = S (ticks s).
Proof. reflexivity. Qed.

(** Reads a component of a state built by [push] and [tick]. *)
Ltac read_state :=
  repeat first
    [ rewrite queue_push | rewrite queue_tick
    | rewrite active_run_push | rewrite active_run_tick
    | rewrite candidate_store_push | rewrite candidate_store_tick
    | rewrite ticks_push | rewrite ticks_tick ].

(** Rewriting a sequence of steps from a given state. *)
Lemma bind_emit {B} (kind : string) (data : json) (k : unit -> M B) (s : state) :
  bind (emit kind data) k s = k tt (push s (kind, data)).
Proof. reflexivity. Qed.

Lemma bind_sleep {B} (k : unit -> M B) (s : state) :
  bind sleep k s = k tt (tick s).
Proof. reflexivity. Qed.

Lemma bind_ret {A B} (a : A) (k : A -> M B) (s : state) :
  bind (ret a) k s = k a s.
Proof. reflexivity. Qed.

Lemma bind_assoc {A B C} (m : M A) (f : A -> M B) (g : B -> M C) (s : state) :
  bind (bind m f) g s = bind m (fun a => bind (f a) g) s.
Proof. unfold bind. destruct (m s); reflexivity. Qed.

Lemma bind_on_log {B} (message : string) (k : unit -> M B) (s : state) :
  bind (callback (Some on_log) message) k s
  = k tt (push s ("log", log_event message)).
Proof. reflexivity. Qed.

Lemma bind_on_candidates_found {B} (cands : list rec) (k : unit -> M B) (s : state) :
  bind (callback (Some on_candidates_found) cands) k s
  = k tt (push s ("candidates", JArr (map json_of_rec cands))).
Proof. reflexivity. Qed.

Lemma bind_on_candidate_status {B} (a : nat * string) (k : unit -> M B) (s : state) :
  bind (callback (Some on_candidate_status) a) k s
  = k tt (push s ("candidate_status",
                  JObj [("index", JNum (Z.of_nat (fst a))); ("status", JStr (snd a))])).
Proof. reflexivity. Qed.

Lemma on_log_last (message : string) (s : state) :
  callback (Some on_log) message s = Returns tt (push s ("log", log_event message)).
Proof. reflexivity. Qed.

(** The events of [run_orchestrator] in the offline mode. *)
Lemma run_orchestrator_offline (w : world) (topic : string) (s : state) :
  dummy_run w = true ->
  run_orchestrator w topic (Some on_log) (Some on_candidates_found)
    (Some on_candidate_status) true s
  = Returns tt
      {| queue :=
           (queue s
            ++ [("log", log_event ("--- Launching Orchestrator for topic: "
                                   ++ topic ++ " ---"));
                ("log", log_event "Running in DUMMY mode (no external LLM calls).");
                ("log", log_event "[SourcingAgent] Starting search...");
                ("log", log_event "[SourcingAgent] Found 3 potential candidates.");
                ("candidates", JArr (map json_of_rec mock_results));
                ("log", log_event "[SourcingAgent] Task complete. Passing results to SchedulingAgent.");
                ("log", log_event "[SchedulingAgent] Initializing outreach sequence...");
                ("log", log_event "[SchedulingAgent] Sending outreach email to Dr. Evelyn Reed.");
                ("candidate_status", JObj [("index", JNum 0); ("status", JStr "Contacted")]);
                ("log", log_event "[SchedulingAgent] Sending outreach email to Marco Jin.");
                ("candidate_status", JObj [("index", JNum 1); ("status", JStr "Contacted")]);
                ("log", log_event "[SchedulingAgent] Sending outreach email to Anya Sharma.");
                ("candidate_status", JObj [("index", JNum 2); ("status", JStr "Contacted")]);
                ("log", log_event "[SchedulingAgent] Received positive reply from Dr. Evelyn Reed. Scheduling meeting.");
                ("candidate_status", JObj [("index", JNum 0); ("status", JStr "Accepted")]);
                ("log", log_event "[SchedulingAgent] Task complete.");
                ("log", log_event "--- Crew Run Complete (Simulated) ---")])%list;
         active_run := active_run s; candidate_store := candidate_store s; ticks := ticks s + 10 |}.
Proof.
  intros Hd. unfold run_orchestrator. rewrite Hd.
  cbn [when outreach_updates mock_results].
  repeat first [ rewrite bind_assoc | rewrite bind_on_log | rewrite bind_sleep
               | rewrite bind_on_candidates_found | rewrite bind_on_candidate_status
               | rewrite bind_ret ].
  rewrite on_log_last. f_equal.
  apply state_ext; read_state; cbn [queue active_run candidate_store ticks].
  - rewrite <- !app_assoc. reflexivity.
  - reflexivity.
  - reflexivity.
  - lia.
Qed.

(** C8 (as the code has it).  The scripted run of [POST /run] in the offline
    mode publishes one [candidates] event with the 3 hard-coded records, a
    [Contacted] status for each of the positions 0, 1 and 2, exactly one
    [Accepted] status, for position 0, and ends with [done].  The sequence
    behind [POST /demo/start-outreach] works on the list it is given, of any
    length: it publishes no [candidates] event, a [Contacted] status for each
    element, one [Accepted] status, for the first element (none for an empty
    list), and ends with [done]. *)
Theorem C8_demo_run_events :
  (forall (w : world) (topic : string) (s : state),
      dummy_run w = true ->
      exists emitted,
        run_in_thread w topic s
        = Returns tt {| queue := (queue s ++ emitted)%list; active_run := false;
                        candidate_store := candidate_store s; ticks := ticks s + 10 |}
        /\ payloads "candidates" emitted = [JArr (map json_of_rec mock_results)]
        /\ List.length mock_results = 3%nat
        /\ status_subjects "Contacted" emitted = [JNum 0; JNum 1; JNum 2]
        /\ status_subjects "Accepted" emitted = [JNum 0]
        /\ payloads "done" emitted = [JObj [("ok", JBool true)]]
        /\ last emitted ("", JNull) = ("done", JObj [("ok", JBool true)]))
  /\ (forall (enriched : list rec) (s : state),
        exists st' n,
          _simulate_outreach_sequence enriched s
          = Returns tt {| queue := (queue s ++ simulated_events enriched)%list;
                          active_run := active_run s; candidate_store := st'; ticks := n |}
          /\ payloads "candidates" (simulated_events enriched) = []
          /\ status_subjects "Contacted" (simulated_events enriched)
             = map (fun e => JStr (email e)) enriched
          /\ status_subjects "Accepted" (simulated_events enriched)
             = match enriched with
               | first :: _ => [JStr (email first)]
               | [] => []
               end
          /\ payloads "done" (simulated_events enriched) = [JObj [("ok", JBool true)]]
          /\ last (simulated_events enriched) ("", JNull)
             = ("done", JObj [("ok", JBool true)])).
Proof.
  split.
  - intros w topic s Hd. eexists. split.
    + unfold run_in_thread, try_finally.
      rewrite (run_orchestrator_offline w topic s Hd).
      unfold bind, emit, set_active_run. cbn [queue active_run candidate_store ticks].
      rewrite <- app_assoc. reflexivity.
    + repeat split.
  - intros enriched s.
    destruct (simulate_outreach_sequence_eq enriched s) as (st' & n & Heq).
    exists st', n. split; [exact Heq|]. unfold simulated_events.
    rewrite !payloads_app, !status_subjects_app.
    rewrite contacted_contact_events, accepted_contact_events.
    rewrite !payloads_contact_events by discriminate.
    split; [destruct enriched; reflexivity|].
    split.
    { destruct enriched; cbn [status_subjects status_subject app];
        rewrite ?app_nil_r; reflexivity. }
    split; [destruct enriched; reflexivity|].
    split; [destruct enriched; reflexivity|].
    rewrite !app_assoc.
    match goal with
    | |- last (?l ++ [?a; ?b]) _ = _ =>
        change (l ++ [a; b])%list with (l ++ ([a] ++ [b]))%list;
        rewrite (app_assoc l [a] [b])
    end.
    apply last_last.
Qed.

(** C8 at the example process, which is in the offline mode. *)
Lemma C8_offline_run_example :
  exists emitted,
    run_in_thread example_world "AI" initial_state
    = Returns tt {| queue := (queue initial_state ++ emitted)%list;
                    active_run := false; candidate_store := candidate_store initial_state;
                    ticks := ticks initial_state + 10 |}
    /\ payloads "candidates" emitted = [JArr (map json_of_rec mock_results)]
    /\ List.length mock_results = 3%nat
    /\ status_subjects "Contacted" emitted = [JNum 0; JNum 1; JNum 2]
    /\ status_subjects "Accepted" emitted = [JNum 0]
    /\ payloads "done" emitted = [JObj [("ok", JBool true)]]
    /\ last emitted ("", JNull) = ("done", JObj [("ok", JBool true)]).
Proof.
  apply (proj1 C8_demo_run_events example_world "AI" initial_state). reflexivity.
Defined.

(** Against C8 as the specification words it, at the demo trigger with one
    candidate in the
    registry: the run publishes no [candidates] event at all, and one
    [Contacted] status. *)
Lemma C8_demo_trigger_has_no_candidates_event :
  let final :=
    {| queue :=
         [("log", log_event "[SchedulingAgent] Initializing outreach sequence...");
          ("log", log_event "[SchedulingAgent] Sending outreach email to Ada.");
          ("candidate_status", status_event "ada@x.com" (Some "Contacted"));
          ("log", log_event "[SchedulingAgent] Received positive reply from Ada. Scheduling meeting.");
          ("candidate_status", status_event "ada@x.com" (Some "Accepted"));
          ("log", log_event "[SchedulingAgent] Task complete.");
          ("done", JObj [("ok", JBool true)])];
       active_run := false;
       candidate_store := [("ada@x.com",
                   mkRec (Some "Ada") "ada@x.com" "" (Some "Accepted") None)];
       ticks := 4 |} in
  to_completion demo_start_outreach ada_state = Returns (JObj [("ok", JBool true)]) final
  /\ payloads "candidates" (queue final) = []
  /\ status_subjects "Contacted" (queue final) = [JStr "ada@x.com"].
Proof. repeat split. Qed.

(** ** The reference token *)

Lemma hex_from_length_ge (fuel : nat) (n : Z) (acc : string) :
  (String.length acc <= String.length (hex_from fuel n acc))%nat.
Proof.
  revert n acc. induction fuel as [|fuel IH]; intros n acc; simpl; [lia|].
  destruct (n / 16 =? 0)%Z; simpl; [lia|].
  specialize (IH (n / 16)%Z (String (hex_digit (n mod 16)) acc)). simpl in IH. lia.
Qed.




Lemma truthy_nonempty (x : option string) :
  truthy x = true -> str_of_opt x <> "".
Proof.
  unfold truthy. destruct x as [s|]; [|discriminate].
  intros H. apply negb_true_iff, String.eqb_neq in H. exact H.
Qed.

(** Reading a token back as a hexadecimal number. *)

Lemma hex_value_hex_digit (d : Z) :
  (0 <= d < 16)%Z -> hex_value (hex_digit d) = Some d.
Proof.
  intros Hd.
  assert (H : (d = 0 \/ d = 1 \/ d = 2 \/ d = 3 \/ d = 4 \/ d = 5 \/ d = 6 \/ d = 7
               \/ d = 8 \/ d = 9 \/ d = 10 \/ d = 11 \/ d = 12 \/ d = 13 \/ d = 14
               \/ d = 15)%Z) by lia.
  repeat (destruct H as [->|H]; [reflexivity|]). subst d. reflexivity.
Qed.

Lemma of_hex_from_hex_from (fuel : nat) :
  forall (n : Z) (acc : string),
    (0 <= n < 16 ^ Z.of_nat fuel)%Z ->
    exists k : Z,
      (0 <= k)%Z
      /\ forall v, of_hex_from v (hex_from fuel n acc)
                   = of_hex_from (v * 16 ^ k + n) acc.
Proof.
  induction fuel as [|fuel IH]; intros n acc Hn.
  - exists 0%Z. split; [lia|]. intros v. cbn [hex_from].
    change (16 ^ Z.of_nat 0)%Z with 1%Z in Hn.
    replace (v * 16 ^ 0 + n)%Z with v by (rewrite Z.pow_0_r; lia). reflexivity.
  - cbn [hex_from].
    assert (Hd : (0 <= n mod 16 < 16)%Z) by (apply Z.mod_pos_bound; lia).
    pose proof (Z.div_mod n 16 ltac:(lia)) as Hdm.
    destruct (n / 16 =? 0)%Z eqn:Hq.
    + apply Z.eqb_eq in Hq. exists 1%Z. split; [lia|]. intros v.
      cbn [of_hex_from]. rewrite hex_value_hex_digit by exact Hd.
      f_equal. rewrite Z.pow_1_r. lia.
    + assert (Hb : (0 <= n / 16 < 16 ^ Z.of_nat fuel)%Z).
      { split; [apply Z.div_pos; lia|].
        apply Z.div_lt_upper_bound; [lia|].
        replace (Z.of_nat (S fuel)) with (Z.succ (Z.of_nat fuel)) in Hn by lia.
        rewrite Z.pow_succ_r in Hn by lia. lia. }
      destruct (IH (n / 16)%Z (String (hex_digit (n mod 16)) acc) Hb)
        as (k & Hk & Hv).
      exists (Z.succ k). split; [lia|]. intros v.
      rewrite Hv. cbn [of_hex_from]. rewrite hex_value_hex_digit by exact Hd.
      f_equal. rewrite Z.pow_succ_r by exact Hk. lia.
Qed.

Lemma of_hex_hex (n : Z) : (0 <= n)%Z -> of_hex (hex n) = Some n.
Proof.
  intros Hn.
  assert (Hne : hex n <> "").
  { unfold hex. cbn [hex_from]. destruct (n / 16 =? 0)%Z; [discriminate|].
    intros H.
    match type of H with
    | hex_from ?f ?m ?acc = _ => pose proof (hex_from_length_ge f m acc) as Hg
    end.
    rewrite H in Hg. cbn [String.length] in Hg. lia. }
  assert (Hfrom : of_hex_from 0 (hex n) = Some n).
  { unfold hex.
    destruct (of_hex_from_hex_from (S (Z.to_nat (Z.log2 n))) n "") as (k & _ & Hv).
    - split; [exact Hn|].
      rewrite Nat2Z.inj_succ, Z2Nat.id by apply Z.log2_nonneg.
      destruct (Z.eq_dec n 0) as [->|Hn0]; [reflexivity|].
      pose proof (Z.log2_spec n ltac:(lia)) as [_ Hlt].
      apply Z.lt_le_trans with (1 := Hlt).
      apply Z.pow_le_mono_l. pose proof (Z.log2_nonneg n). lia.
    - rewrite Hv. cbn [of_hex_from]. f_equal; lia. }
  unfold of_hex. destruct (hex n); [contradiction|exact Hfrom].
Qed.




(** * More of the code *)

(** ** The registry as a dictionary *)

Lemma py_or_assoc (x y z : option string) :
  py_or x (py_or y z) = py_or (py_or x y) z.
Proof.
  unfold py_or. destruct (truthy x) eqn:Hx.
  - rewrite Hx. reflexivity.
  - reflexivity.
Qed.

Lemma py_or_str_assoc (x y : option string) (d : string) :
  py_or_str x (py_or_str y d) = py_or_str (py_or x y) d.
Proof.
  unfold py_or, py_or_str, truthy. destruct x as [s|]; [|reflexivity].
  destruct (s =? "") eqn:Hs; simpl; [reflexivity|]. rewrite Hs. reflexivity.
Qed.

Lemma last_nonempty_snoc_or (f : partial -> option string) (cs : list partial)
    (c : partial) :
  last_nonempty f (cs ++ [c]) = py_or (f c) (last_nonempty f cs).
Proof. apply last_nonempty_snoc. Qed.

Lemma loaded_at_snoc (e : string) (old : option rec) (cs : list partial)
    (c : partial) :
  loaded_at e old (cs ++ [c]) =
  if has_email e c then Some (merged_rec (loaded_at e old cs) c)
  else loaded_at e old cs.
Proof.
  unfold loaded_at. rewrite filter_app. simpl.
  destruct (has_email e c) eqn:Hc; [|rewrite app_nil_r; reflexivity].
  assert (He : str_of_opt (p_email c) = e).
  { rewrite has_email_truthy in Hc. apply andb_true_iff in Hc.
    apply String.eqb_eq, Hc. }
  set (rs := filter (has_email e) cs).
  assert (Hne : exists r0 rs', (rs ++ [c])%list = r0 :: rs').
  { destruct rs; simpl; eauto. }
  destruct Hne as (r0 & rs' & Hrs). rewrite Hrs, <- Hrs. clear r0 rs' Hrs.
  f_equal. unfold merged_rec. rewrite He, !last_nonempty_snoc_or.
  rewrite <- !py_or_assoc, <- py_or_str_assoc.
  destruct rs as [|r1 rs1]; [destruct old as [r0|]|]; reflexivity.
Qed.

(** What [load] leaves at each email. *)
Lemma fold_load_one_get (cs : list partial) (st : store) (e : string) :
  store_get (fold_left load_one cs st) e = loaded_at e (store_get st e) cs.
Proof.
  induction cs as [|c cs IH] using rev_ind.
  - reflexivity.
  - rewrite fold_left_app. simpl. rewrite load_one_get, loaded_at_snoc.
    destruct (has_email e c) eqn:Hc; [|exact IH].
    assert (He : str_of_opt (p_email c) = e).
    { rewrite has_email_truthy in Hc. apply andb_true_iff in Hc.
      apply String.eqb_eq, Hc. }
    rewrite He, IH. reflexivity.
Qed.

Lemma store_get_in (st : store) (e : string) (r : rec) :
  store_get st e = Some r -> In (e, r) st.
Proof.
  induction st as [|[k r0] st IH]; simpl; [discriminate|].
  destruct (k =? e) eqn:Hk.
  - apply String.eqb_eq in Hk. intros [= ->]. left. congruence.
  - intros H. right. apply IH, H.
Qed.

Lemma store_get_none_not_in (st : store) (e : string) :
  ~ In e (store_keys st) -> store_get st e = None.
Proof.
  induction st as [|[k r0] st IH]; simpl; [reflexivity|].
  intros Hn. destruct (k =? e) eqn:Hk.
  - apply String.eqb_eq in Hk. tauto.
  - apply IH. tauto.
Qed.

(** Two stores with the same keys in the same order, distinct, and the same
    record at every key are the same store. *)
Lemma store_ext (a b : store) :
  NoDup (store_keys a) -> store_keys a = store_keys b ->
  (forall e, store_get a e = store_get b e) -> a = b.
Proof.
  revert b. induction a as [|[k r] a IH]; intros [|[k' r'] b] Hnd Hk Hg;
    simpl in Hk; try discriminate; [reflexivity|].
  injection Hk as Hk1 Hk2. subst k'.
  inversion Hnd as [|? ? Hnotin Hnd']; subst.
  pose proof (Hg k) as Hgk. simpl in Hgk. rewrite String.eqb_refl in Hgk.
  injection Hgk as <-. f_equal. apply IH; [exact Hnd' | exact Hk2 |].
  intros e. destruct (k =? e) eqn:Hke.
  - apply String.eqb_eq in Hke. subst e.
    rewrite !store_get_none_not_in; [reflexivity | rewrite <- Hk2 |]; exact Hnotin.
  - specialize (Hg e). simpl in Hg. rewrite Hke in Hg. exact Hg.
Qed.

Lemma store_set_Forall (P : string * rec -> Prop) (st : store) (e : string)
    (r : rec) :
  Forall P st -> P (e, r) -> Forall P (store_set st e r).
Proof.
  intros Hst Hr. induction st as [|[k r0] st IH]; simpl.
  - constructor; [exact Hr|constructor].
  - inversion Hst as [|? ? Hhd Htl]; subst. destruct (k =? e) eqn:Hk.
    + apply String.eqb_eq in Hk. subst k. constructor; assumption.
    + constructor; [exact Hhd | apply IH, Htl].
Qed.

Lemma store_wf_get (st : store) (e : string) (r : rec) :
  store_wf st -> store_get st e = Some r -> email r = e /\ e <> "".
Proof.
  intros [_ Hall] Hg. apply store_get_in in Hg.
  rewrite Forall_forall in Hall. exact (Hall (e, r) Hg).
Qed.

Lemma store_wf_set (st : store) (e : string) (r : rec) :
  store_wf st -> email r = e -> e <> "" -> store_wf (store_set st e r).
Proof.
  intros [Hnd Hall] He Hne. split.
  - apply store_set_NoDup, Hnd.
  - apply store_set_Forall; [exact Hall | split; assumption].
Qed.

Lemma load_one_wf (st : store) (c : partial) :
  store_wf st -> store_wf (load_one st c).
Proof.
  intros Hwf. unfold load_one. destruct (truthy (p_email c)) eqn:Hc; [|exact Hwf].
  apply store_wf_set; [exact Hwf | reflexivity | apply truthy_nonempty, Hc].
Qed.

Lemma fold_load_one_wf (cs : list partial) (st : store) :
  store_wf st -> store_wf (fold_left load_one cs st).
Proof.
  revert st. induction cs as [|c cs IH]; intros st Hwf; simpl.
  - exact Hwf.
  - apply IH, load_one_wf, Hwf.
Qed.

Lemma update_status_wf (st : store) (e : string) (s : option string) :
  store_wf st -> store_wf (fst (update_status st e s)).
Proof.
  intros Hwf. unfold update_status.
  destruct (store_get st e) as [r|] eqn:Hg; [|exact Hwf].
  destruct (store_wf_get st e r Hwf Hg) as [He Hne].
  apply store_wf_set; assumption.
Qed.

Lemma set_ref_wf (st : store) (e ref : string) :
  store_wf st -> store_wf (set_ref st e ref).
Proof.
  intros Hwf. unfold set_ref.
  destruct (store_get st e) as [r|] eqn:Hg; [|exact Hwf].
  destruct (store_wf_get st e r Hwf Hg) as [He Hne].
  apply store_wf_set; assumption.
Qed.

(** [set_ref] for an email that is not in the registry changes nothing; for
    a known email it replaces the token of that record and nothing else: the
    other fields, the other records and the keys stay. *)
Theorem set_ref_only_sets_the_token :
  forall (st : store) (e ref : string),
    match store_get st e with
    | None => set_ref st e ref = st
    | Some r =>
        store_get (set_ref st e ref) e
        = Some (mkRec (name r) (email r) (expertise r) (status r) (Some ref))
        /\ (forall e', e' <> e ->
              store_get (set_ref st e ref) e' = store_get st e')
        /\ store_keys (set_ref st e ref) = store_keys st
    end.
Proof.
  intros st e ref. unfold set_ref.
  destruct (store_get st e) as [r|] eqn:Hg; [|reflexivity].
  split; [apply store_get_set_same|].
  split; [intros e' Hne; apply store_get_set_other, Hne|].
  apply (store_keys_set_known _ _ _ r Hg).
Qed.

(** Every operation of the registry keeps it a dictionary: distinct keys,
    each record under its own non-empty email. *)
Theorem store_operations_keep_wf :
  store_wf []
  /\ forall (st : store),
       store_wf st ->
       (forall cs, store_wf (fst (load st cs)))
       /\ (forall e s, store_wf (fst (update_status st e s)))
       /\ (forall e ref, store_wf (set_ref st e ref)).
Proof.
  split.
  - split; constructor.
  - intros st Hwf. split; [|split].
    + intros cs. apply fold_load_one_wf, Hwf.
    + intros e s. apply update_status_wf, Hwf.
    + intros e ref. apply set_ref_wf, Hwf.
Qed.

Lemma store_wf_ada_contacted : store_wf ada_contacted.
Proof.
  split.
  - constructor; [simpl; tauto|constructor].
  - constructor; [split; [reflexivity|discriminate]|constructor].
Qed.

(** The invariant at a registry that holds one candidate. *)
Lemma store_operations_keep_wf_example :
  store_wf (fst (load ada_contacted [bob]))
  /\ store_wf (fst (update_status ada_contacted "ada@x.com" (Some "Accepted")))
  /\ store_wf (set_ref ada_contacted "ada@x.com" "2a").
Proof.
  destruct (proj2 store_operations_keep_wf ada_contacted store_wf_ada_contacted)
    as (Hl & Hu & Hs).
  split; [apply Hl|]. split; [apply Hu|apply Hs].
Defined.

Lemma py_or_idem (x y : option string) : py_or x (py_or x y) = py_or x y.
Proof. unfold py_or. destruct (truthy x); reflexivity. Qed.

Lemma py_or_str_idem (x : option string) (d : string) :
  py_or_str x (py_or_str x d) = py_or_str x d.
Proof.
  unfold py_or_str. destruct x as [s|]; [|reflexivity].
  destruct (s =? "") eqn:Hs; [reflexivity|]. reflexivity.
Qed.

Lemma loaded_at_idem (e : string) (old : option rec) (cs : list partial) :
  loaded_at e (loaded_at e old cs) cs = loaded_at e old cs.
Proof.
  unfold loaded_at. destruct (filter (has_email e) cs) as [|r1 rs]; [reflexivity|].
  cbn [name expertise status refToken].
  rewrite !py_or_idem, py_or_str_idem. reflexivity.
Qed.

Lemma loaded_at_known (e : string) (old : option rec) (cs : list partial) :
  old <> None -> loaded_at e old cs <> None.
Proof.
  intros Ho. unfold loaded_at.
  destruct (filter (has_email e) cs); [exact Ho|discriminate].
Qed.

Lemma loaded_at_in (c : partial) (old : option rec) (cs : list partial) :
  In c cs -> truthy (p_email c) = true ->
  loaded_at (str_of_opt (p_email c)) old cs <> None.
Proof.
  intros Hin Hc. unfold loaded_at.
  assert (Hf : In c (filter (has_email (str_of_opt (p_email c))) cs)).
  { apply filter_In. split; [exact Hin|].
    rewrite has_email_truthy, Hc, String.eqb_refl. reflexivity. }
  destruct (filter (has_email (str_of_opt (p_email c))) cs); [destruct Hf|discriminate].
Qed.

Lemma fresh_emails_none (seen : list string) (cs : list partial) :
  (forall c, In c cs -> truthy (p_email c) = true ->
             existsb (String.eqb (str_of_opt (p_email c))) seen = true) ->
  fresh_emails seen cs = [].
Proof.
  induction cs as [|c cs IH]; intros Hseen; simpl; [reflexivity|].
  destruct (truthy (p_email c)) eqn:Hc.
  - rewrite (Hseen c (or_introl eq_refl) Hc). apply IH.
    intros c' Hin. apply Hseen. right. exact Hin.
  - apply IH. intros c' Hin. apply Hseen. right. exact Hin.
Qed.

(** Loading the same records a second time changes nothing: neither a
    record, nor the order of the registry, nor the list returned. *)
Theorem load_twice_is_load_once :
  forall (st : store) (cs : list partial),
    NoDup (store_keys st) ->
    load (fst (load st cs)) cs = load st cs.
Proof.
  intros st cs Hnd. unfold load. cbn [fst].
  set (st1 := fold_left load_one cs st).
  assert (Heq : fold_left load_one cs st1 = st1).
  { apply store_ext.
    - apply fold_load_one_NoDup, fold_load_one_NoDup, Hnd.
    - rewrite fold_load_one_keys, fresh_emails_none; [apply app_nil_r|].
      intros c Hin Hc.
      destruct (existsb (String.eqb (str_of_opt (p_email c))) (store_keys st1))
        eqn:Hex; [reflexivity|].
      apply store_get_none_existsb in Hex. subst st1.
      rewrite fold_load_one_get in Hex.
      exfalso. exact (loaded_at_in c _ cs Hin Hc Hex).
    - intros e. subst st1. rewrite !fold_load_one_get. apply loaded_at_idem. }
  rewrite Heq. reflexivity.
Qed.

(** Idempotence at a registry that holds one candidate. *)
Lemma load_twice_is_load_once_example :
  load (fst (load ada_contacted [bob; ada])) [bob; ada]
  = load ada_contacted [bob; ada].
Proof.
  apply load_twice_is_load_once. constructor; [simpl; tauto|constructor].
Defined.

(** The registry only grows: a [load] appends the emails it did not know to
    the keys it had, in their order, and every email known before is known
    after; [update_status] and [set_ref] keep the keys as they are. *)
Theorem registry_never_forgets :
  forall (st : store),
    (forall cs,
        store_keys (fst (load st cs))
        = (store_keys st ++ fresh_emails (store_keys st) cs)%list
        /\ forall e, store_get st e <> None ->
                     store_get (fst (load st cs)) e <> None)
    /\ (forall e s, store_keys (fst (update_status st e s)) = store_keys st)
    /\ (forall e ref, store_keys (set_ref st e ref) = store_keys st).
Proof.
  intros st. split; [|split].
  - intros cs. split; [apply fold_load_one_keys|].
    intros e He. unfold load. cbn [fst]. rewrite fold_load_one_get.
    apply loaded_at_known, He.
  - intros e s. unfold update_status.
    destruct (store_get st e) as [r|] eqn:Hg; [|reflexivity].
    apply (store_keys_set_known _ _ _ r Hg).
  - intros e ref. unfold set_ref.
    destruct (store_get st e) as [r|] eqn:Hg; [|reflexivity].
    apply (store_keys_set_known _ _ _ r Hg).
Qed.

(** The known-before part at a registry that holds one candidate. *)
Lemma registry_never_forgets_example :
  store_get (fst (load ada_contacted [bob])) "ada@x.com" <> None.
Proof.
  apply (proj2 (proj1 (registry_never_forgets ada_contacted) [bob])). discriminate.
Defined.

(** Once a candidate has a token, no later [load] or [update_status], and no
    [set_ref] for another candidate, takes it away or changes it. *)
Theorem token_survives_later_updates :
  forall (st : store) (e t : string) (r : rec),
    store_get st e = Some r -> refToken r = Some t ->
    (forall cs, exists r',
        store_get (fst (load st cs)) e = Some r' /\ refToken r' = Some t)
    /\ (forall e' s, exists r',
          store_get (fst (update_status st e' s)) e = Some r'
          /\ refToken r' = Some t)
    /\ (forall e' ref, e' <> e -> exists r',
          store_get (set_ref st e' ref) e = Some r' /\ refToken r' = Some t).
Proof.
  intros st e t r Hg Ht. split; [|split].
  - intros cs. unfold load. cbn [fst]. rewrite fold_load_one_get, Hg.
    unfold loaded_at. destruct (filter (has_email e) cs).
    + exists r. split; [reflexivity|exact Ht].
    + eexists. split; [reflexivity|exact Ht].
  - intros e' s. unfold update_status.
    destruct (store_get st e') as [r1|] eqn:Hg1;
      [|exists r; split; assumption].
    cbn [fst]. rewrite store_get_set. destruct (e' =? e) eqn:He.
    + apply String.eqb_eq in He. subst e'. rewrite Hg in Hg1.
      injection Hg1 as <-. eexists. split; [reflexivity|exact Ht].
    + exists r. split; assumption.
  - intros e' ref Hne. unfold set_ref.
    destruct (store_get st e') as [r1|] eqn:Hg1;
      [|exists r; split; assumption].
    rewrite store_get_set_other by congruence.
    exists r. split; assumption.
Qed.

(** The token of [Ada] after a reload and a status change. *)
Lemma token_survives_later_updates_example :
  (exists r', store_get (fst (load ada_contacted [ada])) "ada@x.com" = Some r'
              /\ refToken r' = Some "1f")
  /\ (exists r', store_get (fst (update_status ada_contacted "ada@x.com"
                                   (Some "Accepted"))) "ada@x.com" = Some r'
                 /\ refToken r' = Some "1f").
Proof.
  destruct (token_survives_later_updates ada_contacted "ada@x.com" "1f"
              (mkRec (Some "Ada") "ada@x.com" "" (Some "Contacted") (Some "1f"))
              eq_refl eq_refl) as (Hl & Hu & _).
  split; [apply Hl | apply Hu].
Defined.

(** ** Accounting for the sending loops *)

Lemma mark_contacted_same (st : store) (nm e t : string) :
  e <> "" -> contacted_with (mark_contacted st nm e t) e t.
Proof.
  intros Hne. unfold mark_contacted, load. cbn [fst fold_left].
  set (p := mkPartial (Some nm) (Some e) None (Some "Contacted")).
  assert (Hg : exists r0, store_get (load_one st p) e = Some r0
                          /\ status r0 = Some "Contacted").
  { rewrite load_one_get. unfold has_email. cbn [p_email p].
    apply String.eqb_neq in Hne. rewrite Hne, String.eqb_refl.
    eexists. split; reflexivity. }
  destruct Hg as (r0 & Hg & Hs). unfold set_ref. rewrite Hg.
  eexists. rewrite store_get_set_same. repeat split. exact Hs.
Qed.

Lemma mark_contacted_other (st : store) (nm e t e' : string) :
  e' <> e -> store_get (mark_contacted st nm e t) e' = store_get st e'.
Proof.
  intros Hne. unfold mark_contacted, load. cbn [fst fold_left].
  set (p := mkPartial (Some nm) (Some e) None (Some "Contacted")).
  assert (Hl : store_get (load_one st p) e' = store_get st e').
  { rewrite load_one_get. unfold has_email. cbn [p_email p].
    destruct (e =? e') eqn:He; [|rewrite andb_false_r; reflexivity].
    apply String.eqb_eq in He. congruence. }
  unfold set_ref. destruct (store_get (load_one st p) e); [|exact Hl].
  rewrite store_get_set_other by exact Hne. exact Hl.
Qed.

Lemma mark_contacted_keeps (st : store) (nm e t e0 t0 : string) :
  e <> "" -> (e0 = e -> t0 = t) ->
  contacted_with st e0 t0 -> contacted_with (mark_contacted st nm e t) e0 t0.
Proof.
  intros Hne Ht Hc. destruct (String.eqb_spec e0 e) as [->|Hd].
  - rewrite (Ht eq_refl). apply mark_contacted_same, Hne.
  - unfold contacted_with. rewrite mark_contacted_other by exact Hd. exact Hc.
Qed.

Section SendingAccounts.

Variable w : world.

(** A request in which no candidate has an email sends nothing. *)
Lemma send_outreach_loop_no_email subject template cs results s :
  emailed cs = [] ->
  send_outreach_loop w subject template results cs s = Returns results s.
Proof.
  revert results. induction cs as [|c cs IH]; intros results He; [reflexivity|].
  unfold emailed in He. cbn [filter] in He.
  destruct (truthy (p_email c)) eqn:Hc; [discriminate|].
  cbn [send_outreach_loop]. unfold bind at 1.
  rewrite send_outreach_one_eq, Hc. apply IH, He.
Qed.

(** What the loop of [send_outreach] has done when it returns. *)
Lemma send_outreach_loop_accounts subject template cs :
  forall results s results' s',
    send_outreach_loop w subject template results cs s = Returns results' s' ->
    List.length results' = (List.length results + List.length (emailed cs))%nat
    /\ ticks s' = (ticks s + List.length (emailed cs))%nat
    /\ active_run s' = active_run s
    /\ status_subjects "Contacted" (queue s')
       = (status_subjects "Contacted" (queue s)
          ++ map (fun c => JStr (str_of_opt (p_email c))) (emailed cs))%list
    /\ (forall e, contacted_with (candidate_store s) e (ref_token w e subject) ->
                  contacted_with (candidate_store s') e (ref_token w e subject))
    /\ (forall c, In c (emailed cs) ->
                  contacted_with (candidate_store s') (str_of_opt (p_email c))
                    (ref_token w (str_of_opt (p_email c)) subject)).
Proof.
  induction cs as [|c cs IH]; intros results s results' s' Hr.
  - injection Hr as <- <-. cbn [emailed filter List.length map].
    rewrite !Nat.add_0_r, app_nil_r. repeat split; auto. intros c [].
  - cbn [send_outreach_loop] in Hr. unfold bind at 1 in Hr.
    rewrite send_outreach_one_eq in Hr. unfold emailed. cbn [filter].
    destruct (truthy (p_email c)) eqn:Hc.
    + cbv zeta in Hr.
      destruct (str_format template (py_or_str (p_name c) "there"))
        as [[body|x]|]; try discriminate.
      destruct (send_email (tools w) (ticks s) (str_of_opt (p_email c)) subject body
                  (Some (ref_token w (str_of_opt (p_email c)) subject)))
        as [res|x]; try discriminate.
      pose proof (truthy_nonempty _ Hc) as Hne.
      destruct (IH _ _ _ _ Hr) as (Hl & Ht & Ha & Hq & Hk & Hin).
      unfold emailed in *.
      cbn [queue active_run candidate_store ticks] in *.
      rewrite length_app in Hl. cbn [List.length map] in *.
      split; [lia|]. split; [lia|]. split; [exact Ha|].
      split.
      { rewrite Hq, status_subjects_app. cbn [status_subjects status_subject].
        rewrite <- app_assoc. reflexivity. }
      split.
      { intros e He. apply Hk. apply mark_contacted_keeps; [exact Hne| |exact He].
        intros ->. reflexivity. }
      intros c' [<-|Hc']; [|apply Hin, Hc'].
      apply Hk. apply mark_contacted_same, Hne.
    + apply (IH _ _ _ _ Hr).
Qed.

End SendingAccounts.

(** [POST /outreach/send] with a list in which no candidate has an email is
    not an error: it answers with an empty list of results, calls nothing and
    leaves the state as it was. *)
Theorem send_outreach_without_emails_sends_nothing :
  forall (w : world) (sub tmpl : option string) (c : partial) (cs : list partial)
         (s : state),
    emailed (c :: cs) = [] ->
    send_outreach w (mkSendPayload sub tmpl (c :: cs)) s
    = Returns (JObj [("ok", JBool true); ("sent", JArr [])]) s.
Proof.
  intros w sub tmpl c cs s He. unfold send_outreach.
  cbn [sp_candidates sp_subject sp_bodyTemplate]. unfold bind.
  rewrite send_outreach_loop_no_email by exact He. reflexivity.
Qed.

(** The answer for a list that only holds a candidate without an email. *)
Lemma send_outreach_without_emails_example :
  send_outreach example_world (mkSendPayload (Some "Hi") None [zed]) initial_state
  = Returns (JObj [("ok", JBool true); ("sent", JArr [])]) initial_state.
Proof.
  apply send_outreach_without_emails_sends_nothing. reflexivity.
Defined.

(** When [POST /outreach/send] answers, it has made one send for each
    candidate that has an email and none for the others: the answer holds
    one result per such candidate, one [Contacted] event per such candidate
    has been published, in the order of the list, each of them is in the
    registry as [Contacted] with the token of its email and the subject, and
    the run-active flag is as it was. *)
Theorem send_outreach_accounts_for_every_email :
  forall (w : world) (sub tmpl : option string) (cs : list partial)
         (s s' : state) (resp : json),
    send_outreach w (mkSendPayload sub tmpl cs) s = Returns resp s' ->
    let subject := py_or_str sub "Hackathon Invitation" in
    exists results,
      resp = JObj [("ok", JBool true); ("sent", JArr results)]
      /\ List.length results = List.length (emailed cs)
      /\ ticks s' = (ticks s + List.length (emailed cs))%nat
      /\ active_run s' = active_run s
      /\ status_subjects "Contacted" (queue s')
         = (status_subjects "Contacted" (queue s)
            ++ map (fun c => JStr (str_of_opt (p_email c))) (emailed cs))%list
      /\ (forall c, In c (emailed cs) ->
                    contacted_with (candidate_store s') (str_of_opt (p_email c))
                      (ref_token w (str_of_opt (p_email c)) subject)).
Proof.
  intros w sub tmpl cs s s' resp Hr subject. unfold send_outreach in Hr.
  cbn [sp_candidates sp_subject sp_bodyTemplate] in Hr.
  destruct cs as [|c cs]; [discriminate|].
  unfold bind in Hr. fold subject in Hr.
  destruct (send_outreach_loop w subject
              (py_or_str tmpl "Hi {name}, we'd love to invite you.") [] (c :: cs) s)
    as [results s1|x s1| |] eqn:Hl; try discriminate.
  injection Hr as <- <-. exists results.
  destruct (send_outreach_loop_accounts w _ _ _ _ _ _ _ Hl)
    as (Hlen & Ht & Ha & Hq & _ & Hin).
  repeat split; assumption.
Qed.

(** The accounts for [Ada], a candidate without an email, and [Bob]. *)
Lemma send_outreach_accounts_example :
  exists resp s',
    send_outreach lenient_world (mkSendPayload (Some "Hi") None [ada; zed; bob])
      initial_state = Returns resp s'
    /\ exists results,
         resp = JObj [("ok", JBool true); ("sent", JArr results)]
         /\ List.length results = 2%nat
         /\ ticks s' = 2%nat.
Proof.
  do 2 eexists. split; [reflexivity|].
  match goal with
  | |- exists results, ?resp = _ /\ _ /\ ticks ?s' = _ =>
      destruct (send_outreach_accounts_for_every_email lenient_world (Some "Hi") None
                  [ada; zed; bob] initial_state s' resp eq_refl)
        as (results & Hresp & Hlen & Ht & _)
  end.
  exists results. split; [exact Hresp|]. split; [exact Hlen|exact Ht].
Defined.

Section FlowAccounts.

Variable w : world.

(** What step 1 of [flow_task] has built when it returns. *)
Lemma flow_send_loop_accounts subject template cs :
  forall enriched s enriched' s',
    flow_send_loop w subject template enriched cs s = Returns enriched' s' ->
    exists new,
      enriched' = (enriched ++ new)%list
      /\ map e_email new = map (fun c => str_of_opt (p_email c)) (emailed cs)
      /\ map e_name new = map (fun c => py_or_str (p_name c) "there") (emailed cs)
      /\ Forall (fun e => e_refToken e = ref_token w (e_email e) subject
                          /\ e_done e = false) new
      /\ ticks s' = (ticks s + List.length (emailed cs))%nat
      /\ count_kind "candidate_status" (queue s')
         = (count_kind "candidate_status" (queue s) + List.length (emailed cs))%nat
      /\ (forall e, contacted_with (candidate_store s) e (ref_token w e subject) ->
                    contacted_with (candidate_store s') e (ref_token w e subject))
      /\ Forall (fun e => contacted_with (candidate_store s') (e_email e)
                            (e_refToken e)) new.
Proof.
  induction cs as [|c cs IH]; intros enriched s enriched' s' Hr.
  - injection Hr as <- <-. exists []. cbn [emailed filter List.length map].
    rewrite !Nat.add_0_r, app_nil_r. repeat split; auto.
  - cbn [flow_send_loop] in Hr. unfold bind at 1 in Hr.
    rewrite flow_send_one_eq in Hr. unfold emailed. cbn [filter].
    destruct (truthy (p_email c)) eqn:Hc.
    + cbv zeta in Hr.
      destruct (str_format template (py_or_str (p_name c) "there"))
        as [[body|x]|]; try discriminate.
      destruct (send_email (tools w) (ticks s) (str_of_opt (p_email c)) subject body
                  (Some (ref_token w (str_of_opt (p_email c)) subject)))
        as [res|x]; try discriminate.
      pose proof (truthy_nonempty _ Hc) as Hne.
      destruct (IH _ _ _ _ Hr) as (new & He & Hem & Hnm & Hall & Ht & Hq & Hk & Hin).
      unfold emailed in *.
      cbn [queue active_run candidate_store ticks] in *.
      eexists (_ :: new). split; [rewrite He, <- app_assoc; reflexivity|].
      cbn [map List.length e_email e_name].
      split; [f_equal; exact Hem|]. split; [f_equal; exact Hnm|].
      split; [constructor; [split; reflexivity|exact Hall]|].
      split; [lia|].
      split.
      { rewrite Hq, app_assoc, !count_kind_snoc. simpl. lia. }
      split.
      { intros e Hce. apply Hk. apply mark_contacted_keeps; [exact Hne| |exact Hce].
        intros ->. reflexivity. }
      constructor; [|exact Hin].
      cbn [e_email e_refToken]. apply Hk. apply mark_contacted_same, Hne.
    + apply (IH _ _ _ _ Hr).
Qed.

End FlowAccounts.

(** When step 1 of the run-flow task is through, [enriched] holds one entry
    for each candidate that has an email, in the order of the request, none
    for the others; each entry is not done and carries the token of its
    email and the subject, which is also the token that the registry holds
    for that candidate; one send was made and one status event published per
    entry. *)
Theorem flow_send_loop_builds_one_entry_per_email :
  forall (w : world) (subject template : string) (cs : list partial)
         (s s' : state) (enriched : list entry),
    flow_send_loop w subject template [] cs s = Returns enriched s' ->
    map e_email enriched = map (fun c => str_of_opt (p_email c)) (emailed cs)
    /\ map e_name enriched = map (fun c => py_or_str (p_name c) "there") (emailed cs)
    /\ Forall (fun e => e_refToken e = ref_token w (e_email e) subject
                        /\ e_done e = false
                        /\ contacted_with (candidate_store s') (e_email e)
                             (e_refToken e)) enriched
    /\ ticks s' = (ticks s + List.length enriched)%nat
    /\ count_kind "candidate_status" (queue s')
       = (count_kind "candidate_status" (queue s) + List.length enriched)%nat.
Proof.
  intros w subject template cs s s' enriched Hr.
  destruct (flow_send_loop_accounts w _ _ _ _ _ _ _ Hr)
    as (new & He & Hem & Hnm & Hall & Ht & Hq & _ & Hin).
  cbn [app] in He. subst new.
  assert (Hlen : List.length enriched = List.length (emailed cs)).
  { rewrite <- (length_map e_email), Hem, length_map. reflexivity. }
  split; [exact Hem|]. split; [exact Hnm|].
  split.
  { rewrite Forall_forall in *. intros e He.
    destruct (Hall e He) as [H1 H2]. repeat split; auto. }
  rewrite Hlen. split; assumption.
Qed.

(** The entries for [Ada], a candidate without an email, and [Bob]. *)
Lemma flow_send_loop_entries_example :
  exists enriched s',
    flow_send_loop lenient_world "Hi" "Hi {name}" [] [ada; zed; bob] initial_state
    = Returns enriched s'
    /\ map e_email enriched = ["ada@x.com"; "bob@x.com"].
Proof.
  do 2 eexists. split; [reflexivity|].
  match goal with
  | |- map e_email ?es = _ =>
      apply (proj1 (flow_send_loop_builds_one_entry_per_email lenient_world
                      "Hi" "Hi {name}" [ada; zed; bob] initial_state _ es eq_refl))
  end.
Defined.

(** ** Accounting for the polling loop *)

Section PollingAccounts.

Variable w : world.

Lemma update_status_keys (st : store) (e : string) (s : option string) :
  store_keys (fst (update_status st e s)) = store_keys st.
Proof.
  unfold update_status. destruct (store_get st e) as [r|] eqn:Hg; [|reflexivity].
  apply (store_keys_set_known _ _ _ r Hg).
Qed.

(** What one step of a polling pass has done when it returns. *)
Lemma poll_one_accounts summary description duration tz e scheduled s e' scheduled' s' :
  poll_one w summary description duration tz e scheduled s
    = Returns (e', scheduled') s' ->
  e_email e' = e_email e /\ e_refToken e' = e_refToken e
  /\ (e_done e = true -> e' = e /\ scheduled' = scheduled /\ s' = s)
  /\ (exists added,
        scheduled' = (scheduled ++ added)%list
        /\ (List.length added + (if e_done e then 1 else 0)
            = if e_done e' then 1 else 0)%nat
        /\ (List.length (status_subjects "Accepted" (queue s'))
            = List.length (status_subjects "Accepted" (queue s))
              + List.length added)%nat)
  /\ store_keys (candidate_store s') = store_keys (candidate_store s)
  /\ active_run s' = active_run s.
Proof.
  destruct (e_done e) eqn:Hd.
  - unfold poll_one. rewrite Hd. intros [= <- <- <-]. rewrite Hd.
    repeat split; auto. exists []. rewrite app_nil_r. simpl. repeat split; lia.
  - rewrite (poll_one_eq w summary description duration tz e scheduled s Hd).
    destruct (search_replies_by_ref_token (tools w) (ticks s) (e_refToken e))
      as [[|m ms]|x]; try discriminate.
    + intros [= <- <- <-]. rewrite Hd. repeat split; auto; try discriminate.
      exists []. rewrite app_nil_r. simpl. repeat split; lia.
    + cbv zeta.
      destruct (schedule_meeting (tools w) (S (ticks s)) [e_email e] summary
                  description duration tz) as [meet_json|x]; try discriminate.
      destruct (match json_loads w meet_json with
                | Some j => j
                | None => JObj [("eventId", JNull)]
                end); try discriminate.
      intros [= <- <- <-]. cbn [e_email e_refToken e_done queue active_run
                                candidate_store].
      repeat split; auto; try discriminate.
      * eexists. split; [reflexivity|]. split; [reflexivity|].
        rewrite !status_subjects_app. cbn [status_subjects status_subject].
        rewrite !length_app. simpl. lia.
      * apply update_status_keys.
Qed.

(** What a polling pass has done when it returns. *)
Lemma poll_pass_accounts summary description duration tz es :
  forall scheduled s es' scheduled' s',
    poll_pass w summary description duration tz es scheduled s
      = Returns (es', scheduled') s' ->
    map e_email es' = map e_email es
    /\ map e_refToken es' = map e_refToken es
    /\ Forall2 (fun e e' => e_done e = true -> e' = e) es es'
    /\ (exists added,
          scheduled' = (scheduled ++ added)%list
          /\ (List.length added + count_done es = count_done es')%nat
          /\ (List.length (status_subjects "Accepted" (queue s'))
              = List.length (status_subjects "Accepted" (queue s))
                + List.length added)%nat)
    /\ store_keys (candidate_store s') = store_keys (candidate_store s)
    /\ active_run s' = active_run s.
Proof.
  induction es as [|e es IH]; intros scheduled s es' scheduled' s' Hr.
  - injection Hr as <- <- <-. repeat split; auto.
    exists []. rewrite app_nil_r. simpl. repeat split; lia.
  - cbn [poll_pass] in Hr. unfold bind at 1 in Hr.
    destruct (poll_one w summary description duration tz e scheduled s)
      as [[e1 sch1] s1|x s1| |] eqn:H1; try discriminate.
    unfold bind at 1 in Hr. cbn [fst snd] in Hr.
    destruct (poll_pass w summary description duration tz es sch1 s1)
      as [[es2 sch2] s2|x s2| |] eqn:H2; try discriminate.
    injection Hr as <- <- <-. cbn [fst snd].
    destruct (poll_one_accounts _ _ _ _ _ _ _ _ _ _ H1)
      as (He1 & Ht1 & Hd1 & (a1 & Hs1 & Hc1 & Hq1) & Hk1 & Ha1).
    destruct (IH _ _ _ _ _ H2)
      as (He2 & Ht2 & Hd2 & (a2 & Hs2 & Hc2 & Hq2) & Hk2 & Ha2).
    cbn [map]. split; [congruence|]. split; [congruence|].
    split.
    { constructor; [|exact Hd2]. intros Hd. apply (Hd1 Hd). }
    split.
    { exists (a1 ++ a2)%list. split; [rewrite Hs2, Hs1, app_assoc; reflexivity|].
      unfold count_done in *. cbn [filter]. rewrite length_app.
      destruct (e_done e), (e_done e1); cbn [List.length] in *; lia. }
    split; congruence.
Qed.

(** A pass over entries that are all resolved does nothing. *)
Lemma poll_pass_all_done summary description duration tz es scheduled s :
  forallb e_done es = true ->
  poll_pass w summary description duration tz es scheduled s
  = Returns (es, scheduled) s.
Proof.
  induction es as [|e es IH]; intros Hd; [reflexivity|].
  cbn [forallb] in Hd. apply andb_true_iff in Hd. destruct Hd as [He Hes].
  cbn [poll_pass]. unfold bind at 1. unfold poll_one. rewrite He.
  unfold ret at 1. unfold bind at 1. cbn [fst snd]. rewrite (IH Hes). reflexivity.
Qed.

End PollingAccounts.

(** A candidate that is resolved is not polled again: a pass over entries
    that are all done looks nothing up, schedules nothing and leaves the
    entries, the list of meetings and the state as they are. *)
Theorem resolved_entries_are_not_polled_again :
  forall (w : world) (summary description : string) (duration : Z)
         (tz : option string) (es : list entry) (scheduled : list json)
         (s : state),
    forallb e_done es = true ->
    poll_pass w summary description duration tz es scheduled s
    = Returns (es, scheduled) s.
Proof. intros. apply poll_pass_all_done. assumption. Qed.

(** A pass over one resolved entry, with tools that would answer. *)
Lemma resolved_entries_example :
  poll_pass lenient_world "Introductory Meeting" "Intro call" 30 None
    [mkEntry "Ada" "ada@x.com" "a1" JNull true] [] initial_state
  = Returns ([mkEntry "Ada" "ada@x.com" "a1" JNull true], []) initial_state.
Proof. apply resolved_entries_are_not_polled_again. reflexivity. Defined.

(** When a polling pass returns, the entries are the same candidates with
    the same tokens in the same order, the entries that were resolved are
    untouched, and for each entry that the pass has resolved there is exactly
    one more meeting in the list and one more [Accepted] event; the keys of
    the registry and the run-active flag are as they were. *)
Theorem poll_pass_resolves_and_schedules_in_step :
  forall (w : world) (summary description : string) (duration : Z)
         (tz : option string) (es es' : list entry)
         (scheduled scheduled' : list json) (s s' : state),
    poll_pass w summary description duration tz es scheduled s
      = Returns (es', scheduled') s' ->
    map e_email es' = map e_email es
    /\ map e_refToken es' = map e_refToken es
    /\ Forall2 (fun e e' => e_done e = true -> e' = e) es es'
    /\ (exists added,
          scheduled' = (scheduled ++ added)%list
          /\ (List.length added + count_done es = count_done es')%nat
          /\ (List.length (status_subjects "Accepted" (queue s'))
              = List.length (status_subjects "Accepted" (queue s))
                + List.length added)%nat)
    /\ store_keys (candidate_store s') = store_keys (candidate_store s)
    /\ active_run s' = active_run s.
Proof. intros. eapply poll_pass_accounts. eassumption. Qed.

(** A pass in which [Ada] has replied and is scheduled. *)
Lemma poll_pass_accounts_example :
  exists es' scheduled' s',
    poll_pass lenient_world "Introductory Meeting" "Intro call" 30 None
      [ada_entry] [] initial_state = Returns (es', scheduled') s'
    /\ map e_email es' = ["ada@x.com"]
    /\ count_done es' = 1%nat.
Proof.
  do 3 eexists. split; [reflexivity|].
  match goal with
  | |- map e_email ?es' = _ /\ _ =>
      destruct (poll_pass_resolves_and_schedules_in_step lenient_world
                  "Introductory Meeting" "Intro call" 30%Z None [ada_entry] es'
                  [] _ initial_state _ eq_refl) as (Hm & _)
  end.
  split; [exact Hm|reflexivity].
Defined.

(** With a window of zero minutes or less, and a clock that does not go
    back, the run-flow task makes its sends and then polls nothing.  When
    the window in seconds fits a float, the loop condition fails the first
    time, no reply is looked up, and the task publishes the [candidates]
    event and [done] with an empty list of meetings, and clears the flag.
    When it does not fit, the computation of the deadline raises
    [OverflowError]: the task ends there, after the [candidates] event, with
    the flag cleared. *)
Theorem zero_window_run_polls_nothing :
  forall (w : world) (fuel : nat) (sub tmpl : option string) (cs : list partial)
         (wm pe : Z) (su de : option string) (du : Z) (tz : option string)
         (s s1 : state) (enriched : list entry),
    (forall t, (loop_time w t <= loop_time w (S t))%Z) ->
    (wm <= 0)%Z ->
    flow_send_loop w (py_or_str sub "Hackathon Invitation")
      (py_or_str tmpl "Hi {name}, we'd love to invite you.") [] cs
      (push s ("log", log_event "[Outreach] Starting outreach flow"))
    = Returns enriched s1 ->
    flow_task w (S fuel) (mkFlowPayload sub tmpl cs wm pe su de du tz) s
    = if float_overflows (wm * 60) then
        Raises OverflowError
          {| queue := (queue s1
                       ++ [("candidates", JArr (map contacted_view enriched))])%list;
             active_run := false;
             candidate_store := candidate_store s1;
             ticks := S (ticks s1) |}
      else
        Returns tt
          {| queue := (queue s1
                       ++ [("candidates", JArr (map contacted_view enriched));
                           ("done", JObj [("ok", JBool true);
                                          ("scheduled", JArr [])])])%list;
             active_run := false;
             candidate_store := candidate_store s1;
             ticks := S (S (ticks s1)) |}.
Proof.
  intros w fuel sub tmpl cs wm pe su de du tz s s1 enriched Hmono Hwm Hsend.
  unfold flow_task, try_finally.
  cbn [fp_candidates fp_subject fp_bodyTemplate fp_summary fp_description
       fp_duration fp_timezone fp_windowMinutes fp_pollEverySeconds].
  cbv zeta. rewrite bind_emit. unfold bind at 1. rewrite Hsend.
  rewrite bind_emit. unfold bind at 1. unfold call at 1.
  destruct (float_overflows (wm * 60)).
  - unfold raise, set_active_run, tick, push.
    cbn [queue active_run candidate_store ticks]. reflexivity.
  - unfold bind at 1. rewrite poll_loop_round.
    cbn [ticks push tick].
    assert (Hd : (loop_time w (S (ticks s1))
                  <? loop_time w (ticks s1) + wm * 60)%Z = false).
    { apply Z.ltb_ge. specialize (Hmono (ticks s1)). lia. }
    rewrite Hd. unfold emit, set_active_run, tick, push.
    cbn [queue active_run candidate_store ticks].
    rewrite <- app_assoc. reflexivity.
Qed.

(** The run for [Ada] with a window of zero minutes. *)
Lemma zero_window_run_example :
  exists s',
    flow_task lenient_world 1 (example_flow None [ada]) initial_state
    = Returns tt s'
    /\ payloads "done" (queue s')
       = [JObj [("ok", JBool true); ("scheduled", JArr [])]].
Proof.
  eexists. split.
  - apply (zero_window_run_polls_nothing lenient_world 0 (Some "Hi") None [ada]
             0%Z 20%Z None None 30%Z None initial_state).
    + intros t. simpl. lia.
    + lia.
    + reflexivity.
  - reflexivity.
Defined.

(** ** [run_orchestrator] and its callbacks *)

Lemma always_returns_ret {A} (a : A) : always_returns (ret a).
Proof. intros s. do 2 eexists. reflexivity. Qed.

Lemma always_returns_sleep : always_returns sleep.
Proof. intros s. do 2 eexists. reflexivity. Qed.

Lemma always_returns_bind {A B} (m : M A) (k : A -> M B) :
  always_returns m -> (forall a, always_returns (k a)) ->
  always_returns (bind m k).
Proof.
  intros Hm Hk s. destruct (Hm s) as (a & s1 & H1).
  destruct (Hk a s1) as (b & s2 & H2).
  exists b, s2. unfold bind. rewrite H1. exact H2.
Qed.

Lemma always_returns_when (b : bool) (m : M unit) :
  always_returns m -> always_returns (when b m).
Proof. intros Hm. destruct b; [exact Hm|apply always_returns_ret]. Qed.

(** A callback is called inside [try ... except Exception: pass]: whether
    it returns or raises, the call returns. *)
Lemma always_returns_callback {X} (cb : option (X -> M unit)) (x : X) :
  (forall f, cb = Some f -> settles (f x)) -> always_returns (callback cb x).
Proof.
  intros Hcb s. unfold callback. destruct cb as [f|].
  - destruct (Hcb f eq_refl s) as [H1 H2]. unfold try_except.
    destruct (f x s) as [[] s1|e s1| |]; try congruence; do 2 eexists; reflexivity.
  - do 2 eexists. reflexivity.
Qed.

Lemma outreach_updates_returns (cb_log : option (string -> M unit))
    (cb_status : option (nat * string -> M unit)) (timing : bool)
    (cs : list rec) (idx : nat) :
  (forall f m, cb_log = Some f -> settles (f m)) ->
  (forall f a, cb_status = Some f -> settles (f a)) ->
  always_returns (outreach_updates (callback cb_log) cb_status timing idx cs).
Proof.
  intros Hl Hs. revert idx. induction cs as [|c cs IH]; intros idx;
    cbn [outreach_updates].
  - apply always_returns_ret.
  - apply always_returns_bind; [apply always_returns_callback; intros f; apply Hl|].
    intros _. apply always_returns_bind;
      [apply always_returns_callback; intros f; apply Hs|].
    intros _. apply always_returns_bind;
      [apply always_returns_when, always_returns_sleep|].
    intros _. apply IH.
Qed.

Lemma bind_no_callback {X B} (x : X) (k : unit -> M B) (s : state) :
  bind (callback None x) k s = k tt s.
Proof. reflexivity. Qed.

(** In the offline mode [run_orchestrator] comes back without raising
    whatever its callbacks do: a callback that raises is ignored and the
    script goes on.  Without callbacks it publishes nothing and changes
    nothing; only time passes when the timing is simulated. *)
Theorem offline_orchestrator_ignores_callback_failures :
  forall (w : world) (topic : string),
    dummy_run w = true ->
    (forall (cb_log : option (string -> M unit))
            (cb_found : option (list rec -> M unit))
            (cb_status : option (nat * string -> M unit)) (timing : bool),
        (forall f m, cb_log = Some f -> settles (f m)) ->
        (forall f c, cb_found = Some f -> settles (f c)) ->
        (forall f a, cb_status = Some f -> settles (f a)) ->
        forall s, exists s',
          run_orchestrator w topic cb_log cb_found cb_status timing s
          = Returns tt s')
    /\ (forall s, run_orchestrator w topic None None None false s = Returns tt s)
    /\ (forall s,
          run_orchestrator w topic None None None true s
          = Returns tt {| queue := queue s; active_run := active_run s;
                          candidate_store := candidate_store s;
                          ticks := ticks s + 10 |}).
Proof.
  intros w topic Hd. split; [|split].
  - intros cb_log cb_found cb_status timing Hl Hf Hs s.
    assert (Hr : always_returns
                   (run_orchestrator w topic cb_log cb_found cb_status timing)).
    { unfold run_orchestrator. rewrite Hd.
      repeat first
        [ apply always_returns_bind; [|intros _]
        | apply always_returns_callback; intros f; first [apply Hl|apply Hf|apply Hs]
        | apply always_returns_when, always_returns_sleep
        | apply outreach_updates_returns; assumption
        | apply always_returns_ret ]. }
    destruct (Hr s) as ([] & s' & Hs'). exists s'. exact Hs'.
  - intros s. unfold run_orchestrator. rewrite Hd.
    cbn [when outreach_updates mock_results].
    repeat first [ rewrite bind_assoc | rewrite bind_no_callback | rewrite bind_ret ].
    reflexivity.
  - intros s. unfold run_orchestrator. rewrite Hd.
    cbn [when outreach_updates mock_results].
    repeat first [ rewrite bind_assoc | rewrite bind_no_callback | rewrite bind_ret
                 | rewrite bind_sleep ].
    unfold callback, ret. f_equal.
    apply state_ext; read_state; cbn [queue active_run candidate_store ticks];
      try reflexivity.
    lia.
Qed.

(** The offline run with three callbacks that raise every time. *)
Lemma offline_orchestrator_example :
  exists s',
    run_orchestrator example_world "AI" failing_callback failing_callback
      failing_callback true initial_state = Returns tt s'.
Proof.
  apply (proj1 (offline_orchestrator_ignores_callback_failures example_world "AI"
                  eq_refl)).
  - intros f m [= <-]. apply settles_raise.
  - intros f c [= <-]. apply settles_raise.
  - intros f a [= <-]. apply settles_raise.
Defined.

(** ** The demo trigger *)

#[local] Instance same_registry_progress : Progress same_registry.
Proof.
  split; unfold same_registry.
  - intros s. split; reflexivity.
  - intros a b c [H1 H2] [H3 H4]. split; congruence.
Qed.

Lemma same_registry_emit (kind : string) (data : json) :
  keeps same_registry (emit kind data).
Proof. intros s. split; reflexivity. Qed.

Lemma same_registry_sleep : keeps same_registry sleep.
Proof. intros s. split; reflexivity. Qed.

Lemma same_registry_update_status (e : string) (st : option string) :
  keeps same_registry
    (with_store (fun store0 => (fst (update_status store0 e st), tt))).
Proof.
  intros s. unfold with_store. split; [|reflexivity].
  cbn [candidate_store]. apply update_status_keys.
Qed.

Lemma simulate_contacts_same_registry (enriched : list rec) :
  keeps same_registry (simulate_contacts enriched).
Proof.
  induction enriched as [|e rest IH]; cbn [simulate_contacts].
  - apply keeps_ret. typeclasses eauto.
  - repeat first
      [ apply keeps_bind; [typeclasses eauto | | intros ?]
      | apply same_registry_emit | apply same_registry_sleep
      | apply same_registry_update_status | exact IH ].
Qed.

Lemma simulate_outreach_sequence_same_registry (enriched : list rec) :
  keeps same_registry (_simulate_outreach_sequence enriched).
Proof.
  unfold _simulate_outreach_sequence.
  apply keeps_bind; [typeclasses eauto | apply same_registry_emit | intros _].
  apply keeps_bind;
    [typeclasses eauto | apply simulate_contacts_same_registry | intros _].
  apply keeps_bind; [typeclasses eauto | | intros _].
  - destruct enriched as [|first rest].
    + apply keeps_ret. typeclasses eauto.
    + repeat first
        [ apply keeps_bind; [typeclasses eauto | | intros ?]
        | apply same_registry_emit | apply same_registry_sleep
        | apply same_registry_update_status ].
  - repeat first
      [ apply keeps_bind; [typeclasses eauto | | intros ?]
      | apply same_registry_emit | apply same_registry_sleep ].
Qed.

Lemma count_kind_app (kind : string) (q1 q2 : list (string * json)) :
  count_kind kind (q1 ++ q2) = (count_kind kind q1 + count_kind kind q2)%nat.
Proof. unfold count_kind. rewrite filter_app, length_app. reflexivity. Qed.

Lemma count_kind_payloads (kind : string) (q : list (string * json)) :
  count_kind kind q = List.length (payloads kind q).
Proof. unfold count_kind, payloads. rewrite length_map. reflexivity. Qed.

Lemma count_done_simulated_events (enriched : list rec) :
  count_kind "done" (simulated_events enriched) = 1%nat.
Proof.
  rewrite count_kind_payloads. unfold simulated_events.
  rewrite !payloads_app, payloads_contact_events by discriminate.
  destruct enriched; reflexivity.
Qed.

(** [POST /demo/start-outreach] always comes back, and its run always
    publishes exactly one [done] event: at once, with [ok] false, when the
    registry is empty, and at the end of the simulated sequence otherwise.
    It adds no candidate to the registry, removes none, and leaves the
    run-active flag as it found it. *)
Theorem demo_start_outreach_publishes_one_done :
  forall (s : state),
    exists resp s',
      to_completion demo_start_outreach s = Returns resp s'
      /\ count_kind "done" (queue s') = S (count_kind "done" (queue s))
      /\ store_keys (candidate_store s') = store_keys (candidate_store s)
      /\ active_run s' = active_run s
      /\ (candidate_store s = [] ->
          resp = JObj [("ok", JBool false); ("reason", JStr "no candidates")]
          /\ candidate_store s' = []).
Proof.
  intros s. unfold to_completion, demo_start_outreach.
  unfold bind at 1. unfold bind at 1. unfold with_store at 1.
  unfold all, store_values. destruct (candidate_store s) as [|[k r] st] eqn:Hst.
  - cbn [map]. do 2 eexists. split; [reflexivity|].
    cbn [queue active_run candidate_store].
    rewrite !count_kind_snoc. simpl. repeat split; auto. lia.
  - cbn [map snd]. unfold ret at 1. cbn [fst snd].
    set (s0 := {| queue := queue s; active_run := active_run s;
                  candidate_store := (k, r) :: st; ticks := ticks s |}).
    set (enriched := r :: map snd st).
    unfold bind at 1.
    destruct (simulate_outreach_sequence_eq enriched s0) as (st' & n & Heq).
    pose proof (simulate_outreach_sequence_same_registry enriched s0) as Hk.
    rewrite Heq in Hk |- *. destruct Hk as [Hk Ha].
    do 2 eexists. split; [reflexivity|].
    cbn [queue active_run candidate_store] in *.
    rewrite count_kind_app, count_done_simulated_events.
    subst s0. cbn [queue active_run candidate_store] in *.
    repeat split; auto; try lia; try discriminate.
Qed.

(** ** The endpoints for one candidate *)

(** [POST /outreach/schedule-meeting] without an email (missing, [null] or
    empty) or without a selected time answers 400 and changes nothing.
    Otherwise it always answers with success and publishes a log and a
    [Scheduled] event, whether or not the candidate is in the registry: a
    known candidate gets the status [Scheduled] and keeps its other fields,
    an unknown one is not added and the registry stays as it was.  The log
    names the candidate by its name, by its email when the request has no
    name, and by the word [None] when the name is [null].  The meeting link
    and the event id are built from the same meeting id. *)
Theorem schedule_individual_meeting_does_not_need_a_known_candidate :
  forall (w : world) (sv : services) (payload : meeting_payload) (s : state),
    let c := mp_candidate payload in
    let to := str_of_opt (field_get (i_email c)) in
    let selected_time := str_of_opt (mp_selectedTime payload) in
    let called :=
      match i_name c with
      | Given nm => nm
      | Missing => to
      | IsNull => "None"
      end in
    if truthy (field_get (i_email c)) && truthy (mp_selectedTime payload) then
      schedule_individual_meeting w sv payload s
      = Returns
          (JObj [("ok", JBool true);
                 ("meetingLink",
                  JStr ("https://meet.google.com/" ++ meeting_id w to selected_time));
                 ("eventId", JStr ("event_" ++ meeting_id w to selected_time));
                 ("scheduledTime", JStr selected_time);
                 ("message", JStr ("Meeting scheduled for " ++ selected_time))])
          {| queue := (queue s
                       ++ [("log", log_event ("Meeting scheduled with " ++ called
                                              ++ " for " ++ selected_time));
                           ("candidate_status",
                            status_event to (Some "Scheduled"))])%list;
             active_run := active_run s;
             candidate_store :=
               match store_get (candidate_store s) to with
               | None => candidate_store s
               | Some r =>
                   store_set (candidate_store s) to
                     (mkRec (name r) (email r) (expertise r) (Some "Scheduled")
                        (refToken r))
               end;
             ticks := ticks s |}
    else
      schedule_individual_meeting w sv payload s
      = Raises (HTTPException 400 "candidate email and selectedTime required") s.
Proof.
  intros w sv payload s c to selected_time called.
  unfold schedule_individual_meeting. fold c.
  destruct (truthy (field_get (i_email c))); [|reflexivity].
  destruct (truthy (mp_selectedTime payload)); [|reflexivity].
  cbn [negb orb andb]. cbv zeta. unfold or_http_500.
  unfold bind, with_store, emit, ret, update_status. fold to.
  assert (Hcalled : py_str (field_get_or (i_name c) to) = called).
  { unfold called. destruct (i_name c); reflexivity. }
  rewrite Hcalled.
  destruct (store_get (candidate_store s) to) as [r|];
    cbn [fst snd queue active_run candidate_store ticks];
    rewrite <- app_assoc; reflexivity.
Qed.

Lemma rendered_body_keeps_state (c : individual) (template : option string)
    (s : state) :
  match rendered_body c template s with
  | Returns _ s' | Raises _ s' => s' = s
  | OutOfFuel => False
  | Unmodelled => True
  end.
Proof.
  unfold rendered_body, lift, raise. destruct template as [tm|]; [|reflexivity].
  destruct (str_format tm (py_str (field_get_or (i_name c) "there")))
    as [[b|x]|]; auto.
Qed.

Lemma enhanced_body_keeps_state (sv : services) (c : individual)
    (template : option string) (s : state) :
  match enhanced_body sv c template s with
  | Returns _ s' | Raises _ s' =>
      queue s' = queue s /\ candidate_store s' = candidate_store s
      /\ active_run s' = active_run s
  | OutOfFuel => False
  | Unmodelled => True
  end.
Proof.
  unfold enhanced_body. unfold bind at 1. unfold call at 1.
  destruct (openai_key sv (ticks s)) as [[|]|x].
  - unfold try_except, call.
    match goal with
    | |- context [gpt_enhance sv ?a ?b ?c ?d] => destruct (gpt_enhance sv a b c d)
    end.
    + cbn. auto.
    + pose proof (rendered_body_keeps_state c template (tick (tick s))) as Hr.
      destruct (rendered_body c template (tick (tick s))); try exact Hr;
        subst; cbn; auto.
  - pose proof (rendered_body_keeps_state c template (tick s)) as Hr.
    destruct (rendered_body c template (tick s)); try exact Hr; subst; cbn; auto.
  - cbn. auto.
Qed.

(** [POST /outreach/send-individual] is all or nothing.  Without an email
    (missing, [null] or empty) it answers 400 and changes nothing.  Any
    failure after that (the OpenAI import, the rendering of the template, a
    [null] template that has to be rendered) is answered as a 500 and leaves
    the queue, the registry and the flag as they were.  When it answers with success, the token of
    the answer is the token of the email and the subject (of the email and
    [None] when the subject is [null]), the registry holds the candidate as
    [Contacted] with that same token, and a log and a [Contacted] event have
    been published; the log names the candidate by its name, by its email
    when the request has no name, and by the word [None] when the name is
    [null]. *)
Theorem send_individual_email_is_all_or_nothing :
  forall (w : world) (sv : services) (c : individual) (subject tmpl : field)
         (s : state),
    let to := str_of_opt (field_get (i_email c)) in
    let ref :=
      match subject with
      | Given sub => ref_token w to sub
      | Missing => ref_token w to "Hackathon Invitation"
      | IsNull => ref_of_hash (py_hash_none sv to)
      end in
    let called :=
      match i_name c with
      | Given nm => nm
      | Missing => to
      | IsNull => "None"
      end in
    match send_individual_email w sv c subject tmpl s with
    | Returns resp s' =>
        truthy (field_get (i_email c)) = true
        /\ (exists body timestamp,
              resp = JObj [("ok", JBool true); ("to", JStr to); ("refToken", JStr ref);
                           ("subject",
                            match subject with
                            | Given sub => JStr sub
                            | Missing => JStr "Hackathon Invitation"
                            | IsNull => JNull
                            end);
                           ("body", JStr body); ("timestamp", JNum timestamp)])
        /\ contacted_with (candidate_store s') to ref
        /\ queue s'
           = (queue s
              ++ [("log", log_event ("Enhanced email sent to " ++ called));
                  ("candidate_status", status_event to (Some "Contacted"))])%list
        /\ active_run s' = active_run s
    | Raises e s' =>
        (e = HTTPException 400 "candidate email required"
         /\ s' = s /\ truthy (field_get (i_email c)) = false)
        \/ (exists detail, e = HTTPException 500 detail)
           /\ queue s' = queue s /\ candidate_store s' = candidate_store s
           /\ active_run s' = active_run s
    | OutOfFuel => False
    | Unmodelled => True
    end.
Proof.
  intros w sv c subject tmpl s to ref called. unfold send_individual_email.
  destruct (truthy (field_get (i_email c))) eqn:Hc; cbn [negb].
  - pose proof (truthy_nonempty _ Hc) as Hne. fold to in Hne.
    cbv zeta. unfold or_http_500. unfold bind at 1.
    pose proof (enhanced_body_keeps_state sv c
                  (field_get_or tmpl "Hi {name}, we'd love to invite you.") s) as Hb.
    destruct (enhanced_body sv c _ s) as [body s1|x s1| |]; try exact Hb.
    + destruct Hb as (Hq & Hst & Ha).
      assert (Href : individual_ref_token w sv to
                       (field_get_or subject "Hackathon Invitation") = ref).
      { unfold ref. destruct subject; reflexivity. }
      assert (Hcalled : py_str (field_get_or (i_name c) to) = called).
      { unfold called. destruct (i_name c); reflexivity. }
      fold to. rewrite Href, Hcalled.
      unfold bind, call, with_store, emit, ret.
      cbn [fst snd queue active_run candidate_store ticks tick].
      split; [reflexivity|].
      split; [do 2 eexists; destruct subject; reflexivity|].
      split.
      { unfold contacted_with, load. cbn [fst fold_left].
        set (p := mkPartial (field_get (i_name c)) (Some to)
                    (field_get_or (i_expertise c) "") (Some "Contacted")).
        assert (Hg : exists r0, store_get (load_one (candidate_store s1) p) to
                                = Some r0 /\ status r0 = Some "Contacted").
        { rewrite load_one_get. unfold has_email. cbn [p_email p].
          apply String.eqb_neq in Hne. rewrite Hne, String.eqb_refl.
          eexists. split; reflexivity. }
        destruct Hg as (r0 & Hg & Hs). unfold set_ref. rewrite Hg.
        eexists. rewrite store_get_set_same. repeat split. exact Hs. }
      split; [|exact Ha].
      rewrite Hq, <- app_assoc. reflexivity.
    + right. destruct Hb as (Hq & Hst & Ha). split; [eexists; reflexivity|].
      repeat split; assumption.
  - left. repeat split.
Qed.

(** [POST /outreach/check-response] only reads.  With a token and an email it
    never fails (a failure of the analysis call is swallowed): it answers
    either that there is no response yet, or with one of the four canned
    replies, and a negative reply carries no time slot.  Without them it
    answers 400.  In every case the queue, the registry and the flag are
    left as they were: the registry is not told about the reply. *)
Theorem check_individual_response_only_reads :
  forall (sv : services) (ref_token candidate_email : option string) (s : state),
    match check_individual_response sv ref_token candidate_email s with
    | Returns resp s' =>
        truthy ref_token = true /\ truthy candidate_email = true
        /\ (resp = JObj [("ok", JBool true); ("hasResponse", JBool false);
                         ("message", JStr "No response yet")]
            \/ exists text is_positive times,
                 In (text, is_positive, times) simulated_responses
                 /\ resp = response_json (text, is_positive, times)
                 /\ (is_positive = false -> times = []))
        /\ queue s' = queue s /\ candidate_store s' = candidate_store s
        /\ active_run s' = active_run s
    | Raises e s' =>
        e = HTTPException 400 "refToken and candidateEmail required" /\ s' = s
        /\ (truthy ref_token = false \/ truthy candidate_email = false)
    | OutOfFuel | Unmodelled => False
    end.
Proof.
  intros sv ref_token candidate_email s. unfold check_individual_response.
  destruct (truthy ref_token) eqn:Hr; destruct (truthy candidate_email) eqn:Hc;
    cbn [negb orb]; try (unfold raise; repeat split; auto; fail).
  unfold or_http_500, bind, call, try_except, ret.
  destruct ((py_hash_str sv (str_of_opt ref_token) mod 100
             + wall_time sv (ticks s) mod 60) mod 100 <? 30)%Z; cbn [negb].
  - set (pick := random_choice sv (ticks (tick s))).
    assert (Hin : In (nth (pick mod 4) simulated_responses ("", false, []))
                     simulated_responses).
    { apply nth_In. cbn [simulated_responses List.length].
      apply Nat.mod_upper_bound. discriminate. }
    assert (Hneg : forall r, In r simulated_responses ->
                     snd (fst r) = false -> snd r = []).
    { intros r Hr'. unfold simulated_responses in Hr'. cbn [In] in Hr'.
      destruct Hr' as [<-|[<-|[<-|[<-|[]]]]]; cbn; intros; congruence. }
    pose proof (Hneg _ Hin) as Hn.
    destruct (nth (pick mod 4) simulated_responses ("", false, []))
      as [[text is_positive] times] eqn:Hnth.
    cbn [fst snd] in *.
    match goal with
    | |- context [gpt_analyse ?a ?b ?c] => destruct (gpt_analyse a b c)
    end;
      (split; [reflexivity|]; split; [reflexivity|]; split;
       [right; exists text, is_positive, times; repeat split; assumption
       |repeat split]).
  - cbn. repeat split; auto.
Qed.

(** ** The reply endpoints *)

Lemma dict_set_keys_in (d : list (string * json)) (k : string) (v : json) (x : string) :
  In x (map fst (dict_set d k v)) <-> In x (map fst d) \/ x = k.
Proof.
  induction d as [|[k0 v0] d IH]; cbn [dict_set map fst In].
  - intuition.
  - destruct (k0 =? k) eqn:Hk; cbn [map fst In].
    + apply String.eqb_eq in Hk. subst k0. intuition.
    + rewrite IH. intuition.
Qed.

Lemma dict_set_NoDup (d : list (string * json)) (k : string) (v : json) :
  NoDup (map fst d) -> NoDup (map fst (dict_set d k v)).
Proof.
  induction d as [|[k0 v0] d IH]; cbn [dict_set map fst]; intros Hnd.
  - constructor; [intros []|constructor].
  - inversion Hnd as [|? ? Hnin Hnd']; subst.
    destruct (k0 =? k) eqn:Hk; cbn [map fst].
    + constructor; assumption.
    + constructor; [|apply IH; assumption].
      rewrite dict_set_keys_in. intros [Hin | ->]; [contradiction|].
      rewrite String.eqb_refl in Hk. discriminate.
Qed.

Lemma check_replies_loop_accounts (w : world) (refs : list string) :
  forall (found : list (string * json)) (s : state),
    NoDup (map fst found) ->
    match check_replies_loop w found refs s with
    | Returns found' s' =>
        NoDup (map fst found')
        /\ (forall k, In k (map fst found') <-> In k (map fst found) \/ In k refs)
        /\ queue s' = queue s /\ candidate_store s' = candidate_store s
        /\ active_run s' = active_run s
        /\ ticks s' = (ticks s + List.length refs)%nat
    | Raises e s' =>
        refs <> []
        /\ queue s' = queue s /\ candidate_store s' = candidate_store s
        /\ active_run s' = active_run s
    | OutOfFuel | Unmodelled => False
    end.
Proof.
  induction refs as [|ref refs IH]; intros found s Hnd; cbn [check_replies_loop].
  - unfold ret. cbn [List.length In]. rewrite Nat.add_0_r. intuition.
  - unfold bind, call.
    destruct (search_replies_by_ref_token (tools w) (ticks s) ref) as [msgs|e].
    + specialize (IH (dict_set found ref (JArr msgs)) (tick s)
                     (dict_set_NoDup _ _ _ Hnd)).
      destruct (check_replies_loop w (dict_set found ref (JArr msgs)) refs (tick s))
        as [found' s'|e s'| |]; try exact IH.
      * destruct IH as (Hnd' & Hk & Hq & Hst & Ha & Ht).
        cbn [tick queue candidate_store active_run ticks] in *.
        repeat split; try assumption.
        -- intros Hin. apply Hk in Hin. rewrite dict_set_keys_in in Hin.
           cbn [In]. intuition.
        -- intros Hin. apply Hk. rewrite dict_set_keys_in. cbn [In] in Hin.
           intuition.
        -- cbn [List.length]. lia.
      * destruct IH as (_ & Hq & Hst & Ha).
        cbn [tick queue candidate_store active_run] in *.
        repeat split; try assumption. discriminate.
    + cbn [tick queue candidate_store active_run]. repeat split. discriminate.
Qed.

(** [POST /outreach/check-replies] makes one lookup per token of the list,
    in order, and changes nothing else.  When it answers, the [replies]
    object has exactly the tokens of the list as keys, each once, also when
    the list repeats a token.  It handles no exception: the first lookup
    that raises ends the request with that exception. *)
Theorem check_replies_answers_for_each_distinct_token :
  forall (w : world) (refs : list string) (s : state),
    match check_replies w refs s with
    | Returns resp s' =>
        (exists found,
           resp = JObj [("ok", JBool true); ("replies", JObj found)]
           /\ NoDup (map fst found)
           /\ (forall k, In k (map fst found) <-> In k refs))
        /\ queue s' = queue s /\ candidate_store s' = candidate_store s
        /\ active_run s' = active_run s
        /\ ticks s' = (ticks s + List.length refs)%nat
    | Raises e s' =>
        (exists before ref after,
           refs = (before ++ ref :: after)%list
           /\ search_replies_by_ref_token (tools w)
                (ticks s + List.length before)%nat ref = Raise e)
        /\ queue s' = queue s /\ candidate_store s' = candidate_store s
        /\ active_run s' = active_run s
    | OutOfFuel | Unmodelled => False
    end.
Proof.
  intros w refs s. unfold check_replies, bind.
  pose proof (check_replies_loop_accounts w refs [] s (NoDup_nil _)) as H.
  assert (Hraise : forall refs found s e s',
            check_replies_loop w found refs s = Raises e s' ->
            exists before ref after,
              refs = (before ++ ref :: after)%list
              /\ search_replies_by_ref_token (tools w)
                   (ticks s + List.length before)%nat ref = Raise e).
  { clear. induction refs as [|ref refs IH]; intros found s e s' Hr;
      cbn [check_replies_loop] in Hr.
    - discriminate.
    - unfold bind, call in Hr.
      destruct (search_replies_by_ref_token (tools w) (ticks s) ref) as [msgs|e0] eqn:Hs.
      + destruct (check_replies_loop w (dict_set found ref (JArr msgs)) refs (tick s))
          as [f1 s1|e1 s1| |] eqn:Hl; try discriminate.
        inversion Hr; subst e1 s1.
        destruct (IH _ _ _ _ Hl) as (before & r & after & -> & Hc).
        exists (ref :: before), r, after. split; [reflexivity|].
        cbn [List.length tick ticks] in *.
        replace (ticks s + S (List.length before))%nat
          with (S (ticks s) + List.length before)%nat by lia.
        exact Hc.
      + inversion Hr; subst e0 s'.
        exists [], ref, refs. split; [reflexivity|].
        cbn [List.length]. rewrite Nat.add_0_r. exact Hs. }
  destruct (check_replies_loop w [] refs s) as [found s'|e s'| |] eqn:Hl;
    try exact H.
  - destruct H as (Hnd & Hk & Hq & Hst & Ha & Ht). unfold ret.
    repeat split; try assumption.
    exists found. repeat split; try assumption.
    + intros Hin. apply Hk in Hin. cbn [map In] in Hin. intuition.
    + intros Hin. apply Hk. right. exact Hin.
  - destruct H as (_ & Hq & Hst & Ha).
    repeat split; try assumption. exact (Hraise _ _ _ _ _ Hl).
Qed.

Lemma schedule_on_reply_one_accounts (w : world) summary description duration tz
    (scheduled : list json) (c : reply_candidate) (s : state) :
  match schedule_on_reply_one w summary description duration tz scheduled c s with
  | Returns scheduled' s' =>
      exists added n,
        queue s' = (queue s ++ added)%list
        /\ one_status_per_meeting n added
        /\ List.length scheduled' = (List.length scheduled + n)%nat
        /\ store_keys (candidate_store s') = store_keys (candidate_store s)
        /\ active_run s' = active_run s
        /\ ticks s' = (ticks s + (if complete c then 1 else 0) + n)%nat
  | Raises e s' =>
      complete c = true
      /\ queue s' = queue s /\ candidate_store s' = candidate_store s
      /\ active_run s' = active_run s
  | OutOfFuel | Unmodelled => False
  end.
Proof.
  unfold schedule_on_reply_one, complete.
  destruct (truthy (rc_email c)); destruct (truthy (rc_refToken c)); cbn [negb orb andb];
    try (unfold ret; exists [], 0%nat; rewrite app_nil_r, !Nat.add_0_r;
         repeat split; reflexivity).
  unfold bind at 1. unfold call at 1.
  destruct (search_replies_by_ref_token (tools w) (ticks s)
              (str_of_opt (rc_refToken c))) as [[|m msgs]|e].
  - unfold ret. exists [], 0%nat. cbn [tick queue candidate_store active_run ticks].
    rewrite app_nil_r. repeat split; try reflexivity; lia.
  - unfold bind at 1. unfold call at 1. cbn [tick ticks].
    destruct (schedule_meeting (tools w) (S (ticks s)) [str_of_opt (rc_email c)]
                summary description duration tz) as [res|e].
    + unfold bind, with_store, emit, ret.
      cbn [tick queue candidate_store active_run ticks fst snd].
      destruct (update_status (candidate_store s) (str_of_opt (rc_email c))
                  (Some "Accepted")) as [st' found] eqn:Hu.
      cbn [queue candidate_store active_run ticks fst snd].
      eexists [_; _], 1%nat. rewrite <- app_assoc. cbn [app].
      split; [reflexivity|]. split; [repeat split|].
      split; [rewrite length_app; reflexivity|].
      split; [|split; [reflexivity|lia]].
      change st' with (fst (st', found)). rewrite <- Hu. apply update_status_keys.
    + cbn [tick queue candidate_store active_run]. repeat split.
  - cbn [tick queue candidate_store active_run]. repeat split.
Qed.

Lemma schedule_on_reply_loop_accounts (w : world) summary description duration tz
    (cs : list reply_candidate) :
  forall (scheduled : list json) (s : state),
    match schedule_on_reply_loop w summary description duration tz scheduled cs s with
    | Returns scheduled' s' =>
        exists added n,
          queue s' = (queue s ++ added)%list
          /\ one_status_per_meeting n added
          /\ List.length scheduled' = (List.length scheduled + n)%nat
          /\ store_keys (candidate_store s') = store_keys (candidate_store s)
          /\ active_run s' = active_run s
          /\ ticks s' = (ticks s + List.length (filter complete cs) + n)%nat
    | Raises e s' =>
        (exists c, In c cs /\ complete c = true)
        /\ (exists added n,
              queue s' = (queue s ++ added)%list /\ one_status_per_meeting n added)
        /\ store_keys (candidate_store s') = store_keys (candidate_store s)
        /\ active_run s' = active_run s
    | OutOfFuel | Unmodelled => False
    end.
Proof.
  induction cs as [|c cs IH]; intros scheduled s; cbn [schedule_on_reply_loop].
  - unfold ret. exists [], 0%nat. cbn [filter List.length].
    rewrite app_nil_r, !Nat.add_0_r. repeat split; reflexivity.
  - unfold bind.
    pose proof (schedule_on_reply_one_accounts w summary description duration tz
                  scheduled c s) as H1.
    destruct (schedule_on_reply_one w summary description duration tz scheduled c s)
      as [sch1 s1|e s1| |]; try exact H1.
    + destruct H1 as (a1 & n1 & Hq1 & (Hc1 & Hl1 & Hd1) & Hn1 & Hk1 & Ha1 & Ht1).
      specialize (IH sch1 s1).
      destruct (schedule_on_reply_loop w summary description duration tz sch1 cs s1)
        as [sch2 s2|e s2| |]; try exact IH.
      * destruct IH as (a2 & n2 & Hq2 & (Hc2 & Hl2 & Hd2) & Hn2 & Hk2 & Ha2 & Ht2).
        exists (a1 ++ a2)%list, (n1 + n2)%nat.
        split; [rewrite Hq2, Hq1, app_assoc; reflexivity|].
        split; [unfold one_status_per_meeting; rewrite !count_kind_app; lia|].
        split; [lia|]. split; [congruence|]. split; [congruence|].
        cbn [filter]. destruct (complete c); cbn [List.length]; lia.
      * destruct IH as ((c' & Hin & Hc') & (a2 & n2 & Hq2 & (Hc2 & Hl2 & Hd2))
                        & Hk2 & Ha2).
        split; [exists c'; split; [right; exact Hin|exact Hc']|].
        split; [|split; congruence].
        exists (a1 ++ a2)%list, (n1 + n2)%nat.
        split; [rewrite Hq2, Hq1, app_assoc; reflexivity|].
        unfold one_status_per_meeting; rewrite !count_kind_app; lia.
    + destruct H1 as (Hc & Hq & Hst & Ha).
      split; [exists c; split; [left; reflexivity|exact Hc]|].
      split; [|split; congruence].
      exists [], 0%nat. rewrite app_nil_r. repeat split; assumption.
Qed.

(** [POST /outreach/schedule-on-reply] skips a candidate that lacks an email
    or a token without any lookup, makes one lookup for every other
    candidate and one calendar call for every candidate whose lookup found
    something.  When it answers, the [scheduled] list has one element per
    calendar call, and for each of them one [candidate_status] and one
    [log] event were published; no [done] event is published, no record is
    added to the registry and the flag is untouched.  When a lookup or a
    calendar call raises, the request ends with that exception and what
    earlier candidates caused stays published. *)
Theorem schedule_on_reply_publishes_one_status_per_meeting :
  forall (w : world) (candidates : list reply_candidate)
         (summary description : option string) (duration : Z)
         (timezone_name : option string) (s : state),
    match schedule_on_reply w candidates summary description duration
            timezone_name s with
    | Returns resp s' =>
        exists scheduled added,
          resp = JObj [("ok", JBool true); ("scheduled", JArr scheduled)]
          /\ queue s' = (queue s ++ added)%list
          /\ one_status_per_meeting (List.length scheduled) added
          /\ store_keys (candidate_store s') = store_keys (candidate_store s)
          /\ active_run s' = active_run s
          /\ ticks s' = (ticks s + List.length (filter complete candidates)
                         + List.length scheduled)%nat
    | Raises e s' =>
        (exists c, In c candidates /\ complete c = true)
        /\ (exists added n,
              queue s' = (queue s ++ added)%list /\ one_status_per_meeting n added)
        /\ store_keys (candidate_store s') = store_keys (candidate_store s)
        /\ active_run s' = active_run s
    | OutOfFuel | Unmodelled => False
    end.
Proof.
  intros w candidates summary description duration tz s.
  unfold schedule_on_reply, bind.
  pose proof (schedule_on_reply_loop_accounts w
                (py_or_str summary "Introductory Meeting")
                (py_or_str description "Intro call") duration tz candidates [] s) as H.
  destruct (schedule_on_reply_loop w _ _ duration tz [] candidates s)
    as [scheduled s'|e s'| |]; try exact H.
  destruct H as (added & n & Hq & Hone & Hn & Hk & Ha & Ht).
  cbn [List.length Nat.add] in Hn. subst n. unfold ret.
  exists scheduled, added. repeat split; try assumption; apply Hone.
Qed.

Lemma schedule_on_reply_loop_without_lookup (gmail_send : nat -> string -> string -> string -> outcome (option string))
    (calendar : nat -> list string -> string -> string -> Z -> option string -> outcome string)
    (w : world) summary description duration tz (cs : list reply_candidate) :
  tools w = CommunicationTools gmail_send calendar ->
  forall scheduled s,
    schedule_on_reply_loop w summary description duration tz scheduled cs s
    = if existsb complete cs then Raises AttributeError (tick s)
      else Returns scheduled s.
Proof.
  intros Ht. induction cs as [|c cs IH]; intros scheduled s;
    cbn [schedule_on_reply_loop existsb]; [reflexivity|].
  unfold bind, schedule_on_reply_one. fold (complete c).
  unfold complete at 1.
  destruct (truthy (rc_email c)) eqn:He; destruct (truthy (rc_refToken c)) eqn:Hr;
    unfold complete at 1; rewrite ?He, ?Hr; cbn [negb orb andb];
    try (unfold ret; apply IH).
  unfold bind, call. rewrite Ht. reflexivity.
Qed.

(** With [CommunicationTools] as the repository defines it (the class has no
    [search_replies_by_ref_token]) the two reply endpoints cannot look
    anything up: [check-replies] ends with [AttributeError] for every
    non-empty list of tokens, and [schedule-on-reply] ends with it as soon
    as one candidate has both an email and a token, before anything is
    scheduled or published; otherwise [schedule-on-reply] answers with an
    empty [scheduled] list. *)
Theorem reply_endpoints_need_a_lookup_the_tools_lack :
  forall (w : world)
         (gmail_send : nat -> string -> string -> string -> outcome (option string))
         (calendar : nat -> list string -> string -> string -> Z -> option string
                     -> outcome string),
    tools w = CommunicationTools gmail_send calendar ->
    forall (s : state),
      (forall ref refs,
         check_replies w (ref :: refs) s = Raises AttributeError (tick s))
      /\ (forall candidates summary description duration timezone_name,
            schedule_on_reply w candidates summary description duration
              timezone_name s
            = if existsb complete candidates
              then Raises AttributeError (tick s)
              else Returns (JObj [("ok", JBool true); ("scheduled", JArr [])]) s).
Proof.
  intros w gmail_send calendar Ht s. split.
  - intros ref refs. unfold check_replies, bind. cbn [check_replies_loop].
    unfold bind, call. rewrite Ht. reflexivity.
  - intros candidates summary description duration tz.
    unfold schedule_on_reply, bind.
    rewrite (schedule_on_reply_loop_without_lookup gmail_send calendar w _ _ _ _ _ Ht).
    destruct (existsb complete candidates); reflexivity.
Qed.

Lemma reply_endpoints_need_a_lookup_example :
  check_replies example_world ["a1"] initial_state
  = Raises AttributeError (tick initial_state)
  /\ schedule_on_reply example_world
       [mkReplyCandidate (Some "ada@x.com") None;
        mkReplyCandidate (Some "bob@x.com") (Some "b2")]
       None None 30 None initial_state
     = Raises AttributeError (tick initial_state).
Proof.
  destruct (reply_endpoints_need_a_lookup_the_tools_lack example_world
              example_gmail example_calendar eq_refl initial_state) as [H1 H2].
  split; [apply H1|].
  exact (H2 [mkReplyCandidate (Some "ada@x.com") None;
             mkReplyCandidate (Some "bob@x.com") (Some "b2")] None None 30%Z None).
Defined.

(** ** [POST /speakers/find] *)

Lemma find_and_create_sheet_url (sv : services) (requirements : string)
    (max_results : Z) (s : state) :
  match find_and_create_sheet sv requirements max_results s with
  | Returns url s' =>
      (url = None
       \/ exists id, id <> ""
            /\ url = Some ("https://docs.google.com/spreadsheets/d/" ++ id ++ "/edit"))
      /\ queue s' = queue s /\ candidate_store s' = candidate_store s
      /\ active_run s' = active_run s
  | Raises e s' =>
      queue s' = queue s /\ candidate_store s' = candidate_store s
      /\ active_run s' = active_run s
  | OutOfFuel | Unmodelled => False
  end.
Proof.
  unfold find_and_create_sheet, bind, call.
  destruct (search_speakers sv (ticks s) requirements max_results) as [[|sp sps]|e];
    try (cbn; repeat split; auto; fail).
  unfold create_speakers_spreadsheet. cbn [tick ticks].
  destruct (sheets_create sv (S (ticks s)) (sp :: sps) ("Speakers - " ++ requirements))
    as [id|e].
  - destruct (truthy (Some id)) eqn:Hid; unfold ret;
      cbn [tick queue candidate_store active_run]; repeat split; auto.
    right. exists id. split; [|reflexivity].
    apply (truthy_nonempty (Some id) Hid).
  - destruct e; cbn; repeat split; auto.
Qed.

(** Every failure of [POST /speakers/find] is answered as a 500: the check
    for a missing topic raises its 400 inside the [try] whose handler turns
    any exception into a 500, so a request without a topic gets a 500 whose
    detail quotes the 400.  The endpoint answers with success only with the
    address of a spreadsheet whose id is not empty, and in no case touches
    the queue, the registry or the flag. *)
Theorem find_speakers_answers_every_failure_as_500 :
  forall (sv : services) (topic : option string) (max_results : option Z) (s : state),
    match find_speakers sv topic max_results s with
    | Returns resp s' =>
        get_default topic "" <> ""
        /\ (exists id n message,
              id <> ""
              /\ resp = JObj [("ok", JBool true);
                              ("spreadsheet_url",
                               JStr ("https://docs.google.com/spreadsheets/d/"
                                     ++ id ++ "/edit"));
                              ("topic", JStr (get_default topic ""));
                              ("max_results", JNum n); ("message", JStr message)])
        /\ queue s' = queue s /\ candidate_store s' = candidate_store s
        /\ active_run s' = active_run s
    | Raises e s' =>
        (exists detail, e = HTTPException 500 ("Error finding speakers: " ++ detail))
        /\ (get_default topic "" = "" ->
            e = HTTPException 500
                  ("Error finding speakers: "
                   ++ exn_str sv (HTTPException 400 "Topic is required"))
            /\ s' = s)
        /\ queue s' = queue s /\ candidate_store s' = candidate_store s
        /\ active_run s' = active_run s
    | OutOfFuel | Unmodelled => False
    end.
Proof.
  intros sv topic max_results s. unfold find_speakers, or_http_500.
  destruct (get_default topic "" =? "") eqn:Ht.
  - unfold raise. apply String.eqb_eq in Ht.
    split; [eexists; reflexivity|]. repeat split; reflexivity.
  - apply String.eqb_neq in Ht. unfold bind.
    pose proof (find_and_create_sheet_url sv (get_default topic "")
                  (match max_results with Some n => n | None => 20%Z end) s) as H.
    destruct (find_and_create_sheet sv (get_default topic "") _ s)
      as [url s'|e s'| |]; try exact H.
    + destruct H as ([->|(id & Hid & ->)] & Hq & Hst & Ha).
      * cbn [truthy]. unfold raise.
        split; [eexists; reflexivity|]. split; [intros; contradiction|].
        repeat split; assumption.
      * destruct (truthy (Some ("https://docs.google.com/spreadsheets/d/"
                                ++ id ++ "/edit"))) eqn:Hu.
        -- unfold ret. split; [exact Ht|].
           split; [|repeat split; assumption].
           exists id. do 2 eexists. split; [exact Hid|reflexivity].
        -- discriminate Hu.
    + destruct H as (Hq & Hst & Ha).
      split; [eexists; reflexivity|]. split; [intros; contradiction|].
      repeat split; assumption.
Qed.

(** ** [EventBus.sse] *)

(** The stream hands out the events of the one shared queue in the order of
    their publication, each once: [n] rounds of the loop of [sse] yield the
    chunks of the first [n] events and remove these events from the queue,
    so that another reader of the stream gets the events after them; with
    fewer than [n] events in the queue the reader waits.  Reading changes
    neither the registry nor the flag. *)
Theorem sse_delivers_each_event_once_in_order :
  forall (sv : services) (n : nat) (s : state),
    sse_take sv n s
    = if (n <=? List.length (queue s))%nat
      then Some (map (sse_chunk sv) (firstn n (queue s)),
                 {| queue := skipn n (queue s); active_run := active_run s;
                    candidate_store := candidate_store s; ticks := ticks s |})
      else None.
Proof.
  intros sv n. induction n as [|n IH]; intros s.
  - cbn [sse_take Nat.leb firstn skipn map]. destruct s; reflexivity.
  - cbn [sse_take]. unfold sse_next.
    destruct (queue s) as [|ev q] eqn:Hq; [reflexivity|].
    rewrite IH. cbn [queue active_run candidate_store ticks List.length Nat.leb
                      firstn skipn map].
    destruct (n <=? List.length q)%nat; reflexivity.
Qed.

(** ** [GET /demo/run-topic] *)

Lemma read_contacts_csv_have_emails (str_strip : string -> string)
    (contacts_csv : option (list csv_row)) :
  Forall (fun c => truthy (p_email c) = true /\ p_status c = Some "Sourced")
         (_read_contacts_csv str_strip contacts_csv).
Proof.
  unfold _read_contacts_csv. destruct contacts_csv as [rows|]; [|constructor].
  induction rows as [|row rows IH]; cbn [flat_map]; [constructor|].
  destruct (str_strip (py_or_str (cr_email row) "") =? "") eqn:He; cbn [app];
    [exact IH|].
  constructor; [|exact IH]. cbn [p_email p_status truthy].
  rewrite He. split; reflexivity.
Qed.

Lemma topic_contacts_nonempty (str_lower : string -> string) (topic : string)
    (all_contacts : list partial) :
  all_contacts <> [] ->
  topic_contacts str_lower topic all_contacts <> []
  /\ incl (topic_contacts str_lower topic all_contacts) all_contacts.
Proof.
  intros Hne. unfold topic_contacts.
  destruct (filter _ all_contacts) as [|c cs] eqn:Hf.
  - split; [exact Hne|apply incl_refl].
  - split; [discriminate|]. rewrite <- Hf. intros x Hx.
    apply filter_In in Hx. apply Hx.
Qed.

(** [GET /demo/run-topic] always comes back and its run publishes exactly
    one [done] event, without reading or setting the run-active flag.
    Without a usable row in contacts.csv it publishes the event at once and
    leaves the registry alone.  Otherwise the contacts it simulates are
    never none (when no expertise mentions the topic it falls back to all
    contacts), each of them is a contact of the file, the count of the
    answer is their number, and one [candidates] event is published. *)
Theorem demo_run_topic_publishes_one_done :
  forall (str_strip str_lower : string -> string)
         (contacts_csv : option (list csv_row)) (topic : string) (s : state),
    let all_contacts := _read_contacts_csv str_strip contacts_csv in
    let filtered := topic_contacts str_lower topic all_contacts in
    exists resp s',
      to_completion (demo_run_topic str_strip str_lower contacts_csv topic) s
      = Returns resp s'
      /\ count_kind "done" (queue s') = S (count_kind "done" (queue s))
      /\ active_run s' = active_run s
      /\ match all_contacts with
         | [] =>
             resp = JObj [("ok", JBool false); ("reason", JStr "no contacts.csv")]
             /\ candidate_store s' = candidate_store s
         | _ :: _ =>
             resp = JObj [("ok", JBool true);
                          ("count", JNum (Z.of_nat (List.length filtered)))]
             /\ (0 < List.length filtered <= List.length all_contacts)%nat
             /\ incl filtered all_contacts
             /\ count_kind "candidates" (queue s')
                = S (count_kind "candidates" (queue s))
         end.
Proof.
  intros str_strip str_lower contacts_csv topic s all_contacts filtered.
  unfold to_completion, demo_run_topic. fold all_contacts.
  destruct all_contacts as [|c cs] eqn:Hall.
  - do 2 eexists. split; [reflexivity|].
    cbn [queue active_run candidate_store].
    rewrite !count_kind_snoc. simpl. repeat split; auto. lia.
  - assert (Hne : c :: cs <> []) by discriminate.
    destruct (topic_contacts_nonempty str_lower topic (c :: cs) Hne) as [Hf Hincl].
    fold filtered in Hf, Hincl |- *.
    unfold bind at 1. unfold bind at 1. unfold bind at 1. unfold with_store at 1.
    destruct (load (candidate_store s) filtered) as [st1 out] eqn:Hload.
    cbn [fst snd].
    unfold bind at 1. unfold emit at 1. unfold bind at 1. unfold with_store at 1.
    cbn [fst snd queue active_run candidate_store ticks].
    unfold bind at 1. unfold emit at 1. unfold ret at 1.
    cbn [fst snd queue active_run candidate_store ticks].
    match goal with
    | |- context [_simulate_outreach_sequence ?e ?s1] =>
        destruct (simulate_outreach_sequence_eq e s1) as (st' & n & Heq);
        rewrite Heq
    end.
    unfold ret. do 2 eexists. split; [reflexivity|].
    cbn [queue active_run candidate_store].
    rewrite !count_kind_app, count_done_simulated_events.
    split; [cbn; lia|]. split; [reflexivity|]. split; [reflexivity|].
    split; [|split; [exact Hincl|]].
    + split.
      * destruct filtered; [contradiction|cbn [List.length]; lia].
      * unfold filtered, topic_contacts.
        destruct (filter _ (c :: cs)) eqn:Hflt; [lia|].
        rewrite <- Hflt. apply filter_length_le.
    + rewrite (count_kind_payloads "candidates" (simulated_events _)).
      unfold simulated_events.
      rewrite !payloads_app, payloads_contact_events by discriminate.
      destruct (map rec_of_contact filtered); cbn; lia.
Qed.

(** ** The registry after the simulated sequence *)

Lemma update_status_get (st : store) (e : string) (s : option string) (e' : string) :
  store_get (fst (update_status st e s)) e'
  = match store_get st e' with
    | None => None
    | Some r => Some (if e =? e' then with_status r s else r)
    end.
Proof.
  unfold update_status. destruct (store_get st e) as [r|] eqn:Hg; cbn [fst].
  - rewrite store_get_set. destruct (e =? e') eqn:He.
    + apply String.eqb_eq in He. subst e'. rewrite Hg. reflexivity.
    + destruct (store_get st e'); reflexivity.
  - destruct (e =? e') eqn:He.
    + apply String.eqb_eq in He. subst e'. rewrite Hg. reflexivity.
    + destruct (store_get st e'); reflexivity.
Qed.

Lemma contacted_all_get (enriched : list rec) :
  forall (st : store) (e : string),
    store_get (contacted_all enriched st) e
    = match store_get st e with
      | None => None
      | Some r =>
          Some (if listed enriched e then with_status r (Some "Contacted") else r)
      end.
Proof.
  unfold contacted_all, listed.
  induction enriched as [|x enriched IH]; intros st e; cbn [fold_left existsb].
  - destruct (store_get st e); reflexivity.
  - rewrite IH, update_status_get.
    destruct (store_get st e) as [r|]; [|reflexivity].
    destruct (email x =? e); cbn [orb];
      destruct (existsb (fun x0 => email x0 =? e) enriched); reflexivity.
Qed.

Lemma simulate_contacts_store (enriched : list rec) :
  forall (s : state),
    exists s',
      simulate_contacts enriched s = Returns tt s'
      /\ candidate_store s' = contacted_all enriched (candidate_store s).
Proof.
  induction enriched as [|e enriched IH]; intros s.
  - exists s. split; reflexivity.
  - cbn [simulate_contacts]. unfold bind at 1. unfold sleep at 1, call at 1.
    unfold bind at 1. unfold emit at 1. unfold bind at 1. unfold with_store at 1.
    destruct (update_status (candidate_store (tick s)) (email e) (Some "Contacted"))
      as [st1 r1] eqn:Hu.
    cbn [fst snd queue active_run candidate_store ticks tick] in *.
    unfold bind at 1. unfold emit at 1.
    cbn [fst snd queue active_run candidate_store ticks tick].
    match goal with
    | |- context [simulate_contacts enriched ?s1] =>
        destruct (IH s1) as (s' & Hs' & Hst)
    end.
    exists s'. split; [exact Hs'|].
    rewrite Hst. cbn [candidate_store]. unfold contacted_all. cbn [fold_left].
    rewrite Hu. reflexivity.
Qed.

(** At the end of [_simulate_outreach_sequence] the registry holds the
    first candidate of the list as [Accepted] and every other candidate of
    the list as [Contacted], with their other fields as they were.  A record
    whose email is not in the list is untouched, and a candidate of the list
    that the registry does not know is not added to it. *)
Theorem simulated_sequence_accepts_the_first_candidate :
  forall (enriched : list rec) (s : state),
    exists s',
      _simulate_outreach_sequence enriched s = Returns tt s'
      /\ forall e,
           store_get (candidate_store s') e
           = match store_get (candidate_store s) e with
             | None => None
             | Some r =>
                 Some (if is_first enriched e then with_status r (Some "Accepted")
                       else if listed enriched e
                            then with_status r (Some "Contacted")
                            else r)
             end.
Proof.
  intros enriched s. unfold _simulate_outreach_sequence.
  unfold bind at 1. unfold emit at 1. unfold bind at 1.
  match goal with
  | |- context [simulate_contacts enriched ?s1] =>
      destruct (simulate_contacts_store enriched s1) as (s1' & Hs1 & Hst1)
  end.
  rewrite Hs1. cbn [candidate_store] in Hst1.
  destruct enriched as [|first rest].
  - eexists. split; [reflexivity|].
    intros e. cbn [candidate_store tick is_first listed existsb].
    rewrite Hst1. cbn. destruct (store_get (candidate_store s) e); reflexivity.
  - unfold bind at 1. unfold bind at 1. unfold sleep at 1, call at 1.
    unfold bind at 1. unfold emit at 1. unfold bind at 1. unfold with_store at 1.
    cbn [queue active_run candidate_store ticks tick].
    destruct (update_status (candidate_store s1') (email first) (Some "Accepted"))
      as [st2 r2] eqn:Hu.
    eexists. split; [reflexivity|].
    intros e. cbn [fst snd queue active_run candidate_store ticks tick is_first].
    change st2 with (fst (st2, r2)). rewrite <- Hu, update_status_get, Hst1.
    rewrite contacted_all_get.
    destruct (store_get (candidate_store s) e) as [r|]; [|reflexivity].
    destruct (email first =? e) eqn:He; [|reflexivity].
    unfold listed. cbn [existsb]. rewrite He. reflexivity.
Qed.

(** ** Reading a token back *)

(** The token of an email and a subject is the hexadecimal writing of the
    low 28 bits of their hash and of nothing else: read as a hexadecimal
    number it gives these bits back, so two pairs get the same token exactly
    when their hashes agree on the low 28 bits.  A token does not identify
    its candidate: two candidates whose hashes agree on these bits are sent
    the same token. *)
Theorem ref_token_is_the_low_28_bits_of_the_hash :
  forall (w : world),
    (forall email subject,
        of_hex (ref_token w email subject)
        = Some (Z.land (py_hash w email subject) 268435455))
    /\ (forall email1 subject1 email2 subject2,
          ref_token w email1 subject1 = ref_token w email2 subject2
          <-> Z.land (py_hash w email1 subject1) 268435455
              = Z.land (py_hash w email2 subject2) 268435455).
Proof.
  intros w.
  assert (Hback : forall h, of_hex (ref_of_hash h) = Some (Z.land h 268435455)).
  { intros h. unfold ref_of_hash. apply of_hex_hex.
    apply Z.land_nonneg. right. lia. }
  split.
  - intros email subject. apply Hback.
  - intros email1 subject1 email2 subject2. unfold ref_token. split.
    + intros Heq. apply (f_equal of_hex) in Heq. rewrite !Hback in Heq.
      injection Heq as Heq. exact Heq.
    + intros Heq. unfold ref_of_hash. rewrite Heq. reflexivity.
Qed.

(** ** [POST /run] and the registry *)

#[local] Instance same_store_progress : Progress same_store.
Proof.
  split; unfold same_store; intros; congruence.
Qed.

Lemma same_store_emit (kind : string) (data : json) :
  keeps same_store (emit kind data).
Proof. intros s. reflexivity. Qed.

Lemma same_store_call {A} (f : nat -> outcome A) : keeps same_store (call f).
Proof. intros s. unfold call. destruct (f (ticks s)); reflexivity. Qed.

Lemma same_store_outreach_updates (b : bool) (cs : list rec) (idx : nat) :
  keeps same_store
    (outreach_updates (callback (Some on_log)) (Some on_candidate_status) b idx cs).
Proof.
  revert idx. induction cs as [|c cs IH]; intros idx; cbn [outreach_updates].
  - apply keeps_ret. typeclasses eauto.
  - unfold callback, on_log, on_candidate_status, sleep.
    repeat first
      [ apply keeps_bind; [typeclasses eauto | | intros ?]
      | apply keeps_try_except; [typeclasses eauto | | ]
      | apply keeps_when; [typeclasses eauto | ]
      | apply keeps_ret; typeclasses eauto
      | apply same_store_emit | apply same_store_call | apply IH ].
Qed.

Lemma same_store_run_orchestrator (w : world) (topic : string) :
  keeps same_store
    (run_orchestrator w topic (Some on_log) (Some on_candidates_found)
       (Some on_candidate_status) true).
Proof.
  unfold run_orchestrator. destruct (dummy_run w).
  - pose proof (same_store_outreach_updates true mock_results 0) as Hu.
    unfold callback, on_log, on_candidates_found, on_candidate_status, sleep in *.
    repeat first
      [ exact Hu
      | apply keeps_bind; [typeclasses eauto | | intros ?]
      | apply keeps_try_except; [typeclasses eauto | | ]
      | apply keeps_when; [typeclasses eauto | ]
      | apply keeps_ret; typeclasses eauto
      | apply same_store_emit | apply same_store_call ].
  - unfold callback, on_log.
    repeat first
      [ apply keeps_bind; [typeclasses eauto | | intros ?]
      | apply keeps_try_except; [typeclasses eauto | | ]
      | apply keeps_ret; typeclasses eauto
      | apply same_store_emit | apply same_store_call ].
Qed.

(** A run started by [POST /run] never changes the registry, in the offline
    mode or with the crew, whether it ends well or not: its callbacks only
    publish events.  The candidates that an offline run announces in its
    [candidates] event are therefore not in the registry, and
    [POST /demo/start-outreach] after such a run on an empty registry still
    answers that there are no candidates. *)
Theorem a_run_does_not_load_the_registry :
  forall (w : world) (topic : string) (s : state),
    match to_completion (start_run w topic) s with
    | Returns _ s' | Raises _ s' =>
        candidate_store s' = candidate_store s
        /\ (candidate_store s = [] ->
            exists s'',
              to_completion demo_start_outreach s'
              = Returns (JObj [("ok", JBool false); ("reason", JStr "no candidates")])
                  s'')
    | OutOfFuel | Unmodelled => False
    end.
Proof.
  intros w topic s.
  assert (Hdemo : forall s', candidate_store s' = [] ->
            exists s'',
              to_completion demo_start_outreach s'
              = Returns (JObj [("ok", JBool false); ("reason", JStr "no candidates")])
                  s'').
  { intros s' Hs'. unfold to_completion, demo_start_outreach.
    unfold bind at 1. unfold bind at 1. unfold with_store at 1.
    unfold all, store_values. rewrite Hs'. cbn [map]. eexists. reflexivity. }
  unfold to_completion, start_run. unfold bind at 1. unfold bind at 1.
  unfold get_active_run. destruct (active_run s).
  - unfold raise. split; [reflexivity|]. intros Hs. apply Hdemo, Hs.
  - unfold bind at 1. unfold set_active_run at 1. unfold ret at 1. cbn [snd fst].
    unfold bind. unfold run_in_thread, try_finally.
    match goal with
    | |- context [run_orchestrator w topic ?a ?b ?c ?d ?s0] =>
        pose proof (same_store_run_orchestrator w topic s0) as Hk;
        pose proof (run_orchestrator_settles w topic s0) as [Hs1 Hs2];
        destruct (run_orchestrator w topic a b c d s0) as [[] s1|e s1| |]
    end; try congruence;
      unfold same_store in Hk; cbn [candidate_store] in Hk;
      unfold bind, emit, set_active_run, ret; cbn [candidate_store];
      (split; [exact Hk|]); intros Hs; apply Hdemo;
      cbn [candidate_store]; congruence.
Qed.

(** ** The speaker search *)

Lemma slice_to_pool {A} (P : A -> Prop) (m : Z) (pool : list A) :
  (0 < m)%Z -> pool <> [] -> Forall P pool ->
  slice_to m pool <> []
  /\ (Z.of_nat (List.length (slice_to m pool)) <= m)%Z
  /\ Forall P (slice_to m pool).
Proof.
  intros Hm Hne HP. unfold slice_to.
  destruct (0 <=? m)%Z eqn:H0; [|apply Z.leb_gt in H0; lia].
  split; [|split].
  - destruct pool as [|a pool]; [contradiction|].
    destruct (Z.to_nat m) eqn:Hn; [lia|]. discriminate.
  - rewrite length_firstn. lia.
  - apply Forall_forall. intros x Hx.
    apply (proj1 (Forall_forall P pool) HP).
    rewrite <- (firstn_skipn (Z.to_nat m) pool). apply in_or_app. left. exact Hx.
Qed.

Lemma demo_pools_are_demo_data :
  Forall (fun kv => snd kv <> []
                    /\ Forall (fun sp => sp_source sp = "Demo Data") (snd kv))
         demo_speakers.
Proof.
  unfold demo_speakers.
  repeat (constructor; [split; [discriminate|repeat constructor]|]).
  constructor.
Qed.

Lemma get_demo_speakers_never_none (str_lower : string -> string) (query : string)
    (m : Z) :
  (0 < m)%Z ->
  _get_demo_speakers str_lower query m <> []
  /\ (Z.of_nat (List.length (_get_demo_speakers str_lower query m)) <= m)%Z
  /\ Forall (fun sp => sp_source sp = "Demo Data")
            (_get_demo_speakers str_lower query m).
Proof.
  intros Hm. unfold _get_demo_speakers.
  assert (Hgen : generic_speakers query <> []
                 /\ Forall (fun sp => sp_source sp = "Demo Data")
                           (generic_speakers query)).
  { split; [discriminate|repeat constructor]. }
  destruct (snd (best_category str_lower query)) as [c|];
    [|apply slice_to_pool; tauto].
  destruct (c =? ""); [apply slice_to_pool; tauto|].
  unfold demo_lookup.
  destruct (find (fun kv => fst kv =? c) demo_speakers) as [[k pool]|] eqn:Hf;
    cbn [option_map snd]; [|apply slice_to_pool; tauto].
  apply find_some in Hf. destruct Hf as [Hin _].
  pose proof (proj1 (Forall_forall _ _) demo_pools_are_demo_data _ Hin) as [H1 H2].
  apply slice_to_pool; assumption.
Qed.

Lemma web_loop_spec (query : string) (n : Z) (elements : list (option string)) :
  forall (i : nat) (speakers : list speaker),
    Forall (fun sp => sp_source sp = "Web Search") speakers ->
    let out := web_loop query n i elements speakers in
    Forall (fun sp => sp_source sp = "Web Search") out
    /\ (List.length out <= Nat.max (List.length speakers) (Z.to_nat n))%nat
    /\ (List.length out <= List.length speakers + List.length elements)%nat.
Proof.
  induction elements as [|el rest IH]; intros i speakers Hs; cbn [web_loop].
  - cbv zeta. split; [exact Hs|]. split; lia.
  - cbv zeta. destruct (n <=? Z.of_nat (List.length speakers))%Z eqn:Hn.
    + split; [exact Hs|]. split; cbn [List.length]; lia.
    + apply Z.leb_gt in Hn. destruct el as [title|].
      * match goal with
        | |- context [web_loop query n (S i) rest ?sp] =>
            assert (Hsp : Forall (fun x => sp_source x = "Web Search") sp)
              by (apply Forall_app; split; [exact Hs|repeat constructor]);
            destruct (IH (S i) sp Hsp) as (H1 & H2 & H3)
        end.
        rewrite length_app in H2, H3. cbn [List.length] in *.
        split; [exact H1|]. split; lia.
      * destruct (IH (S i) speakers Hs) as (H1 & H2 & H3).
        split; [exact H1|]. split; cbn [List.length]; lia.
Qed.

Lemma attempt_web_scraping_spec (query : string) (n : Z)
    (page : option (list (option string))) :
  let web := _attempt_web_scraping query n page in
  Forall (fun sp => sp_source sp = "Web Search") web
  /\ (List.length web <= Z.to_nat n)%nat
  /\ (List.length web <= 10)%nat.
Proof.
  unfold _attempt_web_scraping. destruct page as [elements|]; cbv zeta.
  - destruct (web_loop_spec query n (firstn 10 elements) 0 [] (Forall_nil _))
      as (H1 & H2 & H3).
    cbn [List.length] in *. rewrite length_firstn in H3.
    split; [exact H1|]. split; lia.
  - split; [constructor|]. cbn [List.length]. split; lia.
Qed.

Lemma search_speakers_result_when_no_room (str_lower : string -> string)
    (query : string) (n : Z) (page : option (list (option string))) :
  (n <= 0)%Z -> SpeakerFinderService_search_speakers str_lower query n page = [].
Proof.
  intros Hn. unfold SpeakerFinderService_search_speakers.
  destruct (attempt_web_scraping_spec query n page) as (_ & Hlen & _).
  set (web := _attempt_web_scraping query n page) in *.
  assert (Hw : web = []).
  { destruct web; [reflexivity|]. cbn [List.length] in Hlen.
    assert (Hz : Z.to_nat n = 0%nat) by lia. lia. }
  rewrite Hw. cbn [List.length].
  destruct (Z.of_nat 0 <? n)%Z eqn:Hlt; [apply Z.ltb_lt in Hlt; lia|].
  unfold slice_to. destruct (0 <=? n)%Z; apply firstn_nil.
Qed.

(** [search_speakers] gives nothing when [max_results] is zero or negative.
    For a positive [max_results] it never gives nothing and never more than
    asked: its result is the speakers that the web search made up (at most
    ten, marked [Web Search]) followed by demo speakers (marked
    [Demo Data]), which are there whenever the web search fell short, since
    every category of the demo data and the generic fallback have
    speakers. *)
Theorem search_speakers_gives_between_one_and_max_results :
  forall (str_lower : string -> string) (query : string) (max_results : Z)
         (page : option (list (option string))),
    let result :=
      SpeakerFinderService_search_speakers str_lower query max_results page in
    if (0 <? max_results)%Z then
      result <> []
      /\ (Z.of_nat (List.length result) <= max_results)%Z
      /\ exists demo_part,
           result = (_attempt_web_scraping query max_results page ++ demo_part)%list
           /\ Forall (fun sp => sp_source sp = "Web Search")
                     (_attempt_web_scraping query max_results page)
           /\ Forall (fun sp => sp_source sp = "Demo Data") demo_part
           /\ (List.length (_attempt_web_scraping query max_results page) <= 10)%nat
    else result = [].
Proof.
  intros str_lower query n page. cbv zeta.
  unfold SpeakerFinderService_search_speakers.
  destruct (attempt_web_scraping_spec query n page) as (Hweb & Hlen & Hten).
  set (web := _attempt_web_scraping query n page) in *.
  destruct (0 <? n)%Z eqn:Hn.
  - apply Z.ltb_lt in Hn.
    destruct (Z.of_nat (List.length web) <? n)%Z eqn:Hlt.
    + apply Z.ltb_lt in Hlt.
      destruct (get_demo_speakers_never_none str_lower query
                  (n - Z.of_nat (List.length web)) ltac:(lia)) as (Hne & Hdl & Hdemo).
      set (demo_part := _get_demo_speakers str_lower query
                          (n - Z.of_nat (List.length web))) in *.
      assert (Hslice : slice_to n (web ++ demo_part) = (web ++ demo_part)%list).
      { unfold slice_to. destruct (0 <=? n)%Z eqn:H0; [|apply Z.leb_gt in H0; lia].
        apply firstn_all2. rewrite length_app. lia. }
      rewrite Hslice. split; [|split].
      * destruct web; [exact Hne|discriminate].
      * rewrite length_app. lia.
      * exists demo_part. repeat split; assumption.
    + apply Z.ltb_ge in Hlt.
      assert (Hslice : slice_to n web = web).
      { unfold slice_to. destruct (0 <=? n)%Z eqn:H0; [|apply Z.leb_gt in H0; lia].
        apply firstn_all2. lia. }
      rewrite Hslice. split; [|split].
      * destruct web; [cbn [List.length] in Hlt; lia|discriminate].
      * lia.
      * exists []. rewrite app_nil_r. repeat split; try assumption. constructor.
  - apply Z.ltb_ge in Hn. subst web.
    apply (search_speakers_result_when_no_room str_lower query n page Hn).
Qed.

(** With the speaker search of the repository, [POST /speakers/find] with a
    topic and a [max_results] that is zero or negative finds no speaker,
    creates no spreadsheet, and answers with a 500 that says that the
    creation of the spreadsheet failed. *)
Theorem find_speakers_without_room_creates_no_sheet :
  forall (sv : services) (str_lower : string -> string)
         (page : nat -> option (list (option string)))
         (topic : string) (max_results : Z) (s : state),
    (forall t query n,
        search_speakers sv t query n
        = Ret (map json_of_speaker
                 (SpeakerFinderService_search_speakers str_lower query n (page t)))) ->
    topic <> "" ->
    (max_results <= 0)%Z ->
    find_speakers sv (Some topic) (Some max_results) s
    = Raises (HTTPException 500
                ("Error finding speakers: "
                 ++ exn_str sv (HTTPException 500 "Failed to create spreadsheet")))
        (tick s).
Proof.
  intros sv str_lower page topic n s Hsearch Htopic Hn.
  unfold find_speakers, or_http_500. cbn [get_default].
  apply String.eqb_neq in Htopic. rewrite Htopic.
  unfold bind at 1. unfold find_and_create_sheet. unfold bind at 1. unfold call at 1.
  rewrite Hsearch.
  pose proof (search_speakers_result_when_no_room str_lower topic n (page (ticks s)) Hn)
    as Hres.
  rewrite Hres. cbn [map]. reflexivity.
Qed.

Lemma find_speakers_without_room_example :
  find_speakers example_services (Some "Blockchain") (Some 0%Z) initial_state
  = Raises (HTTPException 500 "Error finding speakers: error") (tick initial_state).
Proof.
  apply (find_speakers_without_room_creates_no_sheet example_services
           (fun s => s) (fun _ => None) "Blockchain" 0 initial_state).
  - reflexivity.
  - discriminate.
  - lia.
Defined.

(** ** The numbers of a run-flow request *)

(** [POST /outreach/run-flow] sets the run-active flag before it reads
    [windowMinutes], [pollEverySeconds] and [duration] with [int()].  When
    one of them is not read as an integer (a [null], a word, an infinite
    float, a list) the request fails with the exception of [int()], before
    any task is created, and the flag stays set: from then on [POST /run]
    and [POST /outreach/run-flow] answer 409. *)
Theorem run_flow_unreadable_number_leaves_the_flag_set :
  forall (w : world) (fuel : nat) (request : flow_request) (s : state) (e : exn),
    active_run s = false ->
    (py_int (fr_windowMinutes request) 30 = Some (Raise e)
     \/ ((exists n, py_int (fr_windowMinutes request) 30 = Some (Ret n))
         /\ py_int (fr_pollEverySeconds request) 20 = Some (Raise e))
     \/ ((exists n, py_int (fr_windowMinutes request) 30 = Some (Ret n))
         /\ (exists n, py_int (fr_pollEverySeconds request) 20 = Some (Ret n))
         /\ py_int (fr_duration request) 30 = Some (Raise e))) ->
    let s' := {| queue := queue s; active_run := true;
                 candidate_store := candidate_store s; ticks := ticks s |} in
    run_full_outreach_flow w fuel request s = Raises e s'
    /\ (forall topic,
          start_run w topic s'
          = Raises (HTTPException 409 "A run is already in progress") s')
    /\ (forall fuel' request',
          run_full_outreach_flow w fuel' request' s'
          = Raises (HTTPException 409 "A run is already in progress") s').
Proof.
  intros w fuel request s e Ha Hfail s'. split; [|split].
  - unfold run_full_outreach_flow, bind, get_active_run. rewrite Ha.
    unfold set_active_run, lift. fold s'.
    destruct Hfail as [Hw|[[[n Hw] Hp]|[[n Hw] [[m Hp] Hd]]]].
    + rewrite Hw. reflexivity.
    + rewrite Hw, Hp. reflexivity.
    + rewrite Hw, Hp, Hd. reflexivity.
  - intros topic. reflexivity.
  - intros fuel' request'. reflexivity.
Qed.

(** The request for [Bob] with [windowMinutes] the word [soon], [null], and
    [1e999]. *)
Lemma run_flow_unreadable_number_examples :
  let stuck := {| queue := []; active_run := true; candidate_store := [];
                  ticks := 0 |} in
  run_full_outreach_flow example_world 1 (example_request (NStr "soon"))
    initial_state = Raises ValueError stuck
  /\ run_full_outreach_flow example_world 1 (example_request NNull)
       initial_state = Raises TypeError stuck
  /\ run_full_outreach_flow example_world 1 (example_request (NFloat Infinity))
       initial_state = Raises OverflowError stuck
  /\ start_run example_world "AI" stuck
     = Raises (HTTPException 409 "A run is already in progress") stuck.
Proof.
  cbv zeta.
  pose proof (run_flow_unreadable_number_leaves_the_flag_set example_world 1
                (example_request (NStr "soon")) initial_state ValueError eq_refl
                (or_introl eq_refl)) as H1.
  pose proof (run_flow_unreadable_number_leaves_the_flag_set example_world 1
                (example_request NNull) initial_state TypeError eq_refl
                (or_introl eq_refl)) as H2.
  pose proof (run_flow_unreadable_number_leaves_the_flag_set example_world 1
                (example_request (NFloat Infinity)) initial_state OverflowError
                eq_refl (or_introl eq_refl)) as H3.
  cbv zeta in H1, H2, H3.
  split; [exact (proj1 H1)|]. split; [exact (proj1 H2)|].
  split; [exact (proj1 H3)|]. exact (proj1 (proj2 H1) "AI").
Defined.
